(** * tx_attest: canonicalisation, content hash and comparison of two
      providers' views of one transaction

    A shallow embedding of [tx_attest.py].

    - Python values are the inductive [pyval]; a [dict] is an association
      list in insertion order (its keys are distinct, [well_formed]).
    - A [str] is held as its UTF-8 text; [py_len] counts code points.
    - [int(x)] on text follows CPython's base-10 grammar: blanks, sign,
      digits, single underscores between digits.  In a [str] the blanks and
      the decimal digits of Unicode 14.0 (CPython 3.11) count as well; in
      [bytes] only the ASCII ones do.
    - CPython converts between text and [int] up to
      [sys.int_info.default_max_str_digits], 4300 digits, which the program
      does not change: beyond it [int(text)], [str(n)] and so [json.dumps]
      raise ValueError.  [int(n)] of a number and [==] have no such limit.
    - Floats do not occur in a JSON-RPC transaction and are not modelled,
      and neither are the limits of the interpreter on memory and on the
      depth of nested values.
    - A console line is recorded as a [message] with its arguments; how it
      is rendered as text is not part of the model.
    - [bytes.hex()] is the builtin (lowercase, no prefix), which is also what
      [HexBytes.hex()] returns from hexbytes 1.0 on.
    - [Web3.keccak] is Keccak-256, written out below.
    - Exceptions are values of [exn]; [sys.exit] is the outcome [Exit].
      Calls to a provider, digests and console lines are recorded in a trace
      of [event]s. *)

From Stdlib Require Import List String Ascii Bool Arith ZArith NArith Lia.
From Stdlib.Strings Require Import Byte.
From Stdlib Require Decimal DecimalString DecimalZ.
From Stdlib Require Import Sorted Permutation.
From Stdlib Require OrderedTypeEx.
Import ListNotations.

Local Open Scope string_scope.
Local Open Scope list_scope.

(** ** Python values *)

#[local] Unset Elimination Schemes.
Inductive pyval : Type :=
| VNone
| VBool (b : bool)
| VInt (z : Z)
| VStr (s : string)
| VBytes (bs : list byte)
| VList (xs : list pyval)
| VDict (kvs : list (string * pyval)).
#[local] Set Elimination Schemes.

Definition dict : Type := list (string * pyval).

(** Exceptions the program can meet. *)
Inductive exn : Type :=
| TypeError_int (v : pyval)     (* int() argument must be a string, ... *)
| ValueError_int (v : pyval)    (* int(v): invalid literal for int() with
                                   base 10, or more digits than the limit *)
| TypeError_json (v : pyval)    (* Object of type ... is not JSON serializable *)
| ValueError_str (z : Z)        (* str(z): Exceeds the limit (4300 digits) for
                                   integer string conversion *)
| KeyError (k : string)         (* d[k] with k missing *)
| SourceError (what : string).  (* raised by the provider *)

Inductive result (A : Type) : Type :=
| Ok (a : A)
| Err (e : exn).
Arguments Ok {A} a.
Arguments Err {A} e.

Definition rbind {A B} (r : result A) (f : A -> result B) : result B :=
  match r with
  | Ok a => f a
  | Err e => Err e
  end.

Notation "x <- r ;; k" := (rbind r (fun x => k))
  (at level 61, r at next level, right associativity).

(** ** Dictionaries *)

Section Assoc.
Context {V : Type}.

Fixpoint get (k : string) (d : list (string * V)) : option V :=
  match d with
  | [] => None
  | (k', v) :: r => if String.eqb k k' then Some v else get k r
  end.

Definition keys (d : list (string * V)) : list string := map fst d.

(** [k in d] *)
Definition has_key (k : string) (d : list (string * V)) : bool :=
  match get k d with
  | Some _ => true
  | None => false
  end.

(** [d[k] = v] *)
Fixpoint dict_set (k : string) (v : V) (d : list (string * V))
  : list (string * V) :=
  match d with
  | [] => [(k, v)]
  | (k', v') :: r =>
      if String.eqb k k' then (k, v) :: r else (k', v') :: dict_set k v r
  end.
End Assoc.

(** [d.get(k, default)] and [d.get(k)] *)
Definition get_default (d : dict) (k : string) (default : pyval) : pyval :=
  match get k d with
  | Some v => v
  | None => default
  end.

Definition py_get (d : dict) (k : string) : pyval := get_default d k VNone.

Definition is_none (v : pyval) : bool :=
  match v with
  | VNone => true
  | _ => false
  end.

(** ** Equality, [==] *)

Fixpoint bytes_eqb (a b : list byte) : bool :=
  match a, b with
  | [], [] => true
  | x :: a', y :: b' => Byte.eqb x y && bytes_eqb a' b'
  | _, _ => false
  end.

(** [True == 1] and [False == 0]: [bool] is a subclass of [int]. Two dicts
    are equal when they have as many keys and every key of the first is a key
    of the second with an equal value, whatever the order. *)
Fixpoint py_eq (x y : pyval) {struct x} : bool :=
  match x, y with
  | VNone, VNone => true
  | VBool a, VBool b => Bool.eqb a b
  | VBool a, VInt z => Z.eqb (Z.b2z a) z
  | VInt z, VBool b => Z.eqb z (Z.b2z b)
  | VInt a, VInt b => Z.eqb a b
  | VStr a, VStr b => String.eqb a b
  | VBytes a, VBytes b => bytes_eqb a b
  | VList xs, VList ys =>
      (fix all2 (xs ys : list pyval) : bool :=
         match xs, ys with
         | [], [] => true
         | x' :: xs', y' :: ys' => py_eq x' y' && all2 xs' ys'
         | _, _ => false
         end) xs ys
  | VDict a, VDict b =>
      Nat.eqb (List.length a) (List.length b)
      && (fix every (a : list (string * pyval)) : bool :=
            match a with
            | [] => true
            | (k, v) :: a' =>
                match get k b with
                | Some v' => py_eq v v'
                | None => false
                end && every a'
            end) a
  | _, _ => false
  end.

Definition dict_eq (a b : dict) : bool := py_eq (VDict a) (VDict b).

(** ** [bytes.hex()] *)

Definition hex_digit (n : N) : ascii :=
  nth (N.to_nat n) (list_ascii_of_string "0123456789abcdef") "0"%char.

Definition byte_hex (b : byte) : string :=
  let n := Byte.to_N b in
  String (hex_digit (n / 16)) (String (hex_digit (n mod 16)) "").

Fixpoint bytes_hex (bs : list byte) : string :=
  match bs with
  | [] => ""
  | b :: r => byte_hex b ++ bytes_hex r
  end.

(** ** [int(x)] *)

(** [sys.int_info.default_max_str_digits]: the most digits CPython converts
    between decimal text and an [int]. *)
Definition max_str_digits : nat := 4300.

(** C's [isspace] on ASCII. *)
Definition is_space (c : ascii) : bool :=
  let n := N_of_ascii c in
  ((9 <=? n) && (n <=? 13) || (n =? 32))%N.

Fixpoint lstrip (cs : list ascii) : list ascii :=
  match cs with
  | [] => []
  | c :: r => if is_space c then lstrip r else cs
  end.

Definition strip (cs : list ascii) : list ascii :=
  rev (lstrip (rev (lstrip cs))).

(** Digits with single underscores between them; [prev] tells whether the
    character before was a digit. *)
Fixpoint digits (cs : list ascii) (prev : bool) : option Decimal.uint :=
  match cs with
  | [] => if prev then Some Decimal.Nil else None
  | c :: r =>
      if Ascii.eqb c "_"
      then (if prev then digits r false else None)
      else DecimalString.uint_of_char c (digits r true)
  end.

(** [PyLong_FromString] in base 10: blanks, a sign, the digits, blanks. The
    digits are counted without the underscores, leading zeros included, and
    more than [max_str_digits] of them are refused. Both refusals are a
    ValueError. *)
Definition parse_int_literal (s : string) : option Z :=
  let cs := strip (list_ascii_of_string s) in
  let '(neg, ds) :=
    match cs with
    | c :: r =>
        if Ascii.eqb c "-" then (true, r)
        else if Ascii.eqb c "+" then (false, r)
        else (false, cs)
    | [] => (false, cs)
    end in
  match digits ds false with
  | Some d =>
      if (Decimal.nb_digits d <=? max_str_digits)%nat
      then Some (if neg then Z.opp (Z.of_uint d) else Z.of_uint d)
      else None
  | None => None
  end.

(** Code points of UTF-8 text. *)
Fixpoint utf8_decode (bs : list N) : list N :=
  match bs with
  | [] => []
  | b0 :: r =>
      if (b0 <? 128)%N then b0 :: utf8_decode r
      else if (b0 <? 224)%N then
        match r with
        | b1 :: r1 =>
            (N.lor (N.shiftl (N.land b0 31) 6) (N.land b1 63)) :: utf8_decode r1
        | [] => [b0]
        end
      else if (b0 <? 240)%N then
        match r with
        | b1 :: b2 :: r2 =>
            (N.lor (N.shiftl (N.land b0 15) 12)
               (N.lor (N.shiftl (N.land b1 63) 6) (N.land b2 63)))
              :: utf8_decode r2
        | _ => [b0]
        end
      else
        match r with
        | b1 :: b2 :: b3 :: r3 =>
            (N.lor (N.shiftl (N.land b0 7) 18)
               (N.lor (N.shiftl (N.land b1 63) 12)
                  (N.lor (N.shiftl (N.land b2 63) 6) (N.land b3 63))))
              :: utf8_decode r3
        | _ => [b0]
        end
  end.

Definition code_points (s : string) : list N :=
  utf8_decode (map N_of_ascii (list_ascii_of_string s)).

(** [Py_UNICODE_ISSPACE] past ASCII: NEL, the no-break space, the Ogham
    space mark, the spaces from U+2000 to U+200A, the line and paragraph
    separators, the narrow no-break space, the medium mathematical space and
    the ideographic space. *)
Definition unicode_space (c : N) : bool :=
  existsb (N.eqb c) [133; 160; 5760; 8232; 8233; 8239; 8287; 12288]%N
  || ((8192 <=? c) && (c <=? 8202))%N.

(** The digit zero of every run of ten decimal digits past ASCII
    (category Nd of Unicode 14.0). *)
Definition decimal_zeros : list N :=
  [ 1632; 1776; 1984; 2406; 2534; 2662; 2790; 2918; 3046; 3174; 3302; 3430;
    3558; 3664; 3792; 3872; 4160; 4240; 6112; 6160; 6470; 6608; 6784; 6800;
    6992; 7088; 7232; 7248; 42528; 43216; 43264; 43472; 43504; 43600; 44016;
    65296; 66720; 68912; 69734; 69872; 69942; 70096; 70384; 70736; 70864;
    71248; 71360; 71472; 71904; 72016; 72784; 73040; 73120; 92768; 92864;
    93008; 120782; 120792; 120802; 120812; 120822; 123200; 123632; 125264;
    130032 ]%N.

(** [Py_UNICODE_TODECIMAL] *)
Definition unicode_decimal (c : N) : option N :=
  match find (fun z => (z <=? c) && (c <? z + 10))%N decimal_zeros with
  | Some z => Some (c - z)%N
  | None => None
  end.

(** A blank becomes a space, a decimal digit its ASCII digit, and the text
    is cut at the first other character past ASCII, which becomes a question
    mark. *)
Fixpoint to_decimal_and_space (cps : list N) : list ascii :=
  match cps with
  | [] => []
  | c :: r =>
      if (c <? 127)%N then ascii_of_N c :: to_decimal_and_space r
      else if unicode_space c then " "%char :: to_decimal_and_space r
      else
        match unicode_decimal c with
        | Some d => ascii_of_N (48 + d) :: to_decimal_and_space r
        | None => ["?"%char]
        end
  end.

(** [_PyUnicode_TransformDecimalAndSpaceToASCII]: ASCII text is kept. *)
Definition transform_decimal_and_space (s : string) : string :=
  let cps := code_points s in
  if forallb (fun c => (c <? 128)%N) cps then s
  else string_of_list_ascii (to_decimal_and_space cps).

Definition py_int (v : pyval) : result Z :=
  match v with
  | VInt z => Ok z
  | VBool b => Ok (Z.b2z b)
  | VStr s =>
      match parse_int_literal (transform_decimal_and_space s) with
      | Some z => Ok z
      | None => Err (ValueError_int v)
      end
  | VBytes bs =>
      match parse_int_literal (string_of_list_byte bs) with
      | Some z => Ok z
      | None => Err (ValueError_int v)
      end
  | VNone | VList _ | VDict _ => Err (TypeError_int v)
  end.

(** ** canonical_tx *)

(** [int(tx.get(k, 0))] *)
Definition int_field (tx : dict) (k : string) : result pyval :=
  z <- py_int (get_default tx k (VInt 0)) ;; Ok (VInt z).

(** [int(tx.get(k, 0)) if tx.get(k) is not None else None] *)
Definition opt_int_field (tx : dict) (k : string) : result pyval :=
  if negb (is_none (py_get tx k)) then int_field tx k else Ok VNone.

(** [tx.get("hash").hex() if isinstance(tx.get("hash"), bytes)
     else tx.get("hash")] *)
Definition hash_field (tx : dict) : pyval :=
  match py_get tx "hash" with
  | VBytes bs => VStr (bytes_hex bs)
  | v => v
  end.

(** The entries of the dict display are evaluated from top to bottom; the
    first [int()] that raises ends the call. *)
Definition canonical_tx (tx : dict) : result dict :=
  let hash := hash_field tx in
  nonce <- int_field tx "nonce" ;;
  let from := py_get tx "from" in
  let to := py_get tx "to" in
  value <- int_field tx "value" ;;
  gas <- int_field tx "gas" ;;
  gasPrice <- opt_int_field tx "gasPrice" ;;
  maxFeePerGas <- opt_int_field tx "maxFeePerGas" ;;
  maxPriorityFeePerGas <- opt_int_field tx "maxPriorityFeePerGas" ;;
  type <- opt_int_field tx "type" ;;
  let input := py_get tx "input" in
  let accessList := get_default tx "accessList" VNone in
  chainId <- opt_int_field tx "chainId" ;;
  v <- int_field tx "v" ;;
  r <- int_field tx "r" ;;
  s <- int_field tx "s" ;;
  blockNumber <- opt_int_field tx "blockNumber" ;;
  transactionIndex <- opt_int_field tx "transactionIndex" ;;
  Ok [ ("hash", hash);
       ("nonce", nonce);
       ("from", from);
       ("to", to);
       ("value", value);
       ("gas", gas);
       ("gasPrice", gasPrice);
       ("maxFeePerGas", maxFeePerGas);
       ("maxPriorityFeePerGas", maxPriorityFeePerGas);
       ("type", type);
       ("input", input);
       ("accessList", accessList);
       ("chainId", chainId);
       ("v", v);
       ("r", r);
       ("s", s);
       ("blockNumber", blockNumber);
       ("transactionIndex", transactionIndex) ].

(** ** Sorting by key, [sorted] *)

(** Strings are ordered by their characters, from the first on. *)
Definition str_lt (a b : string) : Prop := String.compare a b = Lt.

Section SortOn.
Context {A : Type} (key : A -> string).

(** The order of two items is that of their keys. *)
Definition lt_on (x y : A) : Prop := str_lt (key x) (key y).

Fixpoint insert_on (x : A) (l : list A) : list A :=
  match l with
  | [] => [x]
  | y :: r =>
      if String.leb (key x) (key y) then x :: l else y :: insert_on x r
  end.

Fixpoint sort_on (l : list A) : list A :=
  match l with
  | [] => []
  | x :: r => insert_on x (sort_on r)
  end.
End SortOn.

(** [sorted(set(a) | set(b))] for two lists of keys *)
Definition sorted_union (a b : list string) : list string :=
  sort_on (fun k => k) (nodup string_dec (a ++ b)).

(** ** json.dumps(obj, sort_keys=True, separators=(",", ":")) *)

Definition dquote : ascii := "034"%char.
Definition backslash : ascii := "092"%char.

Definition str1 (c : ascii) : string := String c "".

(** [len(s)] *)
Definition py_len (s : string) : nat := List.length (code_points s).

Definition hex4 (n : N) : string :=
  String (hex_digit (N.shiftr n 12 mod 16))
    (String (hex_digit (N.shiftr n 8 mod 16))
       (String (hex_digit (N.shiftr n 4 mod 16))
          (String (hex_digit (n mod 16)) ""))).

Definition escape_u (n : N) : string :=
  String backslash (String "u" (hex4 n)).

(** One character of a JSON string under [ensure_ascii]. *)
Definition json_escape (c : N) : string :=
  if (c =? 34)%N then String backslash (str1 dquote)
  else if (c =? 92)%N then String backslash (str1 backslash)
  else if (c =? 10)%N then String backslash "n"
  else if (c =? 13)%N then String backslash "r"
  else if (c =? 9)%N then String backslash "t"
  else if (c =? 8)%N then String backslash "b"
  else if (c =? 12)%N then String backslash "f"
  else if ((32 <=? c) && (c <=? 126))%N then str1 (ascii_of_N c)
  else if (c <? 65536)%N then escape_u c
  else
    let n := (c - 65536)%N in
    escape_u (N.lor 55296 (N.land (N.shiftr n 10) 1023))
    ++ escape_u (N.lor 56320 (N.land n 1023)).

Definition json_str (s : string) : string :=
  String dquote (String.concat "" (map json_escape (code_points s)))
  ++ str1 dquote.

(** The decimal numeral of [z], and how many digits it has. *)
Definition decimal (z : Z) : string :=
  DecimalString.NilZero.string_of_int (Z.to_int z).

Definition int_digits (z : Z) : nat :=
  Decimal.nb_digits (N.to_uint (Z.abs_N z)).

(** [str(z)] and [repr(z)]: refused past [max_str_digits] digits. *)
Definition int_str (z : Z) : result string :=
  if (int_digits z <=? max_str_digits)%nat then Ok (decimal z)
  else Err (ValueError_str z).

Fixpoint sequence {K A : Type} (l : list (K * result A))
  : result (list (K * A)) :=
  match l with
  | [] => Ok []
  | (k, r) :: rest =>
      a <- r ;; more <- sequence rest ;; Ok ((k, a) :: more)
  end.

Definition json_item (kv : string * string) : string :=
  json_str (fst kv) ++ ":" ++ snd kv.

(** The items of a dict are written in the order of their keys, and the
    first value that cannot be written, in that order, raises. *)
Fixpoint json_dumps (v : pyval) : result string :=
  match v with
  | VNone => Ok "null"
  | VBool true => Ok "true"
  | VBool false => Ok "false"
  | VInt z => int_str z
  | VStr s => Ok (json_str s)
  | VBytes _ => Err (TypeError_json v)
  | VList xs =>
      items <- (fix each (xs : list pyval) : result (list string) :=
                  match xs with
                  | [] => Ok []
                  | x :: r =>
                      s <- json_dumps x ;; ss <- each r ;; Ok (s :: ss)
                  end) xs ;;
      Ok ("[" ++ String.concat "," items ++ "]")%string
  | VDict kvs =>
      let rendered :=
        (fix each (kvs : list (string * pyval))
           : list (string * result string) :=
           match kvs with
           | [] => []
           | (k, x) :: r => (k, json_dumps x) :: each r
           end) kvs in
      items <- sequence (sort_on fst rendered) ;;
      Ok ("{" ++ String.concat "," (map json_item items) ++ "}")%string
  end.

(** [str.encode()] of ASCII text (the output of [json_dumps] is ASCII). *)
Definition encode (s : string) : list byte := list_byte_of_string s.

(** ** Keccak-256, [Web3.keccak] *)

Module Keccak.
Local Open Scope Z_scope.

Definition mask64 : Z := 18446744073709551615.

Definition rotl (x n : Z) : Z :=
  Z.land (Z.lor (Z.shiftl x n) (Z.shiftr x (64 - n))) mask64.

Definition lane (st : list Z) (x y : nat) : Z :=
  nth (x mod 5 + 5 * (y mod 5))%nat st 0.

Definition round_constants : list Z :=
  [ 0x0000000000000001; 0x0000000000008082; 0x800000000000808A;
    0x8000000080008000; 0x000000000000808B; 0x0000000080000001;
    0x8000000080008081; 0x8000000000008009; 0x000000000000008A;
    0x0000000000000088; 0x0000000080008009; 0x000000008000000A;
    0x000000008000808B; 0x800000000000008B; 0x8000000000008089;
    0x8000000000008003; 0x8000000000008002; 0x8000000000000080;
    0x000000000000800A; 0x800000008000000A; 0x8000000080008081;
    0x8000000000008080; 0x0000000080000001; 0x8000000080008008 ].

(** Rotation offsets, at index [x + 5 * y]. *)
Definition rotation_offsets : list Z :=
  [  0;  1; 62; 28; 27;
    36; 44;  6; 55; 20;
     3; 10; 43; 25; 39;
    41; 45; 15; 21;  8;
    18;  2; 61; 56; 14 ].

Definition coords : list (nat * nat) :=
  flat_map (fun y => map (fun x => (x, y)) (seq 0 5)) (seq 0 5).

Definition theta (st : list Z) : list Z :=
  let c := map (fun x =>
                  Z.lxor (lane st x 0)
                    (Z.lxor (lane st x 1)
                       (Z.lxor (lane st x 2)
                          (Z.lxor (lane st x 3) (lane st x 4)))))
               (seq 0 5) in
  let d := map (fun x =>
                  Z.lxor (nth ((x + 4) mod 5)%nat c 0)
                    (rotl (nth ((x + 1) mod 5)%nat c 0) 1))
               (seq 0 5) in
  map (fun '(x, y) => Z.lxor (lane st x y) (nth x d 0)) coords.

Definition rho_pi (st : list Z) : list Z :=
  map (fun '(x, y) =>
         let x0 := ((x + 3 * y) mod 5)%nat in
         rotl (lane st x0 x) (nth (x0 + 5 * x)%nat rotation_offsets 0))
      coords.

Definition chi (st : list Z) : list Z :=
  map (fun '(x, y) =>
         Z.lxor (lane st x y)
           (Z.land (Z.lxor (lane st (x + 1) y) mask64)
              (lane st (x + 2) y)))
      coords.

Definition iota (rc : Z) (st : list Z) : list Z :=
  match st with
  | [] => []
  | a :: r => Z.lxor a rc :: r
  end.

Definition round (st : list Z) (rc : Z) : list Z :=
  iota rc (chi (rho_pi (theta st))).

Definition keccak_f (st : list Z) : list Z :=
  fold_left round round_constants st.

Definition rate : nat := 136.

(** pad10*1 with the Keccak domain bits. *)
Definition pad (len : nat) : list Z :=
  let q := (rate - len mod rate)%nat in
  if (q =? 1)%nat then [0x81]
  else 0x01 :: repeat 0 (q - 2) ++ [0x80].

Definition le64 (bs : list Z) : Z :=
  fold_right (fun b acc => b + 256 * acc) 0 bs.

Definition block_lanes (block : list Z) : list Z :=
  map (fun i => le64 (firstn 8 (skipn (8 * i) block))) (seq 0 17)
  ++ repeat 0 8.

Fixpoint xor_lanes (a b : list Z) : list Z :=
  match a, b with
  | x :: a', y :: b' => Z.lxor x y :: xor_lanes a' b'
  | _, _ => a
  end.

Fixpoint absorb (fuel : nat) (st : list Z) (msg : list Z) : list Z :=
  match fuel, msg with
  | _, [] => st
  | O, _ => st
  | S f, _ =>
      absorb f (keccak_f (xor_lanes st (block_lanes (firstn rate msg))))
        (skipn rate msg)
  end.

Definition lane_bytes (l : Z) : list Z :=
  map (fun i => Z.land (Z.shiftr l (8 * Z.of_nat i)) 255) (seq 0 8).

Definition of_byte (b : byte) : Z := Z.of_N (Byte.to_N b).

Definition to_byte (z : Z) : byte :=
  match Byte.of_N (Z.to_N z) with
  | Some b => b
  | None => x00
  end.

Definition keccak256 (data : list byte) : list byte :=
  let msg := map of_byte data ++ pad (List.length data) in
  let st := absorb (List.length msg) (repeat 0 25) msg in
  map to_byte (flat_map lane_bytes (firstn 4 st)).
End Keccak.

(** ** The program: effects *)

(** Console lines, by the statement that prints them. *)
Inductive message : Type :=
| MsgWhitespaceUrl (url : string)
| MsgConnectFailed (url : string)
| MsgUsage
| MsgUsageSynopsis
| MsgExample
| MsgExampleLine
| MsgInvalidHash
| MsgIdenticalRpc
| MsgPlaceholder
| MsgRpcA (url : string) (chain : Z)
| MsgRpcB (url : string) (chain : Z)
| MsgChainMismatch
| MsgFetching (txh : string)
| MsgMatch
| MsgRoot (root : pyval)
| MsgDiffer
| MsgInfo (info : dict)
| MsgElapsed.

Inductive event : Type :=
| EvPrint (m : message)
| EvIsConnected (url : string)
| EvChainId (url : string)
| EvGetTransaction (url : string) (tx_hash : string)
| EvKeccak (data : list byte)
| EvClock.

Inductive outcome (A : Type) : Type :=
| Ret (a : A)
| Raise (e : exn)
| Exit (code : Z).
Arguments Ret {A} a.
Arguments Raise {A} e.
Arguments Exit {A} code.

(** A computation extends the trace of events and ends in an outcome. *)
Definition M (A : Type) : Type := list event -> outcome A * list event.

Definition ret {A} (a : A) : M A := fun t => (Ret a, t).

Definition bind {A B} (m : M A) (f : A -> M B) : M B :=
  fun t =>
    match m t with
    | (Ret a, t') => f a t'
    | (Raise e, t') => (Raise e, t')
    | (Exit c, t') => (Exit c, t')
    end.

Definition emit (e : event) : M unit := fun t => (Ret tt, t ++ [e]).
Definition raise {A} (e : exn) : M A := fun t => (Raise e, t).
Definition sys_exit {A} (code : Z) : M A := fun t => (Exit code, t).
Definition print (m : message) : M unit := emit (EvPrint m).

Definition lift {A} (r : result A) : M A :=
  match r with
  | Ok a => ret a
  | Err e => raise e
  end.

(** [try: m except Exception as e: handler(e)]; [SystemExit] passes. *)
Definition try_except {A} (m : M A) (handler : exn -> M A) : M A :=
  fun t =>
    match m t with
    | (Raise e, t') => handler e t'
    | r => r
    end.

Notation "x <-- m ;; k" := (bind m (fun x => k))
  (at level 61, m at next level, right associativity).
Notation "m ;;; k" := (bind m (fun _ => k))
  (at level 61, right associativity).

Definition when (b : bool) (m : M unit) : M unit := if b then m else ret tt.

(** [needle in hay] *)
Definition contains (needle hay : string) : bool :=
  match String.index 0 needle hay with
  | Some _ => true
  | None => false
  end.

(** [d[k]] *)
Definition subscript (d : dict) (k : string) : result pyval :=
  match get k d with
  | Some v => Ok v
  | None => Err (KeyError k)
  end.

(** The first value [json.dumps] cannot write when it keeps the order of
    insertion ([indent=2], no [sort_keys]): a [bytes] value, or an [int] of
    more digits than [str] accepts. *)
Fixpoint unserializable (v : pyval) : option pyval :=
  match v with
  | VBytes _ => Some v
  | VInt z => if (int_digits z <=? max_str_digits)%nat then None else Some v
  | VList xs =>
      (fix first (xs : list pyval) : option pyval :=
         match xs with
         | [] => None
         | x :: r =>
             match unserializable x with
             | Some u => Some u
             | None => first r
             end
         end) xs
  | VDict kvs =>
      (fix first (kvs : list (string * pyval)) : option pyval :=
         match kvs with
         | [] => None
         | (_, x) :: r =>
             match unserializable x with
             | Some u => Some u
             | None => first r
             end
         end) kvs
  | _ => None
  end.

(** What [json.dumps] raises on such a value. *)
Definition dumps_error (u : pyval) : exn :=
  match u with
  | VInt z => ValueError_str z
  | _ => TypeError_json u
  end.

(** The exceptions of [json.dumps]: the TypeError for a [bytes] value and
    the ValueError for an [int] of more digits than [str] accepts. *)
Definition json_exception (e : exn) : Prop :=
  (exists bs, e = TypeError_json (VBytes bs))
  \/ (exists z, e = ValueError_str z
                /\ (max_str_digits < int_digits z)%nat).

(** ** keccak_json *)

(** The digest of a value, when it can be serialised. *)
Definition digest (obj : pyval) : result string :=
  s <- json_dumps obj ;;
  Ok ("0x" ++ bytes_hex (Keccak.keccak256 (encode s)))%string.

Definition keccak_json (obj : pyval) : M string :=
  data <-- lift (s <- json_dumps obj ;; Ok (encode s)) ;;
  emit (EvKeccak data) ;;;
  ret ("0x" ++ bytes_hex (Keccak.keccak256 data))%string.

(** ** compare_txs *)

(** The loop over [sorted(set(tx_a.keys()) | set(tx_b.keys()))]. *)
Definition diff_fields (tx_a tx_b : dict) : dict :=
  fold_left
    (fun diff k =>
       if negb (py_eq (py_get tx_a k) (py_get tx_b k))
       then dict_set k (VDict [ ("a", py_get tx_a k);
                                ("b", py_get tx_b k) ]) diff
       else diff)
    (sorted_union (keys tx_a) (keys tx_b)) [].

Definition compare_txs (tx_a tx_b : dict) : M (bool * dict) :=
  if has_key "error" tx_a || has_key "error" tx_b then
    ret (false, [ ("errorA", py_get tx_a "error");
                  ("errorB", py_get tx_b "error") ])
  else if dict_eq tx_a tx_b then
    root <-- keccak_json (VDict tx_a) ;;
    ret (true, [ ("root", VStr root) ])
  else
    let diff_fields := diff_fields tx_a tx_b in
    rootA <-- keccak_json (VDict tx_a) ;;
    rootB <-- keccak_json (VDict tx_b) ;;
    ret (false, [ ("rootA", VStr rootA);
                  ("rootB", VStr rootB);
                  ("fieldDiffs", VDict diff_fields) ]).

(** The three shapes of the comparison's answer. *)
Definition FetchFailure (errorA errorB : pyval) : bool * dict :=
  (false, [ ("errorA", errorA); ("errorB", errorB) ]).

Definition Match (root : string) : bool * dict :=
  (true, [ ("root", VStr root) ]).

Definition Mismatch (rootA rootB : string) (fieldDiffs : dict)
  : bool * dict :=
  (false, [ ("rootA", VStr rootA);
            ("rootB", VStr rootB);
            ("fieldDiffs", VDict fieldDiffs) ]).

(** ** Providers, fetch_tx, connect and main *)

(** What a node answers: [None] from [get_transaction] is "no such
    transaction". *)
Record provider : Type := {
  is_connected : bool;
  chain_id : result Z;
  get_transaction : string -> result (option dict)
}.

Section Program.
(** [str(e)] for an exception, the nodes behind each URL, and the
    process environment. *)
Variable str_of_exn : exn -> string.
Variable world : string -> provider.
Variable environ : string -> option string.

(** [os.getenv(name, default)] *)
Definition getenv (name default : string) : string :=
  match environ name with
  | Some v => v
  | None => default
  end.

Definition DEFAULT_RPC_A : string :=
  getenv "RPC_A" "https://mainnet.infura.io/v3/your_api_key".
Definition DEFAULT_RPC_B : string :=
  getenv "RPC_B" "https://eth.llamarpc.com".

(** A connected [Web3] is named by its URL. *)
Definition connect (url : string) : M string :=
  when (contains " " url) (print (MsgWhitespaceUrl url)) ;;;
  emit (EvIsConnected url) ;;;
  if negb (is_connected (world url)) then
    print (MsgConnectFailed url) ;;;
    sys_exit 1
  else ret url.

Definition fetch_tx (w3 : string) (tx_hash : string) : M dict :=
  try_except
    (emit (EvGetTransaction w3 tx_hash) ;;;
     tx <-- lift (get_transaction (world w3) tx_hash) ;;
     match tx with
     | None => ret [ ("error", VStr "transaction not found") ]
     | Some tx => lift (canonical_tx tx)
     end)
    (fun e => ret [ ("error", VStr (str_of_exn e)) ]).

(** The record fetch_tx returns, as a function of the node's answer. *)
Definition fetched (w3 tx_hash : string) : dict :=
  match get_transaction (world w3) tx_hash with
  | Err e => [ ("error", VStr (str_of_exn e)) ]
  | Ok None => [ ("error", VStr "transaction not found") ]
  | Ok (Some tx) =>
      match canonical_tx tx with
      | Ok c => c
      | Err e => [ ("error", VStr (str_of_exn e)) ]
      end
  end.

Definition main (argv : list string) : M unit :=
  if (List.length argv <? 2)%nat then
    print MsgUsage ;;;
    print MsgUsageSynopsis ;;;
    print MsgExample ;;;
    print MsgExampleLine ;;;
    sys_exit 1
  else
    let txh := nth 1 argv "" in
    let rpcA := if (2 <? List.length argv)%nat
                then nth 2 argv "" else DEFAULT_RPC_A in
    let rpcB := if (3 <? List.length argv)%nat
                then nth 3 argv "" else DEFAULT_RPC_B in
    if negb (String.prefix "0x" txh && (py_len txh =? 66)%nat) then
      print MsgInvalidHash ;;;
      sys_exit 2
    else
      when (String.eqb rpcA rpcB) (print MsgIdenticalRpc) ;;;
      when (contains "your_api_key" rpcA || contains "your_api_key" rpcB)
        (print MsgPlaceholder) ;;;
      wA <-- connect rpcA ;;
      wB <-- connect rpcB ;;
      emit (EvChainId wA) ;;;
      chainA <-- lift (chain_id (world wA)) ;;
      emit (EvChainId wB) ;;;
      chainB <-- lift (chain_id (world wB)) ;;
      print (MsgRpcA rpcA chainA) ;;;
      print (MsgRpcB rpcB chainB) ;;;
      if negb (chainA =? chainB)%Z then
        print MsgChainMismatch ;;;
        sys_exit 3
      else
        print (MsgFetching txh) ;;;
        emit EvClock ;;;
        txA <-- fetch_tx wA txh ;;
        txB <-- fetch_tx wB txh ;;
        emit EvClock ;;;
        r <-- compare_txs txA txB ;;
        let '(ok, info) := r in
        (if ok then
           print MsgMatch ;;;
           root <-- lift (subscript info "root") ;;
           print (MsgRoot root)
         else
           print MsgDiffer ;;;
           match unserializable (VDict info) with
           | Some u => raise (dumps_error u)
           | None => print (MsgInfo info)
           end) ;;;
        print MsgElapsed.
End Program.

(** Events that reach a provider. *)
Definition contacts_source (e : event) : bool :=
  match e with
  | EvIsConnected _ | EvChainId _ | EvGetTransaction _ _ => true
  | _ => false
  end.

Definition is_get_transaction (e : event) : bool :=
  match e with
  | EvGetTransaction _ _ => true
  | _ => false
  end.

Definition is_keccak (e : event) : bool :=
  match e with
  | EvKeccak _ => true
  | _ => false
  end.

(** ** Names used in the statements *)

(** The fields of a canonical record, in the order of the dict display. *)
Definition canonical_fields : list string :=
  [ "hash"; "nonce"; "from"; "to"; "value"; "gas"; "gasPrice";
    "maxFeePerGas"; "maxPriorityFeePerGas"; "type"; "input"; "accessList";
    "chainId"; "v"; "r"; "s"; "blockNumber"; "transactionIndex" ].

(** Fields converted with [int(tx.get(k, 0))], and those that stay [None]. *)
Definition required_int_fields : list string :=
  [ "nonce"; "value"; "gas"; "v"; "r"; "s" ].

Definition optional_int_fields : list string :=
  [ "gasPrice"; "maxFeePerGas"; "maxPriorityFeePerGas"; "type"; "chainId";
    "blockNumber"; "transactionIndex" ].

Definition passthrough_fields : list string :=
  [ "hash"; "from"; "to"; "input"; "accessList" ].

(** What a returned record is made of. *)
Record fields_of (tx c : dict) : Prop := {
  fo_nonce : int_field tx "nonce" = Ok (py_get c "nonce");
  fo_value : int_field tx "value" = Ok (py_get c "value");
  fo_gas : int_field tx "gas" = Ok (py_get c "gas");
  fo_gasPrice : opt_int_field tx "gasPrice" = Ok (py_get c "gasPrice");
  fo_maxFeePerGas :
    opt_int_field tx "maxFeePerGas" = Ok (py_get c "maxFeePerGas");
  fo_maxPriorityFeePerGas :
    opt_int_field tx "maxPriorityFeePerGas"
    = Ok (py_get c "maxPriorityFeePerGas");
  fo_type : opt_int_field tx "type" = Ok (py_get c "type");
  fo_chainId : opt_int_field tx "chainId" = Ok (py_get c "chainId");
  fo_v : int_field tx "v" = Ok (py_get c "v");
  fo_r : int_field tx "r" = Ok (py_get c "r");
  fo_s : int_field tx "s" = Ok (py_get c "s");
  fo_blockNumber :
    opt_int_field tx "blockNumber" = Ok (py_get c "blockNumber");
  fo_transactionIndex :
    opt_int_field tx "transactionIndex" = Ok (py_get c "transactionIndex");
  fo_hash : py_get c "hash" = hash_field tx;
  fo_from : py_get c "from" = py_get tx "from";
  fo_to : py_get c "to" = py_get tx "to";
  fo_input : py_get c "input" = py_get tx "input";
  fo_accessList : py_get c "accessList" = py_get tx "accessList";
  fo_keys : keys c = canonical_fields
}.

(** [int(v)] returns. *)
Definition int_like (v : pyval) : bool :=
  match py_int v with
  | Ok _ => true
  | Err _ => false
  end.

(** Every integer field of the record is missing or is accepted by [int],
    and the optional ones may also be [None]. *)
Definition convertible (tx : dict) : bool :=
  forallb (fun k => int_like (get_default tx k (VInt 0))) required_int_fields
  && forallb (fun k => is_none (py_get tx k)
                       || int_like (get_default tx k (VInt 0)))
       optional_int_fields.

(** Decimal text as [int] reads it: blanks, a sign or none, the digits of
    a numeral with single underscores between some of them, blanks. *)
Inductive sign : Type := NoSign | Plus | Minus.

Definition sign_chars (sg : sign) : list ascii :=
  match sg with
  | NoSign => []
  | Plus => ["+"%char]
  | Minus => ["-"%char]
  end.

Definition signed (sg : sign) (n : Z) : Z :=
  match sg with
  | Minus => Z.opp n
  | _ => n
  end.

Definition digit_char (c : ascii) : bool :=
  let n := N_of_ascii c in ((48 <=? n) && (n <=? 57))%N.

Definition blanks (cs : list ascii) : bool := forallb is_space cs.

Definition numeral_chars (d : Decimal.uint) : list ascii :=
  list_ascii_of_string (DecimalString.NilEmpty.string_of_uint d).

(** The digits [cs] with an underscore after each digit marked [true],
    the last digit apart. *)
Fixpoint underscored (cs : list ascii) (marks : list bool) : list ascii :=
  match cs with
  | [] => []
  | c :: r =>
      match r, marks with
      | [], _ => [c]
      | _, true :: m => c :: "_"%char :: underscored r m
      | _, false :: m => c :: underscored r m
      | _, [] => c :: underscored r []
      end
  end.

Definition decimal_text (lead : list ascii) (sg : sign) (d : Decimal.uint)
    (marks : list bool) (trail : list ascii) : string :=
  string_of_list_ascii
    (lead ++ sign_chars sg ++ underscored (numeral_chars d) marks ++ trail).

(** The field diff as the specification words it: over the sorted union of
    the field names, the fields whose values differ, each with both values. *)
Definition field_diffs (a b : dict) : dict :=
  map (fun k => (k, VDict [ ("a", py_get a k); ("b", py_get b k) ]))
    (filter (fun k => negb (py_eq (py_get a k) (py_get b k)))
       (sorted_union (keys a) (keys b))).

Fixpoint distinct (ks : list string) : bool :=
  match ks with
  | [] => true
  | k :: r => negb (existsb (String.eqb k) r) && distinct r
  end.

(** Every dict inside the value has distinct keys, as a Python dict has. *)
Fixpoint well_formed (v : pyval) : bool :=
  match v with
  | VList xs =>
      (fix all (xs : list pyval) : bool :=
         match xs with
         | [] => true
         | x :: r => well_formed x && all r
         end) xs
  | VDict kvs =>
      distinct (keys kvs)
      && (fix all (kvs : list (string * pyval)) : bool :=
            match kvs with
            | [] => true
            | (_, x) :: r => well_formed x && all r
            end) kvs
  | _ => true
  end.

(** No [True] or [False] anywhere in the value. *)
Fixpoint bool_free (v : pyval) : bool :=
  match v with
  | VBool _ => false
  | VList xs =>
      (fix all (xs : list pyval) : bool :=
         match xs with
         | [] => true
         | x :: r => bool_free x && all r
         end) xs
  | VDict kvs =>
      (fix all (kvs : list (string * pyval)) : bool :=
         match kvs with
         | [] => true
         | (_, x) :: r => bool_free x && all r
         end) kvs
  | _ => true
  end.

(** Every [int] in the value has a numeral [str] can write. *)
Fixpoint ints_fit (v : pyval) : bool :=
  match v with
  | VInt z => (int_digits z <=? max_str_digits)%nat
  | VList xs =>
      (fix all (xs : list pyval) : bool :=
         match xs with
         | [] => true
         | x :: r => ints_fit x && all r
         end) xs
  | VDict kvs =>
      (fix all (kvs : list (string * pyval)) : bool :=
         match kvs with
         | [] => true
         | (_, x) :: r => ints_fit x && all r
         end) kvs
  | _ => true
  end.

(** [json.dumps] can write the value. *)
Definition serializable (v : pyval) : bool :=
  match unserializable v with
  | None => true
  | Some _ => false
  end.

(** The providers that [main] picks from the command line. *)
Definition source_a (environ : string -> option string)
    (argv : list string) : string :=
  if (2 <? List.length argv)%nat then nth 2 argv "" else DEFAULT_RPC_A environ.

Definition source_b (environ : string -> option string)
    (argv : list string) : string :=
  if (3 <? List.length argv)%nat then nth 3 argv "" else DEFAULT_RPC_B environ.

(** The test [main] makes on the hash. *)
Definition hash_gate (txh : string) : bool :=
  String.prefix "0x" txh && (py_len txh =? 66)%nat.

Definition is_hex_char (c : ascii) : bool :=
  let n := N_of_ascii c in
  ((48 <=? n) && (n <=? 57) || (65 <=? n) && (n <=? 70)
   || (97 <=? n) && (n <=? 102))%N.

(** [0x] and sixty-four hexadecimal characters. *)
Definition well_formed_hash (txh : string) : bool :=
  match list_ascii_of_string txh with
  | "0"%char :: "x"%char :: r =>
      (List.length r =? 64)%nat && forallb is_hex_char r
  | _ => false
  end.

(** A digit or a letter from [a] to [f]. *)
Definition is_lower_hex (c : ascii) : bool :=
  let n := N_of_ascii c in
  ((48 <=? n) && (n <=? 57) || (97 <=? n) && (n <=? 102))%N.

(** [0x] and sixty-four hexadecimal characters, none of them a capital. *)
Definition lowercase_hash (txh : string) : bool :=
  match list_ascii_of_string txh with
  | "0"%char :: "x"%char :: r =>
      (List.length r =? 64)%nat && forallb is_lower_hex r
  | _ => false
  end.

(** The digest of serialised text. *)
Definition root_of (s : string) : string :=
  ("0x" ++ bytes_hex (Keccak.keccak256 (encode s)))%string.

(** Two lists compared item by item, and a conversion applied to every
    item, with the names the nested recursions of [py_eq] and [json_dumps]
    do not have. *)
Fixpoint all2 {A : Type} (f : A -> A -> bool) (xs ys : list A) : bool :=
  match xs, ys with
  | [], [] => true
  | x :: xs', y :: ys' => f x y && all2 f xs' ys'
  | _, _ => false
  end.

Fixpoint mapM {A B : Type} (f : A -> result B) (xs : list A)
  : result (list B) :=
  match xs with
  | [] => Ok []
  | x :: r => b <- f x ;; bs <- mapM f r ;; Ok (b :: bs)
  end.

Definition entry_eq (b : dict) (kv : string * pyval) : bool :=
  match get (fst kv) b with
  | Some v' => py_eq (snd kv) v'
  | None => false
  end.

Definition render (kv : string * pyval) : string * result string :=
  (fst kv, json_dumps (snd kv)).

(** ** Records used as examples *)

Definition hash_as_bytes : list byte :=
  [ xab; x0c; xca; x18; x25; x30; xbb; x1d; x6d; x13; x2c; xde; xd6; x23;
    x7b; x2e; xd9; x1e; x3f; x72; x1f; xcb; x19; x71; x17; x44; x94; xd6;
    x49; x3c; x9d; x5c ].

Definition hash_as_text : string :=
  "0xab0cca182530bb1d6d132cded6237b2ed91e3f721fcb1971174494d6493c9d5c".

(** A provider's answer and the canonical record it gives, by nonce and
    access list. *)
Definition example_raw (nonce accessList : pyval) : dict :=
  [ ("hash", VStr hash_as_text);
    ("nonce", nonce);
    ("from", VStr "0x00000000219ab540356cbb839cbe05303d7705fa");
    ("to", VStr "0xc02aaa39b223fe8d0a0e5c4f27ead9083c756cc2");
    ("value", VInt 1000000000000000000);
    ("gas", VInt 21000);
    ("gasPrice", VInt 30000000000);
    ("input", VStr "0x");
    ("accessList", accessList);
    ("chainId", VInt 1);
    ("v", VInt 27);
    ("r", VInt 5);
    ("s", VInt 7);
    ("blockNumber", VInt 17000000);
    ("transactionIndex", VInt 3) ].

Definition example_record (nonce accessList : pyval) : dict :=
  [ ("hash", VStr hash_as_text);
    ("nonce", nonce);
    ("from", VStr "0x00000000219ab540356cbb839cbe05303d7705fa");
    ("to", VStr "0xc02aaa39b223fe8d0a0e5c4f27ead9083c756cc2");
    ("value", VInt 1000000000000000000);
    ("gas", VInt 21000);
    ("gasPrice", VInt 30000000000);
    ("maxFeePerGas", VNone);
    ("maxPriorityFeePerGas", VNone);
    ("type", VNone);
    ("input", VStr "0x");
    ("accessList", accessList);
    ("chainId", VInt 1);
    ("v", VInt 27);
    ("r", VInt 5);
    ("s", VInt 7);
    ("blockNumber", VInt 17000000);
    ("transactionIndex", VInt 3) ].

(** A node that has no transaction, one that has the example transaction
    with nonce 5, and one that rejects every hash it is asked for. *)
Definition example_world (url : string) : provider :=
  {| is_connected := true;
     chain_id := Ok 1%Z;
     get_transaction :=
       fun _ =>
         if String.eqb url "A" then Ok None
         else Ok (Some (example_raw (VInt 5) VNone)) |}.

Definition rejecting_world (url : string) : provider :=
  {| is_connected := true;
     chain_id := Ok 1%Z;
     get_transaction := fun _ => Err (SourceError "invalid hash") |}.

(** Two nodes on different chains. *)
Definition split_world (url : string) : provider :=
  {| is_connected := true;
     chain_id := if String.eqb url "A" then Ok 1%Z else Ok 10%Z;
     get_transaction := fun _ => Ok (Some (example_raw (VInt 5) VNone)) |}.

Definition no_environ (name : string) : option string := None.

(** Sixty-six characters after the prefix rule, none of them hexadecimal
    past [0x]. *)
Definition not_hex_hash : string :=
  "0xgggggggggggggggggggggggggggggggggggggggggggggggggggggggggggggggg".

(** ** Reading hexadecimal text back *)

(** The value of a hexadecimal digit, and the byte two digits stand for. *)
Definition unhex_digit (c : ascii) : N :=
  let n := N_of_ascii c in
  if ((48 <=? n) && (n <=? 57))%N then (n - 48)%N
  else if ((97 <=? n) && (n <=? 102))%N then (n - 87)%N
  else 0%N.

Definition byte_unhex (c1 c2 : ascii) : option byte :=
  Byte.of_N (16 * unhex_digit c1 + unhex_digit c2).

(** ** Printable text *)

(** A character between the space and the tilde, and text made of such
    characters only. *)
Definition printable (c : ascii) : bool :=
  let n := N_of_ascii c in ((32 <=? n) && (n <=? 126))%N.

Definition ascii_text (s : string) : bool :=
  forallb printable (list_ascii_of_string s).

(** ** The trace of main, by parts *)

(** What connect leaves in the trace for a provider that answers. *)
Definition probe_events (url : string) : list event :=
  (if contains " " url then [EvPrint (MsgWhitespaceUrl url)] else [])
  ++ [EvIsConnected url].

(** The warnings main prints about its two URLs. *)
Definition warning_events (rpcA rpcB : string) : list event :=
  (if String.eqb rpcA rpcB then [EvPrint MsgIdenticalRpc] else [])
  ++ (if contains "your_api_key" rpcA || contains "your_api_key" rpcB
      then [EvPrint MsgPlaceholder] else []).

(** The trace of a run of main up to the comparison, when both providers
    answer and say they are on chain [chain]. *)
Definition preflight_events (rpcA rpcB txh : string) (chain : Z)
  : list event :=
  warning_events rpcA rpcB ++ probe_events rpcA ++ probe_events rpcB
  ++ [ EvChainId rpcA; EvChainId rpcB;
       EvPrint (MsgRpcA rpcA chain); EvPrint (MsgRpcB rpcB chain);
       EvPrint (MsgFetching txh);
       EvClock;
       EvGetTransaction rpcA txh; EvGetTransaction rpcB txh;
       EvClock ].

(** The end of main: what it does with the answer of compare_txs. *)
Definition report (r : bool * dict) : M unit :=
  let '(ok, info) := r in
  (if ok then
     print MsgMatch ;;;
     root <-- lift (subscript info "root") ;;
     print (MsgRoot root)
   else
     print MsgDiffer ;;;
     match unserializable (VDict info) with
     | Some u => raise (dumps_error u)
     | None => print (MsgInfo info)
     end) ;;;
  print MsgElapsed.

(** Two nodes that return the example transaction, with the same nonce or
    with nonce 5 and nonce 6; and two that return it with its [input] as
    bytes. *)
Definition agreeing_world (url : string) : provider :=
  {| is_connected := true;
     chain_id := Ok 1%Z;
     get_transaction := fun _ => Ok (Some (example_raw (VInt 5) VNone)) |}.

Definition differing_world (url : string) : provider :=
  {| is_connected := true;
     chain_id := Ok 1%Z;
     get_transaction :=
       fun _ =>
         if String.eqb url "A" then Ok (Some (example_raw (VInt 5) VNone))
         else Ok (Some (example_raw (VInt 6) VNone)) |}.

Definition bytes_world (url : string) : provider :=
  {| is_connected := true;
     chain_id := Ok 1%Z;
     get_transaction :=
       fun _ =>
         Ok (Some (dict_set "input" (VBytes [xa9; x05; x9c; xbb])
                     (example_raw (VInt 5) VNone))) |}.

(** A node that cannot be reached, and one whose chain id query fails. *)
Definition unreachable_world (url : string) : provider :=
  {| is_connected := false;
     chain_id := Ok 1%Z;
     get_transaction := fun _ => Ok None |}.

Definition failing_chain_world (url : string) : provider :=
  {| is_connected := true;
     chain_id := Err (SourceError "timeout");
     get_transaction := fun _ => Ok None |}.

Definition example_argv : list string :=
  [ "tx_attest.py"; hash_as_text; "A"; "B" ].

(** The part of main that follows the two fetches, on the records they
    returned. *)
Definition after_fetch (a b : dict) : M unit :=
  r <-- compare_txs a b ;; report r.

Section Cases.
Variable world : string -> provider.
Variable environ : string -> option string.

(** The ways a run of main can go, by the tests it makes in turn. *)
Inductive main_case (argv : list string) : Type :=
| NoArgument (H : List.length argv < 2)
| BadHash (Hlen : 2 <= List.length argv)
    (Hgate : hash_gate (nth 1 argv "") = false)
| FirstUnreachable (Hlen : 2 <= List.length argv)
    (Hgate : hash_gate (nth 1 argv "") = true)
    (HcA : is_connected (world (source_a environ argv)) = false)
| SecondUnreachable (Hlen : 2 <= List.length argv)
    (Hgate : hash_gate (nth 1 argv "") = true)
    (HcA : is_connected (world (source_a environ argv)) = true)
    (HcB : is_connected (world (source_b environ argv)) = false)
| FirstChainRaises (e : exn) (Hlen : 2 <= List.length argv)
    (Hgate : hash_gate (nth 1 argv "") = true)
    (HcA : is_connected (world (source_a environ argv)) = true)
    (HcB : is_connected (world (source_b environ argv)) = true)
    (HiA : chain_id (world (source_a environ argv)) = Err e)
| SecondChainRaises (chainA : Z) (e : exn) (Hlen : 2 <= List.length argv)
    (Hgate : hash_gate (nth 1 argv "") = true)
    (HcA : is_connected (world (source_a environ argv)) = true)
    (HcB : is_connected (world (source_b environ argv)) = true)
    (HiA : chain_id (world (source_a environ argv)) = Ok chainA)
    (HiB : chain_id (world (source_b environ argv)) = Err e)
| ChainsDiffer (chainA chainB : Z) (Hlen : 2 <= List.length argv)
    (Hgate : hash_gate (nth 1 argv "") = true)
    (HcA : is_connected (world (source_a environ argv)) = true)
    (HcB : is_connected (world (source_b environ argv)) = true)
    (HiA : chain_id (world (source_a environ argv)) = Ok chainA)
    (HiB : chain_id (world (source_b environ argv)) = Ok chainB)
    (Hne : chainA <> chainB)
| Compared (chain : Z) (Hlen : 2 <= List.length argv)
    (Hgate : hash_gate (nth 1 argv "") = true)
    (HcA : is_connected (world (source_a environ argv)) = true)
    (HcB : is_connected (world (source_b environ argv)) = true)
    (HiA : chain_id (world (source_a environ argv)) = Ok chain)
    (HiB : chain_id (world (source_b environ argv)) = Ok chain).

End Cases.

(** * Facts *)

(** The empty input and ["abc"], as published for Keccak-256. *)
Example keccak256_empty :
  bytes_hex (Keccak.keccak256 []) =
  "c5d2460186f7233c927e7db2dcc703c0e500b653ca82273b7bfad8045d85a470".
Proof. vm_compute. reflexivity. Qed.

(** One byte short of a block, and a whole block. *)
Example keccak256_padding :
  bytes_hex (Keccak.keccak256 (repeat "x"%byte 135)) =
  "16570bdb055e663ea1cb57ac6f09194f4bc7b7070847971fc0b86710366dc34f"
  /\ bytes_hex (Keccak.keccak256 (repeat "x"%byte 136)) =
     "50da8ef3747b7a7f01d08563aa11c72a2a668563fb928adc6e8d2a1ab4e36096".
Proof. split; vm_compute; reflexivity. Qed.

Example keccak256_abc :
  bytes_hex (Keccak.keccak256 (encode "abc")) =
  "4e03657aea45a94fc7d47ba826c8d667c0d1e6e33a64a036ec44f58fa12d6c45".
Proof. vm_compute. reflexivity. Qed.

(** Split a conjunction into its parts, and nothing else. *)
Ltac splits := repeat match goal with |- _ /\ _ => split end.

(** ** Induction on values *)

Section PyvalInd.
Variable P : pyval -> Prop.
Hypothesis HNone : P VNone.
Hypothesis HBool : forall b, P (VBool b).
Hypothesis HInt : forall z, P (VInt z).
Hypothesis HStr : forall s, P (VStr s).
Hypothesis HBytes : forall bs, P (VBytes bs).
Hypothesis HList : forall xs, Forall P xs -> P (VList xs).
Hypothesis HDict :
  forall kvs, Forall (fun kv => P (snd kv)) kvs -> P (VDict kvs).

Fixpoint pyval_ind (v : pyval) : P v :=
  match v with
  | VNone => HNone
  | VBool b => HBool b
  | VInt z => HInt z
  | VStr s => HStr s
  | VBytes bs => HBytes bs
  | VList xs =>
      HList xs
        ((fix all (xs : list pyval) : Forall P xs :=
            match xs with
            | [] => Forall_nil _
            | x :: r => Forall_cons _ (pyval_ind x) (all r)
            end) xs)
  | VDict kvs =>
      HDict kvs
        ((fix all (kvs : list (string * pyval))
            : Forall (fun kv => P (snd kv)) kvs :=
            match kvs with
            | [] => Forall_nil _
            | kv :: r => Forall_cons _ (pyval_ind (snd kv)) (all r)
            end) kvs)
  end.
End PyvalInd.

(** ** Dictionaries *)

Section AssocFacts.
Context {V : Type}.
Implicit Types (d : list (string * V)) (k : string).

Lemma get_In k d v : get k d = Some v -> In (k, v) d.
Proof.
  induction d as [|[k' v'] r IH]; simpl; [discriminate|].
  destruct (String.eqb_spec k k') as [->|_].
  - intros [= ->]. now left.
  - intros H. right. auto.
Qed.

Lemma get_None k d : get k d = None <-> ~ In k (keys d).
Proof.
  induction d as [|[k' v'] r IH]; simpl.
  - split; auto.
  - destruct (String.eqb_spec k k') as [->|Hne].
    + split; [discriminate|]. intros H. exfalso. apply H. now left.
    + rewrite IH. split.
      * intros H [E|HI]; [now apply Hne|now apply H].
      * intros H HI. apply H. now right.
Qed.

Lemma In_get k d v :
  NoDup (keys d) -> In (k, v) d -> get k d = Some v.
Proof.
  induction d as [|[k' v'] r IH]; simpl; [easy|].
  intros Hnd [E|HI].
  - injection E as -> ->. now rewrite String.eqb_refl.
  - inversion Hnd as [|? ? Hnin Hnd']; subst.
    destruct (String.eqb_spec k k') as [->|_].
    + exfalso. apply Hnin. change k' with (fst (k', v)).
      now apply in_map.
    + auto.
Qed.

Lemma has_key_In k d : has_key k d = true <-> In k (keys d).
Proof.
  unfold has_key. destruct (get k d) eqn:E.
  - split; [intros _|easy]. apply get_In in E.
    change k with (fst (k, v)). now apply in_map.
  - split; [discriminate|]. intros H. now apply get_None in E.
Qed.

Lemma dict_set_fresh k (v : V) d :
  ~ In k (keys d) -> dict_set k v d = d ++ [(k, v)].
Proof.
  induction d as [|[k' v'] r IH]; simpl; [easy|].
  intros H. destruct (String.eqb_spec k k') as [->|_].
  - exfalso. apply H. now left.
  - f_equal. apply IH. intros HI. apply H. now right.
Qed.
End AssocFacts.

(** ** The order of strings *)

Lemma str_lt_trans a b c : str_lt a b -> str_lt b c -> str_lt a c.
Proof.
  unfold str_lt. intros H1 H2.
  apply OrderedTypeEx.String_as_OT.cmp_lt in H1, H2.
  apply OrderedTypeEx.String_as_OT.cmp_lt.
  eapply OrderedTypeEx.String_as_OT.lt_trans; eauto.
Qed.

Lemma str_lt_irrefl a : ~ str_lt a a.
Proof.
  unfold str_lt. intros H.
  assert (E : String.compare a a = Eq)
    by now apply OrderedTypeEx.String_as_OT.cmp_eq.
  congruence.
Qed.

Lemma leb_lt_or_eq a b : String.leb a b = true <-> str_lt a b \/ a = b.
Proof.
  unfold String.leb, str_lt.
  destruct (String.compare a b) eqn:E.
  - apply String.compare_eq_iff in E. tauto.
  - tauto.
  - split; [discriminate|]. intros [H| ->]; [discriminate|].
    assert (E' : String.compare b b = Eq)
      by now apply OrderedTypeEx.String_as_OT.cmp_eq.
    congruence.
Qed.

Lemma leb_false_lt a b : String.leb a b = false -> str_lt b a.
Proof.
  unfold String.leb, str_lt. rewrite (String.compare_antisym a b).
  destruct (String.compare b a); simpl; congruence.
Qed.

(** ** Sorting *)

Section SortFacts.
Context {A : Type} (key : A -> string).
Lemma insert_on_perm x l : Permutation (insert_on key x l) (x :: l).
Proof.
  induction l as [|y r IH]; simpl; [reflexivity|].
  destruct (String.leb (key x) (key y)); [reflexivity|].
  rewrite IH. apply perm_swap.
Qed.

Lemma sort_on_perm l : Permutation (sort_on key l) l.
Proof.
  induction l as [|x r IH]; simpl; [reflexivity|].
  rewrite insert_on_perm. now constructor.
Qed.

Lemma insert_on_sorted x l :
  ~ In (key x) (map key l) ->
  StronglySorted (lt_on key) l ->
  StronglySorted (lt_on key) (insert_on key x l).
Proof.
  induction l as [|y r IH]; simpl; intros Hnin Hs.
  - repeat constructor.
  - inversion Hs as [|? ? Hr Hall]; subst.
    destruct (String.leb (key x) (key y)) eqn:E.
    + assert (Hxy : str_lt (key x) (key y)).
      { apply leb_lt_or_eq in E as [H|H]; [exact H|].
        exfalso. apply Hnin. now left. }
      constructor; [exact Hs|]. constructor; [exact Hxy|].
      eapply Forall_impl; [|exact Hall]. unfold lt_on. intros z Hz.
      eapply str_lt_trans; eauto.
    + apply leb_false_lt in E. constructor.
      * apply IH; [|exact Hr]. intros HI. apply Hnin. now right.
      * eapply Permutation_Forall.
        { symmetry. apply insert_on_perm. }
        now constructor.
Qed.

Lemma sort_on_sorted l :
  NoDup (map key l) -> StronglySorted (lt_on key) (sort_on key l).
Proof.
  induction l as [|x r IH]; simpl; intros Hnd; [constructor|].
  inversion Hnd as [|? ? Hnin Hnd']; subst.
  apply insert_on_sorted; [|now apply IH].
  intros HI. apply Hnin.
  eapply Permutation_in; [|exact HI].
  apply Permutation_map, sort_on_perm.
Qed.

(** A list is sorted in one way only. *)
Lemma sorted_unique l l' :
  StronglySorted (lt_on key) l -> StronglySorted (lt_on key) l' ->
  Permutation l l' -> l = l'.
Proof.
  revert l'. induction l as [|x r IH]; intros l' Hs Hs' Hp.
  - apply Permutation_nil in Hp. now subst.
  - destruct l' as [|y r'].
    { symmetry in Hp. now apply Permutation_nil in Hp. }
    inversion Hs as [|? ? Hr Hall]; subst.
    inversion Hs' as [|? ? Hr' Hall']; subst.
    assert (Exy : x = y).
    { assert (Hx : In x (y :: r'))
        by (eapply Permutation_in; [exact Hp|now left]).
      assert (Hy : In y (x :: r))
        by (eapply Permutation_in; [symmetry; exact Hp|now left]).
      destruct Hx as [->|Hx]; [reflexivity|].
      destruct Hy as [->|Hy]; [reflexivity|].
      rewrite Forall_forall in Hall, Hall'.
      exfalso. apply (str_lt_irrefl (key x)).
      eapply str_lt_trans; [apply Hall, Hy|apply Hall', Hx]. }
    subst y. f_equal. apply IH; auto.
    now apply Permutation_cons_inv in Hp.
Qed.

Lemma sort_on_perm_eq l l' :
  NoDup (map key l) -> Permutation l l' ->
  sort_on key l = sort_on key l'.
Proof.
  intros Hnd Hp. apply sorted_unique.
  - now apply sort_on_sorted.
  - apply sort_on_sorted.
    eapply Permutation_NoDup; [|exact Hnd]. now apply Permutation_map.
  - rewrite !sort_on_perm. exact Hp.
Qed.
End SortFacts.

Lemma sorted_union_In a b k :
  In k (sorted_union a b) <-> In k a \/ In k b.
Proof.
  unfold sorted_union. rewrite <- in_app_iff.
  rewrite <- (nodup_In string_dec (a ++ b) k).
  split; apply Permutation_in; [|symmetry]; apply sort_on_perm.
Qed.

Lemma sorted_union_sorted a b : StronglySorted str_lt (sorted_union a b).
Proof.
  unfold sorted_union.
  apply (sort_on_sorted (fun k : string => k)).
  rewrite map_id. apply NoDup_nodup.
Qed.

Lemma sorted_NoDup l : StronglySorted str_lt l -> NoDup l.
Proof.
  induction 1 as [|x r Hr IH Hall]; constructor; [|exact IH].
  intros HI. rewrite Forall_forall in Hall.
  exact (str_lt_irrefl x (Hall x HI)).
Qed.

(** ** Fields of canonical_tx *)

Lemma int_field_spec tx k :
  int_field tx k =
  match get k tx with
  | None => Ok (VInt 0)
  | Some v => z <- py_int v ;; Ok (VInt z)
  end.
Proof.
  unfold int_field, get_default. now destruct (get k tx).
Qed.

Lemma opt_int_field_spec tx k :
  opt_int_field tx k =
  match get k tx with
  | None | Some VNone => Ok VNone
  | Some v => z <- py_int v ;; Ok (VInt z)
  end.
Proof.
  unfold opt_int_field, int_field, py_get, get_default.
  destruct (get k tx) as [[]|]; reflexivity.
Qed.

Lemma int_field_like tx k :
  int_like (get_default tx k (VInt 0)) = true ->
  exists z, py_int (get_default tx k (VInt 0)) = Ok z
            /\ int_field tx k = Ok (VInt z).
Proof.
  unfold int_like, int_field.
  destruct (py_int (get_default tx k (VInt 0))) as [z|e]; [|discriminate].
  intros _. now exists z.
Qed.

Lemma int_field_unlike tx k :
  int_like (get_default tx k (VInt 0)) = false ->
  exists e, int_field tx k = Err e.
Proof.
  unfold int_like, int_field.
  destruct (py_int (get_default tx k (VInt 0))) as [z|e]; [discriminate|].
  intros _. now exists e.
Qed.

Lemma opt_int_field_like tx k :
  is_none (py_get tx k) || int_like (get_default tx k (VInt 0)) = true ->
  exists v, opt_int_field tx k = Ok v.
Proof.
  unfold opt_int_field. destruct (is_none (py_get tx k)); simpl.
  - intros _. now exists VNone.
  - intros H. destruct (int_field_like tx k H) as (z & _ & E).
    now exists (VInt z).
Qed.

Lemma opt_int_field_unlike tx k :
  is_none (py_get tx k) || int_like (get_default tx k (VInt 0)) = false ->
  exists e, opt_int_field tx k = Err e.
Proof.
  unfold opt_int_field. destruct (is_none (py_get tx k)); simpl.
  - discriminate.
  - apply int_field_unlike.
Qed.

Lemma int_field_ok_like tx k v :
  int_field tx k = Ok v -> int_like (get_default tx k (VInt 0)) = true.
Proof.
  unfold int_field, int_like.
  now destruct (py_int (get_default tx k (VInt 0))).
Qed.

Lemma opt_int_field_ok_like tx k v :
  opt_int_field tx k = Ok v ->
  is_none (py_get tx k) || int_like (get_default tx k (VInt 0)) = true.
Proof.
  unfold opt_int_field. destruct (is_none (py_get tx k)); simpl; [easy|].
  apply int_field_ok_like.
Qed.

Ltac step_field H :=
  match type of H with
  | rbind ?r _ = Ok _ =>
      let E := fresh "E" in
      destruct r eqn:E; cbn [rbind] in H; [|discriminate H]
  end.

Lemma canonical_tx_inv tx c : canonical_tx tx = Ok c -> fields_of tx c.
Proof.
  unfold canonical_tx. intros H.
  repeat step_field H.
  injection H as <-.
  constructor; try assumption; reflexivity.
Qed.

Lemma fields_get tx c k :
  fields_of tx c -> In k canonical_fields -> get k c = Some (py_get c k).
Proof.
  intros F Hk. pose proof (fo_keys _ _ F) as HK.
  assert (HI : In k (keys c)) by now rewrite HK.
  apply has_key_In in HI. unfold has_key in HI.
  unfold py_get, get_default. now destruct (get k c).
Qed.

Lemma canonical_tx_convertible tx :
  (exists c, canonical_tx tx = Ok c) <-> convertible tx = true.
Proof.
  split.
  - intros [c H]. apply canonical_tx_inv in H. destruct H.
    unfold convertible. cbn [forallb required_int_fields optional_int_fields].
    repeat match goal with
      | H : int_field _ _ = Ok _ |- _ => apply int_field_ok_like in H
      | H : opt_int_field _ _ = Ok _ |- _ => apply opt_int_field_ok_like in H
      end.
    repeat match goal with
      | H : ?b = true |- context [?b] => rewrite H; clear H
      end.
    reflexivity.
  - unfold convertible.
    cbn [forallb required_int_fields optional_int_fields].
    rewrite !andb_true_iff.
    intros [(H1 & H2 & H3 & H4 & H5 & H6 & _)
            (O1 & O2 & O3 & O4 & O5 & O6 & O7 & _)].
    unfold canonical_tx.
    destruct (int_field_like _ _ H1) as (? & _ & ->).
    destruct (int_field_like _ _ H2) as (? & _ & ->).
    destruct (int_field_like _ _ H3) as (? & _ & ->).
    destruct (int_field_like _ _ H4) as (? & _ & ->).
    destruct (int_field_like _ _ H5) as (? & _ & ->).
    destruct (int_field_like _ _ H6) as (? & _ & ->).
    destruct (opt_int_field_like _ _ O1) as (? & ->).
    destruct (opt_int_field_like _ _ O2) as (? & ->).
    destruct (opt_int_field_like _ _ O3) as (? & ->).
    destruct (opt_int_field_like _ _ O4) as (? & ->).
    destruct (opt_int_field_like _ _ O5) as (? & ->).
    destruct (opt_int_field_like _ _ O6) as (? & ->).
    destruct (opt_int_field_like _ _ O7) as (? & ->).
    cbn [rbind]. eexists. reflexivity.
Qed.

Lemma canonical_tx_result tx :
  (exists c, canonical_tx tx = Ok c) \/ (exists e, canonical_tx tx = Err e).
Proof.
  destruct (canonical_tx tx) as [c|e]; [left|right]; eauto.
Qed.

(** ** The hash field *)

Lemma hex_digit_not_x n : hex_digit n <> "x"%char.
Proof.
  unfold hex_digit.
  assert (H : forall k, nth k (list_ascii_of_string "0123456789abcdef")
                          "0"%char <> "x"%char).
  { intros k. do 17 (destruct k as [|k]; [discriminate|]).
    simpl. now destruct k. }
  apply H.
Qed.

Lemma bytes_hex_no_prefix bs : String.prefix "0x" (bytes_hex bs) = false.
Proof.
  destruct bs as [|b r]; [reflexivity|].
  cbn [bytes_hex byte_hex String.append].
  cbn [String.prefix].
  destruct (ascii_dec "0" (hex_digit (Byte.to_N b / 16))); [|reflexivity].
  destruct (ascii_dec "x" (hex_digit (Byte.to_N b mod 16))) as [E|];
    [|reflexivity].
  symmetry in E. now apply hex_digit_not_x in E.
Qed.

Lemma hash_field_bytes tx bs :
  py_get tx "hash" = VBytes bs -> hash_field tx = VStr (bytes_hex bs).
Proof. unfold hash_field. now intros ->. Qed.

(** C1. A hash that arrives as bytes is rendered by [bytes.hex()], in
    lowercase but without the [0x] prefix (no rendering of bytes starts with
    [0x]); so the same hash given as bytes and given as [0x]-prefixed text
    canonicalises to two different [hash] values. *)
Theorem hash_bytes_lack_prefix :
  (forall bs, String.prefix "0x" (bytes_hex bs) = false)
  /\ (exists ca cb,
        canonical_tx [("hash", VBytes hash_as_bytes)] = Ok ca
        /\ canonical_tx [("hash", VStr hash_as_text)] = Ok cb
        /\ get "hash" ca
           = Some (VStr "ab0cca182530bb1d6d132cded6237b2ed91e3f721fcb1971174494d6493c9d5c")
        /\ get "hash" cb = Some (VStr hash_as_text)
        /\ py_eq (py_get ca "hash") (py_get cb "hash") = false
        /\ dict_eq ca cb = false).
Proof.
  split; [exact bytes_hex_no_prefix|].
  do 2 eexists. splits; vm_compute; reflexivity.
Qed.

(** ** [int] on decimal text *)

Lemma lstrip_id cs :
  Forall (fun c => is_space c = false) cs -> lstrip cs = cs.
Proof.
  destruct 1 as [|c r Hc _]; simpl; [reflexivity|]. now rewrite Hc.
Qed.

Lemma lstrip_blanks l m : blanks l = true -> lstrip (l ++ m) = lstrip m.
Proof.
  unfold blanks. induction l as [|c r IH]; cbn; [reflexivity|].
  intros H. apply andb_true_iff in H as [Hc Hr]. rewrite Hc. now apply IH.
Qed.

Lemma blanks_rev l : blanks l = true -> blanks (rev l) = true.
Proof.
  unfold blanks. rewrite !forallb_forall. intros H c Hc.
  apply H. now apply in_rev.
Qed.

(** Blanks around text that holds none are what [strip] removes. *)
Lemma strip_blanks lead body trail :
  blanks lead = true -> blanks trail = true ->
  Forall (fun c => is_space c = false) body ->
  strip (lead ++ body ++ trail) = body.
Proof.
  intros Hl Ht Hb. unfold strip. rewrite (lstrip_blanks lead _ Hl).
  destruct body as [|c q].
  - cbn [app]. rewrite <- (app_nil_r trail), (lstrip_blanks trail [] Ht).
    reflexivity.
  - assert (E : lstrip ((c :: q) ++ trail) = (c :: q) ++ trail).
    { cbn. inversion Hb as [|? ? Hc _]; subst. now rewrite Hc. }
    rewrite E, rev_app_distr, (lstrip_blanks _ _ (blanks_rev _ Ht)).
    rewrite lstrip_id by now apply Forall_rev.
    apply rev_involutive.
Qed.

Lemma utf8_decode_ascii bs :
  Forall (fun b => (b < 128)%N) bs -> utf8_decode bs = bs.
Proof.
  induction 1 as [|b r Hb _ IH]; [reflexivity|].
  cbn [utf8_decode]. apply N.ltb_lt in Hb. now rewrite Hb, IH.
Qed.

Lemma forallb_of_map {A B : Type} (f : B -> bool) (g : A -> B) l :
  forallb f (map g l) = forallb (fun x => f (g x)) l.
Proof. induction l as [|x r IH]; cbn; [reflexivity|]. now rewrite IH. Qed.

(** ASCII text is read as it is. *)
Lemma transform_ascii cs :
  Forall (fun c => (N_of_ascii c < 128)%N) cs ->
  transform_decimal_and_space (string_of_list_ascii cs)
  = string_of_list_ascii cs.
Proof.
  intros H. unfold transform_decimal_and_space, code_points.
  rewrite list_ascii_of_string_of_list_ascii.
  rewrite utf8_decode_ascii by (apply Forall_map; exact H).
  rewrite forallb_of_map.
  assert (E : forallb (fun c => (N_of_ascii c <? 128)%N) cs = true).
  { apply forallb_forall. rewrite Forall_forall in H.
    intros c Hc. apply N.ltb_lt. now apply H. }
  now rewrite E.
Qed.

Lemma digit_char_facts c :
  digit_char c = true ->
  is_space c = false /\ Ascii.eqb c "_" = false /\ Ascii.eqb c "-" = false
  /\ Ascii.eqb c "+" = false /\ (N_of_ascii c < 128)%N.
Proof.
  intros H. splits.
  - unfold digit_char, is_space in *.
    apply andb_true_iff in H as [H1 H2].
    apply N.leb_le in H1. apply N.leb_le in H2.
    apply orb_false_iff. split.
    + apply andb_false_iff. right. apply N.leb_gt. lia.
    + apply N.eqb_neq. lia.
  - destruct (Ascii.eqb_spec c "_") as [->|]; [discriminate H|reflexivity].
  - destruct (Ascii.eqb_spec c "-") as [->|]; [discriminate H|reflexivity].
  - destruct (Ascii.eqb_spec c "+") as [->|]; [discriminate H|reflexivity].
  - unfold digit_char in H. apply andb_true_iff in H as [_ H].
    apply N.leb_le in H. lia.
Qed.

Lemma numeral_chars_digits d :
  Forall (fun c => digit_char c = true) (numeral_chars d).
Proof.
  unfold numeral_chars. induction d; simpl; constructor; auto.
Qed.

Lemma numeral_chars_nonempty d : d <> Decimal.Nil -> numeral_chars d <> [].
Proof. destruct d; intros H; try discriminate. now elim H. Qed.

Lemma digits_of_uint d prev :
  d <> Decimal.Nil \/ prev = true -> digits (numeral_chars d) prev = Some d.
Proof.
  unfold numeral_chars. revert prev.
  induction d; intros prev H; simpl;
    try (rewrite IHd by (now right); reflexivity).
  destruct H as [H| ->]; [now elim H|reflexivity].
Qed.

Lemma underscored_cons c c' r' marks :
  underscored (c :: c' :: r') marks
  = match marks with
    | true :: m => c :: "_"%char :: underscored (c' :: r') m
    | false :: m => c :: underscored (c' :: r') m
    | [] => c :: underscored (c' :: r') []
    end.
Proof. destruct marks as [|[] m]; reflexivity. Qed.

Lemma underscored_head c r marks :
  exists q, underscored (c :: r) marks = c :: q.
Proof.
  destruct r as [|c' r']; [now exists []|].
  rewrite underscored_cons. destruct marks as [|[] m]; now eexists.
Qed.

Lemma underscored_no_marks cs : underscored cs [] = cs.
Proof.
  induction cs as [|c r IH]; [reflexivity|].
  destruct r as [|c' r']; [reflexivity|].
  rewrite underscored_cons. now rewrite IH.
Qed.

Lemma underscored_Forall (P : ascii -> Prop) cs marks :
  P "_"%char -> Forall P cs -> Forall P (underscored cs marks).
Proof.
  intros Hu H. revert marks.
  induction H as [|c r Hc Hr IH]; intros marks; [constructor|].
  destruct r as [|c' r']; [now repeat constructor|].
  rewrite underscored_cons.
  destruct marks as [|[] m]; repeat constructor; try assumption; apply IH.
Qed.

(** Underscores between the digits do not change what is read. *)
Lemma digits_underscored cs :
  Forall (fun c => digit_char c = true) cs -> cs <> [] ->
  forall marks prev, digits (underscored cs marks) prev = digits cs true.
Proof.
  induction 1 as [|c r Hc Hr IH]; intros Hne marks prev; [now elim Hne|].
  destruct (digit_char_facts c Hc) as (_ & Hu & _).
  destruct r as [|c' r'].
  - cbn [underscored digits]. now rewrite Hu.
  - assert (Hr' : c' :: r' <> []) by discriminate.
    rewrite underscored_cons.
    assert (D : forall q, digits (c :: q) prev
                          = DecimalString.uint_of_char c (digits q true)).
    { intros q. cbn [digits]. now rewrite Hu. }
    assert (D' : forall q, digits (c :: q) true
                           = DecimalString.uint_of_char c (digits q true)).
    { intros q. cbn [digits]. now rewrite Hu. }
    assert (U : forall q, digits ("_"%char :: q) true = digits q false)
      by reflexivity.
    destruct marks as [|[] m]; rewrite D, D', ?U, IH by exact Hr';
      reflexivity.
Qed.

(** What [int] makes of decimal text, by the number of its digits. *)
Lemma parse_decimal_text lead sg d marks trail :
  blanks lead = true -> blanks trail = true -> d <> Decimal.Nil ->
  parse_int_literal (decimal_text lead sg d marks trail)
  = if (Decimal.nb_digits d <=? max_str_digits)%nat
    then Some (signed sg (Z.of_uint d)) else None.
Proof.
  intros Hl Ht Hd. unfold parse_int_literal, decimal_text.
  rewrite list_ascii_of_string_of_list_ascii.
  pose proof (numeral_chars_digits d) as Dg.
  pose proof (numeral_chars_nonempty d Hd) as Ne.
  assert (Hu : Forall (fun c => is_space c = false)
                 (underscored (numeral_chars d) marks)).
  { apply underscored_Forall; [reflexivity|].
    eapply Forall_impl; [|exact Dg].
    intros c Hc. apply (digit_char_facts c Hc). }
  assert (Hb : Forall (fun c => is_space c = false)
                 (sign_chars sg ++ underscored (numeral_chars d) marks)).
  { apply Forall_app. split; [|exact Hu].
    destruct sg; repeat constructor. }
  rewrite (app_assoc (sign_chars sg)).
  rewrite (strip_blanks lead _ trail Hl Ht Hb).
  pose proof (digits_underscored _ Dg Ne marks false) as D.
  rewrite (digits_of_uint d true (or_intror eq_refl)) in D.
  destruct sg; cbn [sign_chars app signed].
  - destruct (numeral_chars d) as [|c r] eqn:E; [now elim Ne|].
    destruct (underscored_head c r marks) as [q Hq]. rewrite Hq in *.
    inversion Dg as [|? ? Hc _]; subst.
    destruct (digit_char_facts c Hc) as (_ & _ & Hm & Hp & _).
    rewrite Hm, Hp, D. reflexivity.
  - cbn [Ascii.eqb Bool.eqb andb]. rewrite D. reflexivity.
  - cbn [Ascii.eqb Bool.eqb andb]. rewrite D. reflexivity.
Qed.

Lemma decimal_text_ascii lead sg d marks trail :
  blanks lead = true -> blanks trail = true ->
  Forall (fun c => (N_of_ascii c < 128)%N)
    (lead ++ sign_chars sg ++ underscored (numeral_chars d) marks ++ trail).
Proof.
  assert (B : forall l, blanks l = true ->
                        Forall (fun c => (N_of_ascii c < 128)%N) l).
  { intros l Hl. apply Forall_forall. intros c Hc.
    unfold blanks in Hl. rewrite forallb_forall in Hl.
    specialize (Hl c Hc). unfold is_space in Hl.
    apply orb_true_iff in Hl as [Hl|Hl].
    - apply andb_true_iff in Hl as [_ Hl]. apply N.leb_le in Hl. lia.
    - apply N.eqb_eq in Hl. lia. }
  intros Hl Ht. repeat (apply Forall_app; split); try now apply B.
  - destruct sg; repeat constructor; cbn; lia.
  - apply underscored_Forall; [cbn; lia|].
    eapply Forall_impl; [|apply numeral_chars_digits].
    intros c Hc. apply (digit_char_facts c Hc).
Qed.

(** Decimal text, as [str] or as [bytes], is read exactly up to the limit
    on its digits and refused past it. *)
Lemma py_int_decimal_text lead sg d marks trail :
  blanks lead = true -> blanks trail = true -> d <> Decimal.Nil ->
  let text := decimal_text lead sg d marks trail in
  let answer v :=
    if (Decimal.nb_digits d <=? max_str_digits)%nat
    then Ok (signed sg (Z.of_uint d)) else Err (ValueError_int v) in
  py_int (VStr text) = answer (VStr text)
  /\ py_int (VBytes (list_byte_of_string text))
     = answer (VBytes (list_byte_of_string text)).
Proof.
  intros Hl Ht Hd text answer. subst answer.
  pose proof (parse_decimal_text lead sg d marks trail Hl Ht Hd) as P.
  fold text in P. unfold py_int.
  rewrite string_of_list_byte_of_string.
  assert (T : transform_decimal_and_space text = text).
  { apply transform_ascii. now apply decimal_text_ascii. }
  rewrite T, P.
  destruct (Decimal.nb_digits d <=? max_str_digits)%nat; split; reflexivity.
Qed.

(** The numeral [str] writes for a number is such a text. *)
Lemma decimal_as_text z :
  decimal z
  = decimal_text [] (if (z <? 0)%Z then Minus else NoSign)
      (N.to_uint (Z.abs_N z)) [] []
  /\ N.to_uint (Z.abs_N z) <> Decimal.Nil
  /\ signed (if (z <? 0)%Z then Minus else NoSign)
       (Z.of_uint (N.to_uint (Z.abs_N z))) = z.
Proof.
  assert (T : forall p,
             DecimalString.NilZero.string_of_uint (Pos.to_uint p)
             = string_of_list_ascii (numeral_chars (Pos.to_uint p))).
  { intros p. unfold numeral_chars.
    rewrite string_of_list_ascii_of_string.
    unfold DecimalString.NilZero.string_of_uint.
    destruct (Pos.to_uint p) eqn:E; try reflexivity.
    now apply DecimalPos.Unsigned.to_uint_nonnil in E. }
  assert (V : forall p, Z.of_uint (Pos.to_uint p) = Zpos p).
  { intros p. unfold Z.of_uint. now rewrite DecimalPos.Unsigned.of_to. }
  unfold decimal, decimal_text.
  destruct z as [|p|p]; cbn [Z.ltb Z.compare Z.abs_N N.to_uint Z.to_int
                               DecimalString.NilZero.string_of_int
                               sign_chars app signed].
  - splits; [reflexivity|discriminate|reflexivity].
  - rewrite underscored_no_marks, app_nil_r, T, V.
    splits; try reflexivity. apply DecimalPos.Unsigned.to_uint_nonnil.
  - rewrite underscored_no_marks, app_nil_r, T, V.
    splits; try reflexivity. apply DecimalPos.Unsigned.to_uint_nonnil.
Qed.

(** [int(str(z))] is [z] for every [z] that [str] writes. *)
Lemma py_int_decimal z :
  (int_digits z <= max_str_digits)%nat ->
  int_str z = Ok (decimal z)
  /\ py_int (VStr (decimal z)) = Ok z
  /\ py_int (VBytes (list_byte_of_string (decimal z))) = Ok z.
Proof.
  intros H. apply Nat.leb_le in H.
  destruct (decimal_as_text z) as (E & Hn & Hv).
  destruct (py_int_decimal_text [] (if (z <? 0)%Z then Minus else NoSign)
              (N.to_uint (Z.abs_N z)) [] [] eq_refl eq_refl Hn) as [Ps Pb].
  rewrite <- E in Ps, Pb. fold (int_digits z) in Ps, Pb.
  rewrite H, Hv in Ps, Pb.
  splits; [|exact Ps|exact Pb].
  unfold int_str. now rewrite H.
Qed.





(** [int] on text past ASCII: Arabic-Indic, fullwidth and mathematical
    digits and the no-break space are read in a [str]; a file separator, a
    byte order mark, a blank inside the digits and the same digits given as
    [bytes] are refused. *)
Example py_int_past_ascii :
  py_int (VStr (string_of_list_byte [xd9; xa1; xd9; xa2])) = Ok 12%Z
  /\ py_int (VStr (string_of_list_byte [xc2; xa0; x31])) = Ok 1%Z
  /\ py_int (VStr (string_of_list_byte [xef; xbc; x91])) = Ok 1%Z
  /\ py_int (VStr (string_of_list_byte
                     [xf0; x9d; x9f; x8f; xf0; x9d; x9f; x90])) = Ok 12%Z
  /\ py_int (VStr (string_of_list_byte [x31; xe2; x80; xa9])) = Ok 1%Z
  /\ int_like (VStr (string_of_list_byte [x1c; x31])) = false
  /\ int_like (VStr (string_of_list_byte [x31; xef; xbb; xbf])) = false
  /\ int_like (VStr (string_of_list_byte [x31; xc2; xa0; x5f; x32])) = false
  /\ int_like (VBytes [xd9; xa1]) = false
  /\ int_like (VBytes [x20; x31; x0b]) = true.
Proof. splits; vm_compute; reflexivity. Qed.

Lemma canonical_tx_raises tx :
  convertible tx = false -> exists e, canonical_tx tx = Err e.
Proof.
  intros H. destruct (canonical_tx_result tx) as [Hc|He]; [|exact He].
  apply canonical_tx_convertible in Hc. congruence.
Qed.

(** ** Defaults and totality of canonical_tx *)

Ltac each_field H :=
  simpl in H; repeat (destruct H as [<-|H]); [..|contradiction H].

Lemma int_field_missing tx k : get k tx = None -> int_field tx k = Ok (VInt 0).
Proof. intros H. now rewrite int_field_spec, H. Qed.

Lemma opt_int_field_missing tx k :
  get k tx = None \/ get k tx = Some VNone -> opt_int_field tx k = Ok VNone.
Proof. intros [H|H]; now rewrite opt_int_field_spec, H. Qed.

Lemma canonical_required_default tx c k :
  fields_of tx c -> In k required_int_fields -> get k tx = None ->
  get k c = Some (VInt 0).
Proof.
  intros F Hk Hm. pose proof (int_field_missing tx k Hm) as E.
  assert (Hc : In k canonical_fields).
  { each_field Hk; simpl; tauto. }
  rewrite (fields_get tx c k F Hc). f_equal.
  destruct F. each_field Hk; congruence.
Qed.

Lemma canonical_optional_default tx c k :
  fields_of tx c -> In k optional_int_fields ->
  get k tx = None \/ get k tx = Some VNone ->
  get k c = Some VNone.
Proof.
  intros F Hk Hm. pose proof (opt_int_field_missing tx k Hm) as E.
  assert (Hc : In k canonical_fields).
  { each_field Hk; simpl; tauto. }
  rewrite (fields_get tx c k F Hc). f_equal.
  destruct F. each_field Hk; congruence.
Qed.

Lemma canonical_passthrough_default tx c k :
  fields_of tx c -> In k passthrough_fields -> get k tx = None ->
  get k c = Some VNone.
Proof.
  intros F Hk Hm.
  assert (Hc : In k canonical_fields).
  { each_field Hk; simpl; tauto. }
  rewrite (fields_get tx c k F Hc). f_equal.
  assert (Hg : py_get tx k = VNone)
    by (unfold py_get, get_default; now rewrite Hm).
  destruct F. each_field Hk; try congruence.
  unfold hash_field in *. rewrite Hg in *. assumption.
Qed.

(** C6. A record without [gasPrice], or with [gasPrice] given as [None],
    gets [gasPrice = None], which is not zero (not the same value, not equal
    under [==], not written the same); a record without [nonce] gets
    [nonce = 0]. Both hold of the field's expression alone and of every
    record canonical_tx returns. *)
Theorem default_policy (tx : dict) :
  ((get "gasPrice" tx = None \/ get "gasPrice" tx = Some VNone) ->
   opt_int_field tx "gasPrice" = Ok VNone
   /\ forall c, canonical_tx tx = Ok c -> get "gasPrice" c = Some VNone)
  /\ (get "nonce" tx = None ->
      int_field tx "nonce" = Ok (VInt 0)
      /\ forall c, canonical_tx tx = Ok c -> get "nonce" c = Some (VInt 0))
  /\ VNone <> VInt 0
  /\ py_eq VNone (VInt 0) = false
  /\ json_dumps VNone <> json_dumps (VInt 0).
Proof.
  repeat split; try discriminate.
  - now apply opt_int_field_missing.
  - intros c Hc. apply canonical_tx_inv in Hc.
    apply (canonical_optional_default tx c); simpl; auto.
  - now apply int_field_missing.
  - intros c Hc. apply canonical_tx_inv in Hc.
    apply (canonical_required_default tx c); simpl; auto.
Qed.

Lemma default_policy_witness :
  exists c,
    canonical_tx [("gasPrice", VNone)] = Ok c
    /\ opt_int_field [("gasPrice", VNone)] "gasPrice" = Ok VNone
    /\ get "gasPrice" c = Some VNone
    /\ get "nonce" c = Some (VInt 0).
Proof.
  destruct (default_policy [("gasPrice", VNone)]) as (G & N & _).
  destruct (G (or_intror eq_refl)) as [G1 G2].
  destruct (N eq_refl) as [_ N2].
  eexists. split; [reflexivity|]. split; [exact G1|].
  split; [apply G2|apply N2]; reflexivity.
Defined.

(** C7, amended. canonical_tx returns exactly on the records whose integer
    fields are each missing or accepted by [int] (the optional ones may also
    be [None]); the record it returns has the eighteen fields, with [0] for a
    missing required integer, [None] for a missing or null optional integer
    and [None] for a missing pass-through field. On any other record it
    raises. *)
Theorem canonical_tx_returns_on_convertible (tx : dict) :
  (convertible tx = true ->
   exists c,
     canonical_tx tx = Ok c
     /\ keys c = canonical_fields
     /\ (forall k, In k required_int_fields -> get k tx = None ->
         get k c = Some (VInt 0))
     /\ (forall k, In k optional_int_fields ->
         get k tx = None \/ get k tx = Some VNone ->
         get k c = Some VNone)
     /\ (forall k, In k passthrough_fields -> get k tx = None ->
         get k c = Some VNone))
  /\ (convertible tx = false -> exists e, canonical_tx tx = Err e).
Proof.
  split; intros H.
  - apply canonical_tx_convertible in H as [c Hc]. exists c.
    pose proof (canonical_tx_inv tx c Hc) as F.
    repeat split.
    + exact Hc.
    + apply (fo_keys _ _ F).
    + intros k. now apply canonical_required_default.
    + intros k. now apply canonical_optional_default.
    + intros k. now apply canonical_passthrough_default.
  - now apply canonical_tx_raises.
Qed.

Lemma canonical_tx_returns_on_convertible_witness :
  exists c,
    canonical_tx [("nonce", VStr "7"); ("gasPrice", VNone)] = Ok c
    /\ keys c = canonical_fields.
Proof.
  destruct (canonical_tx_returns_on_convertible
              [("nonce", VStr "7"); ("gasPrice", VNone)]) as [H _].
  destruct (H eq_refl) as (c & Hc & Hk & _).
  exists c. split; assumption.
Defined.

(** C7 as stated fails: a record whose [nonce] is [None], or whose [value]
    is not a number, makes canonical_tx raise. *)
Lemma canonical_tx_not_total :
  canonical_tx [("nonce", VNone)] = Err (TypeError_int VNone)
  /\ canonical_tx [("value", VStr "abc")] = Err (ValueError_int (VStr "abc"))
  /\ ~ (forall tx, exists c, canonical_tx tx = Ok c).
Proof.
  repeat split; try reflexivity.
  intros H. destruct (H [("nonce", VNone)]) as [c Hc]. discriminate Hc.
Qed.


(** ** The nested recursions, unfolded *)

Lemma py_eq_list xs ys : py_eq (VList xs) (VList ys) = all2 py_eq xs ys.
Proof.
  revert ys. induction xs as [|x r IH]; intros [|y q]; try reflexivity.
  cbn [all2]. rewrite <- IH. reflexivity.
Qed.

Lemma py_eq_dict a b :
  py_eq (VDict a) (VDict b)
  = Nat.eqb (List.length a) (List.length b) && forallb (entry_eq b) a.
Proof.
  cbn [py_eq]. f_equal.
  induction a as [|[k v] r IH]; [reflexivity|].
  cbn [forallb]. rewrite <- IH. reflexivity.
Qed.

Lemma json_dumps_list xs :
  json_dumps (VList xs) =
  (items <- mapM json_dumps xs ;;
   Ok ("[" ++ String.concat "," items ++ "]")%string).
Proof.
  cbn [json_dumps]. f_equal.
  induction xs as [|x r IH]; [reflexivity|].
  cbn [mapM]. rewrite <- IH. reflexivity.
Qed.

Lemma json_dumps_dict kvs :
  json_dumps (VDict kvs) =
  (items <- sequence (sort_on fst (map render kvs)) ;;
   Ok ("{" ++ String.concat "," (map json_item items) ++ "}")%string).
Proof.
  cbn [json_dumps]. do 3 f_equal.
  induction kvs as [|[k v] r IH]; [reflexivity|].
  cbn [map]. rewrite <- IH. reflexivity.
Qed.

Lemma well_formed_list xs :
  well_formed (VList xs) = forallb well_formed xs.
Proof.
  induction xs as [|x r IH]; [reflexivity|].
  cbn [forallb]. rewrite <- IH. reflexivity.
Qed.

Lemma well_formed_dict kvs :
  well_formed (VDict kvs)
  = distinct (keys kvs) && forallb (fun kv => well_formed (snd kv)) kvs.
Proof.
  cbn [well_formed]. f_equal.
  induction kvs as [|[k v] r IH]; [reflexivity|].
  cbn [forallb]. rewrite <- IH. reflexivity.
Qed.

Lemma bool_free_list xs : bool_free (VList xs) = forallb bool_free xs.
Proof.
  induction xs as [|x r IH]; [reflexivity|].
  cbn [forallb]. rewrite <- IH. reflexivity.
Qed.

Lemma bool_free_dict kvs :
  bool_free (VDict kvs) = forallb (fun kv => bool_free (snd kv)) kvs.
Proof.
  induction kvs as [|[k v] r IH]; [reflexivity|].
  cbn [forallb]. rewrite <- IH. reflexivity.
Qed.

Lemma distinct_NoDup ks : distinct ks = true <-> NoDup ks.
Proof.
  induction ks as [|k r IH]; simpl.
  - split; [constructor|reflexivity].
  - rewrite andb_true_iff, negb_true_iff, IH. split.
    + intros [Hn Hd]. constructor; [|exact Hd].
      intros HI. assert (E : existsb (String.eqb k) r = true).
      { apply existsb_exists. exists k. split; [exact HI|].
        apply String.eqb_refl. }
      congruence.
    + intros H. inversion H as [|? ? Hn Hd]; subst. split; [|exact Hd].
      destruct (existsb (String.eqb k) r) eqn:E; [|reflexivity].
      apply existsb_exists in E as (x & Hx & Ex).
      apply String.eqb_eq in Ex. subst x. contradiction.
Qed.

Lemma bytes_eqb_eq a b : bytes_eqb a b = true -> a = b.
Proof.
  revert b. induction a as [|x r IH]; intros [|y q]; simpl;
    try discriminate; [reflexivity|].
  rewrite andb_true_iff. intros [E1 E2].
  apply Byte.byte_dec_bl in E1. apply IH in E2. congruence.
Qed.

(** ** Equal values and their serialisation *)

(** Two values that are equal under [==] and hold no [bool] are written the
    same by [json.dumps], down to the exception raised when they cannot be
    written. *)
Lemma json_dumps_py_eq x :
  forall y,
    well_formed x = true -> well_formed y = true ->
    bool_free x = true -> bool_free y = true ->
    py_eq x y = true ->
    json_dumps x = json_dumps y.
Proof.
  induction x using pyval_ind; intros y Wx Wy Bx By E;
    destruct y; try discriminate.
  - reflexivity.
  - cbn in E. apply Z.eqb_eq in E. now subst.
  - cbn in E. apply String.eqb_eq in E. now subst.
  - cbn in E. apply bytes_eqb_eq in E. now subst.
  - rewrite py_eq_list in E. rewrite well_formed_list in Wx, Wy.
    rewrite bool_free_list in Bx, By. rewrite !json_dumps_list.
    f_equal.
    rename xs0 into ys. revert ys Wy By E.
    induction H as [|x r Hx Hr IH]; intros [|y q] Wy By E;
      try discriminate; [reflexivity|].
    cbn [forallb all2] in *.
    apply andb_true_iff in Wx as [Wx1 Wx2], Wy as [Wy1 Wy2].
    apply andb_true_iff in Bx as [Bx1 Bx2], By as [By1 By2].
    apply andb_true_iff in E as [E1 E2].
    cbn [mapM]. rewrite (Hx y Wx1 Wy1 Bx1 By1 E1).
    rewrite (IH Wx2 Bx2 q Wy2 By2 E2). reflexivity.
  - rename kvs into a, kvs0 into b.
    rewrite py_eq_dict in E. rewrite well_formed_dict in Wx, Wy.
    rewrite bool_free_dict in Bx, By. rewrite !json_dumps_dict.
    apply andb_true_iff in Wx as [Da Wa], Wy as [Db Wb].
    apply andb_true_iff in E as [El Ee].
    apply distinct_NoDup in Da, Db. apply Nat.eqb_eq in El.
    rewrite forallb_forall in Wa, Wb, Bx, By, Ee.
    rewrite Forall_forall in H.
    assert (Ka : map fst (map render a) = keys a).
    { unfold keys. rewrite map_map. reflexivity. }
    do 2 f_equal. apply sort_on_perm_eq; [now rewrite Ka|].
    apply NoDup_Permutation_bis.
    + apply (NoDup_map_inv fst). now rewrite Ka.
    + rewrite !length_map. lia.
    + intros kr Hkr. apply in_map_iff in Hkr as ([k v] & <- & Hkv).
      pose proof (Ee _ Hkv) as Ekv. unfold entry_eq in Ekv. cbn in Ekv.
      destruct (get k b) as [v'|] eqn:G; [|discriminate].
      apply get_In in G.
      apply in_map_iff. exists (k, v'). split; [|exact G].
      unfold render. cbn. f_equal. symmetry.
      apply (H _ Hkv v'); cbn.
      * apply (Wa _ Hkv).
      * apply (Wb _ G).
      * apply (Bx _ Hkv).
      * apply (By _ G).
      * exact Ekv.
Qed.


Lemma py_eq_refl v : well_formed v = true -> py_eq v v = true.
Proof.
  induction v using pyval_ind; intros W; try reflexivity.
  - now destruct b.
  - apply Z.eqb_refl.
  - apply String.eqb_refl.
  - clear W. cbn. induction bs as [|x r IH]; [reflexivity|]. cbn.
    rewrite IH, andb_true_r. now destruct x.
  - rewrite py_eq_list. rewrite well_formed_list in W.
    induction H as [|x r Hx Hr IH]; [reflexivity|].
    cbn [forallb all2] in *. apply andb_true_iff in W as [W1 W2].
    now rewrite Hx, IH.
  - rewrite py_eq_dict, Nat.eqb_refl. cbn [andb].
    rewrite well_formed_dict in W. apply andb_true_iff in W as [D W].
    apply distinct_NoDup in D.
    rewrite forallb_forall in W. rewrite Forall_forall in H.
    apply forallb_forall. intros [k v] Hkv. unfold entry_eq. cbn.
    rewrite (In_get k kvs v D Hkv). apply (H _ Hkv), (W _ Hkv).
Qed.

(** A record with distinct keys is equal to itself. *)
Lemma dict_eq_refl a : well_formed (VDict a) = true -> dict_eq a a = true.
Proof. apply py_eq_refl. Qed.

(** ** Values that can be serialised *)

Lemma serializable_list xs :
  serializable (VList xs) = forallb serializable xs.
Proof.
  unfold serializable. cbn [unserializable].
  induction xs as [|x r IH]; [reflexivity|].
  cbn [forallb]. destruct (unserializable x); [reflexivity|exact IH].
Qed.

Lemma serializable_dict kvs :
  serializable (VDict kvs) = forallb (fun kv => serializable (snd kv)) kvs.
Proof.
  unfold serializable. cbn [unserializable].
  induction kvs as [|[k x] r IH]; [reflexivity|].
  cbn [forallb snd]. destruct (unserializable x); [reflexivity|exact IH].
Qed.

Lemma sequence_Ok {K A : Type} (l : list (K * result A)) :
  Forall (fun kr => exists a, snd kr = Ok a) l ->
  exists items, sequence l = Ok items.
Proof.
  induction 1 as [|[k r] l [a Ha] _ [items IH]]; cbn.
  - now exists [].
  - cbn in Ha. subst r. rewrite IH. cbn. now eexists.
Qed.

Lemma serializable_dumps v :
  serializable v = true -> exists s, json_dumps v = Ok s.
Proof.
  induction v using pyval_ind; intros S; try (eexists; reflexivity).
  - destruct b; eexists; reflexivity.
  - cbn [json_dumps]. unfold int_str.
    unfold serializable in S. cbn [unserializable] in S.
    destruct (int_digits z <=? max_str_digits)%nat;
      [now eexists|discriminate S].
  - discriminate S.
  - rewrite serializable_list in S. rewrite json_dumps_list.
    assert (M : exists items, mapM json_dumps xs = Ok items).
    { induction H as [|x r Hx Hr IH]; [now exists []|].
      cbn [forallb] in S. apply andb_true_iff in S as [S1 S2].
      destruct (Hx S1) as [s Es]. destruct (IH S2) as [items Ei].
      cbn [mapM]. rewrite Es, Ei. cbn. now eexists. }
    destruct M as [items ->]. cbn. now eexists.
  - rewrite serializable_dict in S. rewrite json_dumps_dict.
    rewrite forallb_forall in S. rewrite Forall_forall in H.
    destruct (sequence_Ok (sort_on fst (map render kvs))) as [items ->].
    + eapply Permutation_Forall; [symmetry; apply sort_on_perm|].
      apply Forall_forall. intros kr Hkr.
      apply in_map_iff in Hkr as (kv & <- & Hkv). cbn.
      apply (H _ Hkv), (S _ Hkv).
    + cbn. now eexists.
Qed.

(** ** keccak_json and compare_txs, step by step *)

Lemma digest_dumps obj s : json_dumps obj = Ok s -> digest obj = Ok (root_of s).
Proof. unfold digest. now intros ->. Qed.

Lemma keccak_json_run obj t :
  keccak_json obj t =
  match json_dumps obj with
  | Ok s => (Ret (root_of s), t ++ [EvKeccak (encode s)])
  | Err e => (Raise e, t)
  end.
Proof.
  unfold keccak_json, bind, lift. now destruct (json_dumps obj).
Qed.

Lemma compare_txs_error a b t :
  has_key "error" a || has_key "error" b = true ->
  compare_txs a b t
  = (Ret (FetchFailure (py_get a "error") (py_get b "error")), t).
Proof. unfold compare_txs. now intros ->. Qed.

Lemma compare_txs_equal a b :
  has_key "error" a = false -> has_key "error" b = false ->
  dict_eq a b = true ->
  compare_txs a b = (root <-- keccak_json (VDict a) ;; ret (Match root)).
Proof. unfold compare_txs. now intros -> -> ->. Qed.

Lemma compare_txs_differ a b :
  has_key "error" a = false -> has_key "error" b = false ->
  dict_eq a b = false ->
  compare_txs a b
  = (rootA <-- keccak_json (VDict a) ;;
     rootB <-- keccak_json (VDict b) ;;
     ret (Mismatch rootA rootB (diff_fields a b))).
Proof. unfold compare_txs. now intros -> -> ->. Qed.

(** ** The field diff *)

Lemma keys_app {V : Type} (d d' : list (string * V)) :
  keys (d ++ d') = keys d ++ keys d'.
Proof. apply map_app. Qed.

Lemma diff_loop a b ks acc :
  NoDup ks -> (forall k, In k ks -> ~ In k (keys acc)) ->
  fold_left
    (fun diff k =>
       if negb (py_eq (py_get a k) (py_get b k))
       then dict_set k (VDict [ ("a", py_get a k); ("b", py_get b k) ]) diff
       else diff) ks acc
  = acc ++ map (fun k => (k, VDict [ ("a", py_get a k); ("b", py_get b k) ]))
             (filter (fun k => negb (py_eq (py_get a k) (py_get b k))) ks).
Proof.
  revert acc. induction ks as [|k r IH]; intros acc Hnd Hfresh; cbn.
  - now rewrite app_nil_r.
  - inversion Hnd as [|? ? Hk Hr]; subst.
    destruct (negb (py_eq (py_get a k) (py_get b k))).
    + rewrite dict_set_fresh by (apply Hfresh; now left).
      rewrite IH; [now rewrite <- app_assoc|exact Hr|].
      intros k' Hk'. rewrite keys_app, in_app_iff.
      intros [HI|[<-|[]]]; [|exact (Hk Hk')].
      apply (Hfresh k'); [now right|exact HI].
    + apply IH; [exact Hr|]. intros k' Hk'. apply Hfresh. now right.
Qed.

(** The loop of the source builds the diff of the specification. *)
Lemma diff_fields_spec a b : diff_fields a b = field_diffs a b.
Proof.
  unfold diff_fields, field_diffs.
  rewrite diff_loop; [reflexivity| |intros k _ []].
  apply sorted_NoDup, sorted_union_sorted.
Qed.

Lemma filter_sorted (f : string -> bool) l :
  StronglySorted str_lt l -> StronglySorted str_lt (filter f l).
Proof.
  induction 1 as [|x r Hr IH Hall]; cbn; [constructor|].
  destruct (f x); [|exact IH]. constructor; [exact IH|].
  rewrite Forall_forall in *. intros y Hy. apply Hall.
  now apply filter_In in Hy.
Qed.

Lemma field_diffs_keys a b :
  keys (field_diffs a b)
  = filter (fun k => negb (py_eq (py_get a k) (py_get b k)))
      (sorted_union (keys a) (keys b)).
Proof.
  unfold field_diffs, keys. rewrite map_map. cbn. apply map_id.
Qed.

Lemma field_diffs_sorted a b : StronglySorted str_lt (keys (field_diffs a b)).
Proof.
  rewrite field_diffs_keys. apply filter_sorted, sorted_union_sorted.
Qed.

Lemma field_diffs_In a b k e :
  In (k, e) (field_diffs a b) <->
  (In k (keys a) \/ In k (keys b))
  /\ py_eq (py_get a k) (py_get b k) = false
  /\ e = VDict [ ("a", py_get a k); ("b", py_get b k) ].
Proof.
  unfold field_diffs. rewrite in_map_iff. split.
  - intros (k' & [= <- <-] & Hk). apply filter_In in Hk as [Hk Hd].
    apply sorted_union_In in Hk. apply negb_true_iff in Hd. auto.
  - intros (Hk & Hd & ->). exists k. split; [reflexivity|].
    apply filter_In. split; [now apply sorted_union_In|].
    now apply negb_true_iff.
Qed.


(** ** Which values can be serialised *)

Lemma sequence_Ok_inv {K A : Type} (l : list (K * result A)) items :
  sequence l = Ok items -> Forall (fun kr => exists a, snd kr = Ok a) l.
Proof.
  revert items. induction l as [|[k r] l IH]; intros items H; [constructor|].
  cbn in H. destruct r as [a|e]; [|discriminate H]. cbn in H.
  destruct (sequence l) as [more|e] eqn:E; [|discriminate H].
  constructor; [now exists a|]. now apply (IH more).
Qed.

Lemma sequence_Err_inv {K A : Type} (l : list (K * result A)) e :
  sequence l = Err e -> exists k, In (k, Err e) l.
Proof.
  induction l as [|[k r] l IH]; intros H; [discriminate H|].
  cbn in H. destruct r as [a|e']; cbn in H.
  - destruct (sequence l) as [more|e''] eqn:E; [discriminate H|].
    injection H as ->. destruct (IH eq_refl) as [k' Hk'].
    exists k'. now right.
  - injection H as ->. exists k. now left.
Qed.

(** What [json.dumps] raises is the TypeError for a [bytes] value or the
    ValueError for an [int] of too many digits. *)
Lemma json_dumps_error v :
  forall e, json_dumps v = Err e -> json_exception e.
Proof.
  induction v using pyval_ind; intros e He; try discriminate He.
  - destruct b; discriminate He.
  - cbn [json_dumps] in He. unfold int_str in He.
    destruct (int_digits z <=? max_str_digits)%nat eqn:E;
      [discriminate He|].
    injection He as <-. right. exists z. split; [reflexivity|].
    now apply Nat.leb_gt.
  - cbn in He. injection He as <-. left. now eexists.
  - rewrite json_dumps_list in He.
    assert (M : forall e', mapM json_dumps xs = Err e' ->
                           json_exception e').
    { clear He. induction H as [|x r Hx Hr IH]; intros e' He';
        [discriminate He'|].
      cbn [mapM] in He'. destruct (json_dumps x) as [s|ex] eqn:Ex.
      - cbn in He'. destruct (mapM json_dumps r) as [ss|er];
          [discriminate He'|].
        injection He' as <-. now apply IH.
      - cbn in He'. injection He' as <-. now apply Hx. }
    destruct (mapM json_dumps xs) as [items|e'] eqn:E; [discriminate He|].
    cbn in He. injection He as <-. now apply M.
  - rewrite json_dumps_dict in He.
    destruct (sequence (sort_on fst (map render kvs))) as [items|e'] eqn:E;
      [discriminate He|].
    cbn in He. injection He as <-.
    apply sequence_Err_inv in E as [k Hk].
    eapply Permutation_in in Hk; [|apply sort_on_perm].
    apply in_map_iff in Hk as ([k' x] & [= <- Hx] & HI).
    rewrite Forall_forall in H. exact (H _ HI _ Hx).
Qed.

Lemma ints_fit_list xs : ints_fit (VList xs) = forallb ints_fit xs.
Proof.
  induction xs as [|x r IH]; [reflexivity|].
  cbn [forallb]. rewrite <- IH. reflexivity.
Qed.

Lemma ints_fit_dict kvs :
  ints_fit (VDict kvs) = forallb (fun kv => ints_fit (snd kv)) kvs.
Proof.
  induction kvs as [|[k v] r IH]; [reflexivity|].
  cbn [forallb]. rewrite <- IH. reflexivity.
Qed.

(** When every [int] can be written, only a [bytes] value stops
    [json.dumps]. *)
Lemma json_dumps_type_error v :
  ints_fit v = true ->
  forall e, json_dumps v = Err e -> exists bs, e = TypeError_json (VBytes bs).
Proof.
  induction v using pyval_ind; intros F e He; try discriminate He.
  - destruct b; discriminate He.
  - cbn [json_dumps] in He. unfold int_str in He. cbn [ints_fit] in F.
    rewrite F in He. discriminate He.
  - cbn in He. injection He as <-. now eexists.
  - rewrite json_dumps_list in He. rewrite ints_fit_list in F.
    assert (M : forall e', mapM json_dumps xs = Err e' ->
                           exists bs, e' = TypeError_json (VBytes bs)).
    { clear He. induction H as [|x r Hx Hr IH]; intros e' He';
        [discriminate He'|].
      cbn [forallb] in F. apply andb_true_iff in F as [F1 F2].
      cbn [mapM] in He'. destruct (json_dumps x) as [s|ex] eqn:Ex.
      - cbn in He'. destruct (mapM json_dumps r) as [ss|er];
          [discriminate He'|].
        injection He' as <-. now apply IH.
      - cbn in He'. injection He' as <-. now apply Hx. }
    destruct (mapM json_dumps xs) as [items|e'] eqn:E; [discriminate He|].
    cbn in He. injection He as <-. now apply M.
  - rewrite json_dumps_dict in He. rewrite ints_fit_dict in F.
    destruct (sequence (sort_on fst (map render kvs))) as [items|e'] eqn:E;
      [discriminate He|].
    cbn in He. injection He as <-.
    apply sequence_Err_inv in E as [k Hk].
    eapply Permutation_in in Hk; [|apply sort_on_perm].
    apply in_map_iff in Hk as ([k' x] & [= <- Hx] & HI).
    rewrite Forall_forall in H. rewrite forallb_forall in F.
    exact (H _ HI (F _ HI) _ Hx).
Qed.

Lemma dumps_serializable v :
  forall out, json_dumps v = Ok out -> serializable v = true.
Proof.
  induction v using pyval_ind; intros out Hs; try reflexivity.
  - cbn [json_dumps] in Hs. unfold int_str in Hs.
    unfold serializable. cbn [unserializable].
    destruct (int_digits z <=? max_str_digits)%nat;
      [reflexivity|discriminate Hs].
  - discriminate Hs.
  - rewrite json_dumps_list in Hs. rewrite serializable_list.
    destruct (mapM json_dumps xs) as [items|e] eqn:E; [|discriminate Hs].
    clear Hs. revert items E.
    induction H as [|x r Hx Hr IH]; intros items E; [reflexivity|].
    cbn [mapM] in E. destruct (json_dumps x) as [sx|] eqn:Ex;
      [|discriminate E].
    cbn in E. destruct (mapM json_dumps r) as [ss|] eqn:Er;
      [|discriminate E].
    cbn [forallb]. rewrite (Hx sx eq_refl). now apply (IH ss).
  - rewrite json_dumps_dict in Hs. rewrite serializable_dict.
    destruct (sequence (sort_on fst (map render kvs))) as [items|e] eqn:E;
      [|discriminate Hs].
    apply sequence_Ok_inv in E.
    eapply Permutation_Forall in E; [|apply sort_on_perm].
    rewrite Forall_forall in E, H. apply forallb_forall.
    intros [k x] HI.
    destruct (E (render (k, x))) as [sx Hx]; [now apply in_map|].
    cbn in Hx. exact (H _ HI sx Hx).
Qed.

Lemma unserializable_dumps v :
  serializable v = false ->
  exists e, json_dumps v = Err e /\ json_exception e.
Proof.
  intros S. destruct (json_dumps v) as [s|e] eqn:E.
  - apply dumps_serializable in E. congruence.
  - exists e. split; [reflexivity|]. exact (json_dumps_error v e E).
Qed.

Lemma bytes_entry_unserializable a k bs :
  In (k, VBytes bs) a -> serializable (VDict a) = false.
Proof.
  intros HI. rewrite serializable_dict.
  destruct (forallb (fun kv => serializable (snd kv)) a) eqn:E;
    [|reflexivity].
  rewrite forallb_forall in E. specialize (E _ HI). discriminate E.
Qed.

(** compare_txs on two records without an [error] key, by the outcome of
    the serialisations. *)
Lemma compare_txs_run a b t :
  has_key "error" a = false ->
  has_key "error" b = false ->
  compare_txs a b t =
  match json_dumps (VDict a) with
  | Err e => (Raise e, t)
  | Ok sa =>
      if dict_eq a b
      then (Ret (Match (root_of sa)), t ++ [EvKeccak (encode sa)])
      else
        match json_dumps (VDict b) with
        | Err e => (Raise e, t ++ [EvKeccak (encode sa)])
        | Ok sb =>
            (Ret (Mismatch (root_of sa) (root_of sb) (field_diffs a b)),
             t ++ [EvKeccak (encode sa); EvKeccak (encode sb)])
        end
  end.
Proof.
  intros Ha Hb. unfold compare_txs. rewrite Ha, Hb. cbn [orb].
  destruct (dict_eq a b); unfold bind; rewrite keccak_json_run;
    destruct (json_dumps (VDict a)); try reflexivity.
  rewrite keccak_json_run, diff_fields_spec.
  destruct (json_dumps (VDict b)); [rewrite <- app_assoc|]; reflexivity.
Qed.

(** ** Comparison of two records *)

Lemma example_records_canonical nonce accessList :
  int_like nonce = true ->
  canonical_tx (example_raw nonce accessList)
  = (n <- py_int nonce ;; Ok (example_record (VInt n) accessList)).
Proof.
  unfold int_like. destruct (py_int nonce) as [n|e] eqn:E; [|discriminate].
  intros _. unfold canonical_tx, int_field. cbn - [py_int].
  rewrite E. reflexivity.
Qed.

(** C2, amended. Two records without an [error] key that are equal under
    [==] make compare_txs run one digest, of the first record, and answer
    [Match] with it as the single root: the outcome is that of
    [keccak_json(tx_a)], so it returns whenever the first record can be
    serialised. The digests of the two records are equal when neither
    holds a [bool] (their dicts having distinct keys). *)
Theorem match_on_equal_records (a b : dict) (t : list event) :
  has_key "error" a = false ->
  has_key "error" b = false ->
  dict_eq a b = true ->
  compare_txs a b t
  = (root <-- keccak_json (VDict a) ;; ret (Match root)) t
  /\ (serializable (VDict a) = true ->
      exists s,
        json_dumps (VDict a) = Ok s
        /\ digest (VDict a) = Ok (root_of s)
        /\ compare_txs a b t
           = (Ret (Match (root_of s)), t ++ [EvKeccak (encode s)]))
  /\ (well_formed (VDict a) = true -> well_formed (VDict b) = true ->
      bool_free (VDict a) = true -> bool_free (VDict b) = true ->
      digest (VDict a) = digest (VDict b)).
Proof.
  intros Ha Hb E. split; [|split].
  - now rewrite compare_txs_equal.
  - intros S. destruct (serializable_dumps _ S) as [s Es].
    exists s. split; [exact Es|]. split; [now apply digest_dumps|].
    rewrite compare_txs_equal by assumption.
    unfold bind. rewrite keccak_json_run, Es. reflexivity.
  - intros Wa Wb Ba Bb. unfold digest.
    now rewrite (json_dumps_py_eq (VDict a) (VDict b) Wa Wb Ba Bb E).
Qed.

Lemma match_on_equal_records_witness :
  exists s,
    digest (VDict (example_record (VInt 5) VNone)) = Ok (root_of s)
    /\ compare_txs (example_record (VInt 5) VNone)
         (example_record (VInt 5) VNone) []
       = (Ret (Match (root_of s)), [EvKeccak (encode s)]).
Proof.
  destruct (match_on_equal_records
              (example_record (VInt 5) VNone)
              (example_record (VInt 5) VNone) []
              eq_refl eq_refl eq_refl) as (_ & H & _).
  destruct (H eq_refl) as (s & _ & D & C).
  exists s. split; [exact D|exact C].
Defined.

(** C2 as stated fails: [True == 1], so a record whose access list is
    [True] and one whose access list is [1] are equal field for field, and
    compare_txs answers [Match] with the digest of the first; the digest of
    the second is another one. *)
Lemma equal_records_unequal_digests :
  canonical_tx (example_raw (VInt 5) (VBool true))
  = Ok (example_record (VInt 5) (VBool true))
  /\ canonical_tx (example_raw (VInt 5) (VInt 1))
     = Ok (example_record (VInt 5) (VInt 1))
  /\ dict_eq (example_record (VInt 5) (VBool true))
       (example_record (VInt 5) (VInt 1)) = true
  /\ fst (compare_txs (example_record (VInt 5) (VBool true))
            (example_record (VInt 5) (VInt 1)) [])
     = Ret (Match
         "0xccf6bf84ccbfa8c96982986a764f41b0fc4af2a2200ff19d34f67b732c1f6581")
  /\ digest (VDict (example_record (VInt 5) (VBool true)))
     = Ok "0xccf6bf84ccbfa8c96982986a764f41b0fc4af2a2200ff19d34f67b732c1f6581"
  /\ digest (VDict (example_record (VInt 5) (VInt 1)))
     = Ok "0x570b10fbc72eecad213755966ec2979b3e2f1ffb73b32832d1f20f4f96fc1210".
Proof.
  splits; vm_compute; reflexivity.
Qed.

(** C3, amended. Two records without an [error] key that are not equal
    under [==] make compare_txs run the two digests in turn, so its outcome
    is that of the two [keccak_json] calls: when both records can be
    serialised it answers [Mismatch] with the digest of each record and the
    field diff, and when one cannot, the exception of [json.dumps] for the
    first such record ends the call. The keys of the field diff are the
    names, in increasing order, of the fields of either record whose values
    differ, and each entry holds the two values. Two canonical records that
    differ in [nonce] only, 5 against 6, give the single entry
    [nonce: {a: 5, b: 6}] and two different roots. *)
Theorem mismatch_on_different_records :
  (forall (a b : dict) (t : list event),
      has_key "error" a = false ->
      has_key "error" b = false ->
      dict_eq a b = false ->
      compare_txs a b t
      = (rootA <-- keccak_json (VDict a) ;;
         rootB <-- keccak_json (VDict b) ;;
         ret (Mismatch rootA rootB (field_diffs a b))) t
      /\ (serializable (VDict a) = true -> serializable (VDict b) = true ->
          exists sa sb,
            digest (VDict a) = Ok (root_of sa)
            /\ digest (VDict b) = Ok (root_of sb)
            /\ compare_txs a b t
               = (Ret (Mismatch (root_of sa) (root_of sb) (field_diffs a b)),
                  t ++ [EvKeccak (encode sa); EvKeccak (encode sb)]))
      /\ (serializable (VDict a) = false ->
          exists e,
            json_dumps (VDict a) = Err e
            /\ compare_txs a b t = (Raise e, t))
      /\ (serializable (VDict a) = true -> serializable (VDict b) = false ->
          exists sa e,
            json_dumps (VDict a) = Ok sa
            /\ json_dumps (VDict b) = Err e
            /\ compare_txs a b t = (Raise e, t ++ [EvKeccak (encode sa)]))
      /\ StronglySorted str_lt (keys (field_diffs a b))
      /\ (forall k e,
             In (k, e) (field_diffs a b) <->
             (In k (keys a) \/ In k (keys b))
             /\ py_eq (py_get a k) (py_get b k) = false
             /\ e = VDict [ ("a", py_get a k); ("b", py_get b k) ]))
  /\ (canonical_tx (example_raw (VInt 5) VNone)
      = Ok (example_record (VInt 5) VNone)
      /\ canonical_tx (example_raw (VInt 6) VNone)
         = Ok (example_record (VInt 6) VNone)
      /\ fst (compare_txs (example_record (VInt 5) VNone)
                (example_record (VInt 6) VNone) [])
         = Ret (Mismatch
             "0x223ab73ce948b24e2c3f7b89956969a09eefdcef89d3e29dace1d3f2b9c502b6"
             "0x6505d3bbfee4e1182174e51fee6df7e26f27dca07e2c202ba6d4872c8ae4286b"
             [ ("nonce", VDict [ ("a", VInt 5); ("b", VInt 6) ]) ])
      /\ digest (VDict (example_record (VInt 5) VNone))
         <> digest (VDict (example_record (VInt 6) VNone))).
Proof.
  split.
  - intros a b t Ha Hb E. splits.
    + rewrite compare_txs_differ by assumption.
      now rewrite diff_fields_spec.
    + intros Sa Sb.
      destruct (serializable_dumps _ Sa) as [sa Ea].
      destruct (serializable_dumps _ Sb) as [sb Eb].
      exists sa, sb. splits; try (now apply digest_dumps).
      rewrite compare_txs_differ by assumption.
      unfold bind. rewrite keccak_json_run, Ea, keccak_json_run, Eb.
      rewrite diff_fields_spec, <- app_assoc. reflexivity.
    + intros Sa. destruct (unserializable_dumps _ Sa) as (e & Ee & _).
      exists e. split; [exact Ee|].
      now rewrite (compare_txs_run a b t Ha Hb), Ee.
    + intros Sa Sb.
      destruct (serializable_dumps _ Sa) as [sa Ea].
      destruct (unserializable_dumps _ Sb) as (e & Ee & _).
      exists sa, e. splits; [exact Ea|exact Ee|].
      now rewrite (compare_txs_run a b t Ha Hb), Ea, E, Ee.
    + apply field_diffs_sorted.
    + intros k e. apply field_diffs_In.
  - splits; try (vm_compute; reflexivity).
    vm_compute. intros H. discriminate H.
Qed.

Lemma mismatch_on_different_records_witness :
  StronglySorted str_lt
    (keys (field_diffs (example_record (VInt 5) VNone)
             (example_record (VInt 6) VNone)))
  /\ exists sa sb,
      compare_txs (example_record (VInt 5) VNone)
        (example_record (VInt 6) VNone) []
      = (Ret (Mismatch (root_of sa) (root_of sb)
                (field_diffs (example_record (VInt 5) VNone)
                   (example_record (VInt 6) VNone))),
         [EvKeccak (encode sa); EvKeccak (encode sb)]).
Proof.
  destruct (proj1 mismatch_on_different_records
              (example_record (VInt 5) VNone)
              (example_record (VInt 6) VNone) []
              eq_refl eq_refl eq_refl) as (_ & H & _ & _ & S & _).
  split; [exact S|].
  destruct (H eq_refl eq_refl) as (sa & sb & _ & _ & C).
  exists sa, sb. exact C.
Defined.

(** C3 as stated fails: a canonical record that holds its [input] as
    [bytes] and another canonical record with another nonce are unequal and
    free of errors, and compare_txs raises the TypeError of [json.dumps]
    instead of answering [Mismatch]; no digest is taken. *)
Lemma unequal_records_without_mismatch :
  canonical_tx (dict_set "input" (VBytes [xa9; x05; x9c; xbb])
                  (example_raw (VInt 5) VNone))
  = Ok (dict_set "input" (VBytes [xa9; x05; x9c; xbb])
          (example_record (VInt 5) VNone))
  /\ canonical_tx (example_raw (VInt 6) VNone)
     = Ok (example_record (VInt 6) VNone)
  /\ has_key "error" (dict_set "input" (VBytes [xa9; x05; x9c; xbb])
                        (example_record (VInt 5) VNone)) = false
  /\ has_key "error" (example_record (VInt 6) VNone) = false
  /\ dict_eq (dict_set "input" (VBytes [xa9; x05; x9c; xbb])
                (example_record (VInt 5) VNone))
       (example_record (VInt 6) VNone) = false
  /\ compare_txs (dict_set "input" (VBytes [xa9; x05; x9c; xbb])
                    (example_record (VInt 5) VNone))
       (example_record (VInt 6) VNone) []
     = (Raise (TypeError_json (VBytes [xa9; x05; x9c; xbb])), []).
Proof.
  splits; vm_compute; reflexivity.
Qed.

Section FetchFacts.
Variable str_of_exn : exn -> string.
Variable world : string -> provider.

Lemma fetch_tx_run w3 tx_hash t :
  fetch_tx str_of_exn world w3 tx_hash t
  = (Ret (fetched str_of_exn world w3 tx_hash),
     t ++ [EvGetTransaction w3 tx_hash]).
Proof.
  unfold fetch_tx, fetched, try_except, bind, emit, lift, ret, raise.
  destruct (get_transaction (world w3) tx_hash) as [[tx|]|e];
    try reflexivity.
  destruct (canonical_tx tx); reflexivity.
Qed.

(** C4. When either record has an [error] key, compare_txs answers
    [FetchFailure] with the [error] of each side ([None] for a side that has
    none) and leaves the trace as it was: no digest is taken. When the
    first provider has no such transaction and the second returns one that
    canonicalises, the answer is errorA = "transaction not found" and
    errorB = [None], and the only events are the two fetches. *)
Theorem fetch_failure_short_circuit :
  (forall (a b : dict) (t : list event),
      has_key "error" a || has_key "error" b = true ->
      compare_txs a b t
      = (Ret (FetchFailure (py_get a "error") (py_get b "error")), t))
  /\ (forall (wA wB tx_hash : string) (tx c : dict) (t : list event),
         get_transaction (world wA) tx_hash = Ok None ->
         get_transaction (world wB) tx_hash = Ok (Some tx) ->
         canonical_tx tx = Ok c ->
         (txA <-- fetch_tx str_of_exn world wA tx_hash ;;
          txB <-- fetch_tx str_of_exn world wB tx_hash ;;
          compare_txs txA txB) t
         = (Ret (FetchFailure (VStr "transaction not found") VNone),
            t ++ [ EvGetTransaction wA tx_hash;
                   EvGetTransaction wB tx_hash ])).
Proof.
  split.
  - exact compare_txs_error.
  - intros wA wB h tx c t HA HB Hc.
    unfold bind. rewrite !fetch_tx_run. unfold fetched.
    rewrite HA, HB, Hc. rewrite compare_txs_error by reflexivity.
    rewrite <- app_assoc. cbn [app].
    pose proof (canonical_tx_inv tx c Hc) as F.
    assert (E : get "error" c = None).
    { apply get_None. rewrite (fo_keys _ _ F). cbv.
      intuition discriminate. }
    unfold py_get at 2. unfold get_default. rewrite E. reflexivity.
Qed.

End FetchFacts.

(** ** The shape of a canonical record *)

Lemma canonical_no_error tx c : canonical_tx tx = Ok c -> has_key "error" c = false.
Proof.
  intros Hc. pose proof (canonical_tx_inv tx c Hc) as F.
  destruct (has_key "error" c) eqn:E; [|reflexivity].
  apply has_key_In in E. rewrite (fo_keys _ _ F) in E.
  cbv in E. intuition discriminate.
Qed.

Lemma compare_txs_not_failure a b t eA eB :
  has_key "error" a = false -> has_key "error" b = false ->
  fst (compare_txs a b t) <> Ret (FetchFailure eA eB).
Proof.
  intros Ha Hb. unfold compare_txs. rewrite Ha, Hb. cbn [orb].
  destruct (dict_eq a b); unfold bind; rewrite keccak_json_run.
  - destruct (json_dumps (VDict a)); cbn; discriminate.
  - destruct (json_dumps (VDict a)); [|cbn; discriminate].
    rewrite keccak_json_run.
    destruct (json_dumps (VDict b)); cbn; discriminate.
Qed.

(** C10. A record returned by canonical_tx has the eighteen canonical
    field names as its keys, in the order of the dict display, each once and
    no other; [error] is not among them, so compare_txs never answers
    [FetchFailure] for two records without an [error] key, and against a
    record that has one it reports no error for the canonical side. *)
Theorem canonical_record_shape (tx c : dict) :
  canonical_tx tx = Ok c ->
  keys c = canonical_fields
  /\ List.length (keys c) = 18
  /\ NoDup (keys c)
  /\ has_key "error" c = false
  /\ (forall b t eA eB,
         has_key "error" b = false ->
         fst (compare_txs c b t) <> Ret (FetchFailure eA eB))
  /\ (forall b t,
         has_key "error" b = true ->
         compare_txs c b t
         = (Ret (FetchFailure VNone (py_get b "error")), t)).
Proof.
  intros Hc. pose proof (canonical_tx_inv tx c Hc) as F.
  pose proof (canonical_no_error tx c Hc) as E.
  splits.
  - apply (fo_keys _ _ F).
  - now rewrite (fo_keys _ _ F).
  - rewrite (fo_keys _ _ F). apply distinct_NoDup. reflexivity.
  - exact E.
  - intros b t eA eB Hb. now apply compare_txs_not_failure.
  - intros b t Hb. rewrite compare_txs_error by (rewrite Hb; apply orb_true_r).
    unfold has_key in E. unfold py_get at 1. unfold get_default.
    now destruct (get "error" c).
Qed.

Lemma canonical_record_shape_witness :
  keys (example_record (VInt 5) VNone) = canonical_fields
  /\ has_key "error" (example_record (VInt 5) VNone) = false.
Proof.
  destruct (canonical_record_shape (example_raw (VInt 5) VNone)
              (example_record (VInt 5) VNone) eq_refl)
    as (K & _ & _ & E & _).
  split; [exact K|exact E].
Defined.

Lemma fetch_failure_short_circuit_witness :
  (txA <-- fetch_tx (fun _ => "") example_world "A" hash_as_text ;;
   txB <-- fetch_tx (fun _ => "") example_world "B" hash_as_text ;;
   compare_txs txA txB) []
  = (Ret (FetchFailure (VStr "transaction not found") VNone),
     [ EvGetTransaction "A" hash_as_text;
       EvGetTransaction "B" hash_as_text ]).
Proof.
  exact (proj2 (fetch_failure_short_circuit (fun _ => "") example_world)
           "A" "B" hash_as_text
           (example_raw (VInt 5) VNone) (example_record (VInt 5) VNone) []
           eq_refl eq_refl eq_refl).
Defined.

(** ** Integer fields *)


Section CoercionFacts.
Variable str_of_exn : exn -> string.
Variable world : string -> provider.


End CoercionFacts.



(** ** main: the two gates *)

Lemma is_hex_char_ascii c : is_hex_char c = true -> (N_of_ascii c < 128)%N.
Proof.
  unfold is_hex_char. intros H.
  repeat (apply orb_true_iff in H as [H|H]);
    apply andb_true_iff in H as [_ H]; apply N.leb_le in H; lia.
Qed.

(** Every well-formed hash passes the test of main. *)
Lemma hash_gate_accepts txh : well_formed_hash txh = true -> hash_gate txh = true.
Proof.
  unfold well_formed_hash, hash_gate, py_len, code_points.
  rewrite <- (string_of_list_ascii_of_string txh) at 2.
  destruct (list_ascii_of_string txh) as [|c0 [|c1 r]] eqn:E;
    try discriminate;
    try (destruct c0 as [[] [] [] [] [] [] [] []]; discriminate).
  destruct (Ascii.eqb_spec c0 "0") as [->|N0];
    [|destruct c0 as [[] [] [] [] [] [] [] []]; try discriminate;
      now elim N0].
  destruct (Ascii.eqb_spec c1 "x") as [->|N1];
    [|destruct c1 as [[] [] [] [] [] [] [] []]; try discriminate;
      now elim N1].
  intros H. apply andb_true_iff in H as [Hl Hh].
  apply Nat.eqb_eq in Hl. rewrite forallb_forall in Hh.
  cbn [string_of_list_ascii String.prefix].
  destruct (ascii_dec "0" "0") as [_|N]; [|now elim N].
  destruct (ascii_dec "x" "x") as [_|N]; [|now elim N].
  assert (P : forall s, String.prefix "" s = true) by (now intros [|]).
  rewrite P. cbn [andb]. apply Nat.eqb_eq.
  rewrite utf8_decode_ascii.
  - cbn [map List.length]. rewrite length_map. lia.
  - cbn [map]. repeat constructor.
    apply Forall_forall. intros b Hb.
    apply in_map_iff in Hb as (c & <- & Hc).
    now apply is_hex_char_ascii, Hh.
Qed.

Section MainFacts.
Variable str_of_exn : exn -> string.
Variable world : string -> provider.
Variable environ : string -> option string.

Lemma main_rejects_hash argv :
  2 <= List.length argv ->
  hash_gate (nth 1 argv "") = false ->
  main str_of_exn world environ argv [] = (Exit 2, [EvPrint MsgInvalidHash]).
Proof.
  intros Hlen Hgate. unfold main.
  replace (List.length argv <? 2)%nat with false
    by (symmetry; apply Nat.ltb_ge; exact Hlen).
  cbv zeta. unfold hash_gate in Hgate. rewrite Hgate. reflexivity.
Qed.

(** C9. With a hash that passes the test and two providers that answer,
    chain identities that differ make main print the mismatch and leave
    with code 3; the trace up to there holds no call of get_transaction (and
    no digest). *)
Theorem chain_mismatch_gate (argv : list string) (chainA chainB : Z) :
  2 <= List.length argv ->
  hash_gate (nth 1 argv "") = true ->
  is_connected (world (source_a environ argv)) = true ->
  is_connected (world (source_b environ argv)) = true ->
  chain_id (world (source_a environ argv)) = Ok chainA ->
  chain_id (world (source_b environ argv)) = Ok chainB ->
  chainA <> chainB ->
  exists trace,
    main str_of_exn world environ argv [] = (Exit 3, trace)
    /\ existsb is_get_transaction trace = false
    /\ existsb is_keccak trace = false
    /\ last trace EvClock = EvPrint MsgChainMismatch.
Proof.
  intros Hlen Hgate HcA HcB HiA HiB Hne. unfold main.
  replace (List.length argv <? 2)%nat with false
    by (symmetry; apply Nat.ltb_ge; exact Hlen).
  cbv zeta. unfold hash_gate in Hgate. rewrite Hgate.
  change (if (2 <? List.length argv)%nat then nth 2 argv ""
          else DEFAULT_RPC_A environ)
    with (source_a environ argv).
  change (if (3 <? List.length argv)%nat then nth 3 argv ""
          else DEFAULT_RPC_B environ)
    with (source_b environ argv).
  set (A := source_a environ argv) in *.
  set (B := source_b environ argv) in *.
  apply Z.eqb_neq in Hne.
  unfold connect, when, print, lift.
  unfold bind, emit, ret, sys_exit, raise.
  cbn [negb].
  destruct (String.eqb A B);
    destruct (contains "your_api_key" A || contains "your_api_key" B);
    destruct (contains " " A); cbn [app];
    rewrite HcA; cbn [negb app];
    destruct (contains " " B); cbn [app];
    rewrite HcB; cbn [negb app];
    rewrite HiA, HiB; cbn [app]; rewrite Hne; cbn [negb app];
    eexists; splits; reflexivity.
Qed.

End MainFacts.

Lemma chain_mismatch_gate_witness :
  exists trace,
    main (fun _ => "") split_world no_environ
      [ "tx_attest.py"; hash_as_text; "A"; "B" ] [] = (Exit 3, trace)
    /\ existsb is_get_transaction trace = false.
Proof.
  destruct (chain_mismatch_gate (fun _ => "") split_world no_environ
              [ "tx_attest.py"; hash_as_text; "A"; "B" ] 1 10
              (le_S _ _ (le_S _ _ (le_n 2))) eq_refl eq_refl eq_refl
              eq_refl eq_refl)
    as (trace & Hm & Hg & _).
  - discriminate.
  - exists trace. split; [exact Hm|exact Hg].
Defined.

(** C8. main tests the prefix and the length of the hash only. A hash
    that fails that test (no [0x] in front, or a length other than 66, such
    as 65) ends the run with code 2 after one console line and before any
    provider is reached, and every well-formed hash passes it. But [0x]
    followed by sixty-four letters [g] is not well formed and passes too:
    main goes on to both providers and ends normally. *)
Theorem hash_gate_misses_hex_check :
  (forall str_of_exn world environ argv,
      2 <= List.length argv ->
      hash_gate (nth 1 argv "") = false ->
      main str_of_exn world environ argv []
      = (Exit 2, [EvPrint MsgInvalidHash]))
  /\ (forall txh, String.prefix "0x" txh = false -> hash_gate txh = false)
  /\ (forall txh, py_len txh <> 66 -> hash_gate txh = false)
  /\ (forall txh, well_formed_hash txh = true -> hash_gate txh = true)
  /\ well_formed_hash not_hex_hash = false
  /\ hash_gate not_hex_hash = true
  /\ (forall str_of_exn environ,
         main str_of_exn rejecting_world environ
           [ "tx_attest.py"; not_hex_hash; "A"; "B" ] []
         = (Ret tt,
            [ EvIsConnected "A"; EvIsConnected "B";
              EvChainId "A"; EvChainId "B";
              EvPrint (MsgRpcA "A" 1); EvPrint (MsgRpcB "B" 1);
              EvPrint (MsgFetching not_hex_hash);
              EvClock;
              EvGetTransaction "A" not_hex_hash;
              EvGetTransaction "B" not_hex_hash;
              EvClock;
              EvPrint MsgDiffer;
              EvPrint (MsgInfo
                [ ("errorA",
                   VStr (str_of_exn (SourceError "invalid hash")));
                  ("errorB",
                   VStr (str_of_exn (SourceError "invalid hash"))) ]);
              EvPrint MsgElapsed ])).
Proof.
  splits.
  - exact main_rejects_hash.
  - intros txh H. unfold hash_gate. now rewrite H.
  - intros txh H. unfold hash_gate. apply Nat.eqb_neq in H.
    rewrite H. apply andb_false_r.
  - exact hash_gate_accepts.
  - reflexivity.
  - reflexivity.
  - intros str_of_exn environ. reflexivity.
Qed.

Lemma hash_gate_misses_hex_check_witness :
  main (fun _ => "") example_world no_environ
    [ "tx_attest.py";
      "ab0cca182530bb1d6d132cded6237b2ed91e3f721fcb1971174494d6493c9d5c";
      "A"; "B" ] []
  = (Exit 2, [EvPrint MsgInvalidHash]).
Proof.
  exact (proj1 hash_gate_misses_hex_check (fun _ => "") example_world
           no_environ
           [ "tx_attest.py";
             "ab0cca182530bb1d6d132cded6237b2ed91e3f721fcb1971174494d6493c9d5c";
             "A"; "B" ]
           (le_S _ _ (le_S _ _ (le_n 2))) eq_refl).
Defined.

(** * Further properties of the code *)

(** ** Lookup after an update, and after a reordering *)

Section AssocUpdate.
Context {V : Type}.
Implicit Types (d : list (string * V)) (k : string).

Lemma get_dict_set_same k (v : V) d : get k (dict_set k v d) = Some v.
Proof.
  induction d as [|[k' v'] r IH]; cbn.
  - now rewrite String.eqb_refl.
  - destruct (String.eqb_spec k k') as [->|Hne]; cbn.
    + now rewrite String.eqb_refl.
    + destruct (String.eqb_spec k k'); [contradiction|exact IH].
Qed.

Lemma get_dict_set_other k k' (v : V) d :
  k' <> k -> get k' (dict_set k v d) = get k' d.
Proof.
  intros Hne. induction d as [|[k0 v0] r IH]; cbn.
  - destruct (String.eqb_spec k' k); [contradiction|reflexivity].
  - destruct (String.eqb_spec k k0) as [->|Hk]; cbn.
    + destruct (String.eqb_spec k' k0); [contradiction|reflexivity].
    + destruct (String.eqb_spec k' k0); [reflexivity|exact IH].
Qed.

Lemma get_Permutation k d d' :
  NoDup (keys d) -> Permutation d d' -> get k d = get k d'.
Proof.
  intros Hnd Hp.
  assert (Hnd' : NoDup (keys d')).
  { eapply Permutation_NoDup; [|exact Hnd]. now apply Permutation_map. }
  destruct (get k d) as [v|] eqn:E.
  - symmetry. apply In_get; [exact Hnd'|].
    eapply Permutation_in; [exact Hp|]. now apply get_In.
  - symmetry. apply get_None. apply get_None in E. intros HI. apply E.
    eapply Permutation_in; [|exact HI].
    apply Permutation_map. now symmetry.
Qed.
End AssocUpdate.

(** ** What canonical_tx reads *)

(** The record is made from the hash, the four copied fields and the
    thirteen converted ones, and from nothing else. *)
Lemma canonical_tx_from_fields tx tx' :
  hash_field tx = hash_field tx' ->
  (forall k, In k [ "from"; "to"; "input"; "accessList" ] ->
             py_get tx k = py_get tx' k) ->
  (forall k, In k required_int_fields -> int_field tx k = int_field tx' k) ->
  (forall k, In k optional_int_fields ->
             opt_int_field tx k = opt_int_field tx' k) ->
  canonical_tx tx = canonical_tx tx'.
Proof.
  intros Hh Hp Hr Ho. unfold canonical_tx.
  rewrite Hh.
  rewrite (Hp "from"), (Hp "to"), (Hp "input") by (simpl; tauto).
  change (get_default tx "accessList" VNone) with (py_get tx "accessList").
  change (get_default tx' "accessList" VNone) with (py_get tx' "accessList").
  rewrite (Hp "accessList") by (simpl; tauto).
  rewrite (Hr "nonce"), (Hr "value"), (Hr "gas"), (Hr "v"), (Hr "r"),
    (Hr "s") by (simpl; tauto).
  rewrite (Ho "gasPrice"), (Ho "maxFeePerGas"), (Ho "maxPriorityFeePerGas"),
    (Ho "type"), (Ho "chainId"), (Ho "blockNumber"),
    (Ho "transactionIndex") by (simpl; tauto).
  reflexivity.
Qed.

Lemma canonical_tx_same_lookups tx tx' :
  (forall k, In k canonical_fields -> get k tx = get k tx') ->
  canonical_tx tx = canonical_tx tx'.
Proof.
  intros H. apply canonical_tx_from_fields.
  - unfold hash_field, py_get, get_default.
    now rewrite (H "hash") by (simpl; tauto).
  - intros k Hk. unfold py_get, get_default.
    rewrite (H k); [reflexivity|]. each_field Hk; simpl; tauto.
  - intros k Hk. rewrite !int_field_spec.
    rewrite (H k); [reflexivity|]. each_field Hk; simpl; tauto.
  - intros k Hk. rewrite !opt_int_field_spec.
    rewrite (H k); [reflexivity|]. each_field Hk; simpl; tauto.
Qed.

(** X1. canonical_tx reads the eighteen canonical fields and nothing
    else: two provider records that agree on them give the same outcome
    (the same record or the same exception). So a field with any other name
    is dropped, and the order in which a provider lists its fields does not
    matter. *)
Theorem canonical_tx_reads_canonical_fields_only (tx tx' : dict) :
  ((forall k, In k canonical_fields -> get k tx = get k tx') ->
   canonical_tx tx = canonical_tx tx')
  /\ (forall k v, ~ In k canonical_fields ->
                  canonical_tx (dict_set k v tx) = canonical_tx tx)
  /\ (NoDup (keys tx) -> Permutation tx tx' ->
      canonical_tx tx = canonical_tx tx').
Proof.
  splits.
  - apply canonical_tx_same_lookups.
  - intros k v Hk. apply canonical_tx_same_lookups.
    intros k' Hk'. apply get_dict_set_other. intros ->. contradiction.
  - intros Hnd Hp. apply canonical_tx_same_lookups.
    intros k _. now apply get_Permutation.
Qed.

Lemma canonical_tx_reads_canonical_fields_only_witness :
  canonical_tx
    (dict_set "blockHash" (VStr "0x00") (example_raw (VInt 5) VNone))
  = Ok (example_record (VInt 5) VNone)
  /\ canonical_tx (List.rev (example_raw (VInt 5) VNone))
     = Ok (example_record (VInt 5) VNone).
Proof.
  destruct (canonical_tx_reads_canonical_fields_only
              (example_raw (VInt 5) VNone)
              (List.rev (example_raw (VInt 5) VNone))) as (_ & S & P).
  split.
  - rewrite S; [reflexivity|]. cbv. intuition discriminate.
  - rewrite <- P; [reflexivity| |apply Permutation_rev].
    apply distinct_NoDup. reflexivity.
Defined.

(** ** The values of a canonical record *)

Lemma int_field_value tx k v : int_field tx k = Ok v -> exists z, v = VInt z.
Proof.
  unfold int_field. destruct (py_int (get_default tx k (VInt 0))) as [z|];
    [|discriminate].
  intros [= <-]. now exists z.
Qed.

Lemma opt_int_field_value tx k v :
  opt_int_field tx k = Ok v -> v = VNone \/ exists z, v = VInt z.
Proof.
  unfold opt_int_field. destruct (negb (is_none (py_get tx k))).
  - intros H. right. now apply int_field_value in H.
  - intros [= <-]. now left.
Qed.

Lemma hash_field_not_bytes tx bs : hash_field tx <> VBytes bs.
Proof.
  unfold hash_field. destruct (py_get tx "hash"); discriminate.
Qed.

(** X2. In a record returned by canonical_tx the six required integer
    fields hold integers, the seven optional ones hold an integer or [None],
    the hash is never [bytes], and [from], [to], [input] and [accessList]
    are the provider's values, unchanged ([None] when missing). *)
Theorem canonical_record_values (tx c : dict) :
  canonical_tx tx = Ok c ->
  (forall k, In k required_int_fields -> exists z, get k c = Some (VInt z))
  /\ (forall k, In k optional_int_fields ->
         get k c = Some VNone \/ exists z, get k c = Some (VInt z))
  /\ (forall bs, get "hash" c <> Some (VBytes bs))
  /\ (forall k, In k [ "from"; "to"; "input"; "accessList" ] ->
         get k c = Some (py_get tx k)).
Proof.
  intros Hc. pose proof (canonical_tx_inv tx c Hc) as F. splits.
  - intros k Hk.
    assert (Hin : In k canonical_fields) by (each_field Hk; simpl; tauto).
    rewrite (fields_get tx c k F Hin).
    assert (E : exists z, py_get c k = VInt z).
    { destruct F. each_field Hk; eapply int_field_value; eassumption. }
    destruct E as [z ->]. now exists z.
  - intros k Hk.
    assert (Hin : In k canonical_fields) by (each_field Hk; simpl; tauto).
    rewrite (fields_get tx c k F Hin).
    assert (E : py_get c k = VNone \/ exists z, py_get c k = VInt z).
    { destruct F. each_field Hk; eapply opt_int_field_value; eassumption. }
    destruct E as [->|[z ->]]; [now left|right; now exists z].
  - intros bs. rewrite (fields_get tx c "hash" F) by (simpl; tauto).
    rewrite (fo_hash _ _ F). intros [= E].
    exact (hash_field_not_bytes tx bs E).
  - intros k Hk.
    assert (Hin : In k canonical_fields) by (each_field Hk; simpl; tauto).
    rewrite (fields_get tx c k F Hin). f_equal.
    destruct F. each_field Hk; assumption.
Qed.

Lemma canonical_record_values_witness :
  (exists z, get "nonce" (example_record (VInt 5) VNone) = Some (VInt z))
  /\ get "input" (example_record (VInt 5) VNone) = Some (VStr "0x").
Proof.
  destruct (canonical_record_values (example_raw (VInt 5) VNone)
              (example_record (VInt 5) VNone) eq_refl) as (R & _ & _ & P).
  split.
  - apply R. simpl. tauto.
  - apply (P "input"). simpl. tauto.
Defined.

(** ** Canonicalising twice *)

Lemma record_of_keys (c : dict) :
  keys c = canonical_fields ->
  c = map (fun k => (k, py_get c k)) canonical_fields.
Proof.
  unfold keys, canonical_fields. intros H.
  do 18 (destruct c as [|[? ?] c]; [discriminate H|]).
  destruct c; [|discriminate H].
  cbn in H. injection H as -> -> -> -> -> -> -> -> -> -> -> -> -> -> -> -> -> ->.
  reflexivity.
Qed.

Lemma int_field_again tx c k :
  fields_of tx c -> In k required_int_fields ->
  int_field c k = Ok (py_get c k).
Proof.
  intros F Hk.
  assert (Hin : In k canonical_fields) by (each_field Hk; simpl; tauto).
  rewrite int_field_spec, (fields_get tx c k F Hin).
  assert (E : exists z, py_get c k = VInt z).
  { destruct F. each_field Hk; eapply int_field_value; eassumption. }
  destruct E as [z ->]. reflexivity.
Qed.

Lemma opt_int_field_again tx c k :
  fields_of tx c -> In k optional_int_fields ->
  opt_int_field c k = Ok (py_get c k).
Proof.
  intros F Hk.
  assert (Hin : In k canonical_fields) by (each_field Hk; simpl; tauto).
  rewrite opt_int_field_spec, (fields_get tx c k F Hin).
  assert (E : py_get c k = VNone \/ exists z, py_get c k = VInt z).
  { destruct F. each_field Hk; eapply opt_int_field_value; eassumption. }
  destruct E as [->|[z ->]]; reflexivity.
Qed.

(** X3. canonical_tx leaves a canonical record as it is: applied to a
    record it returned, it returns that record again. *)
Theorem canonical_tx_idempotent (tx c : dict) :
  canonical_tx tx = Ok c -> canonical_tx c = Ok c.
Proof.
  intros Hc. pose proof (canonical_tx_inv tx c Hc) as F.
  transitivity (Ok (map (fun k => (k, py_get c k)) canonical_fields));
    [|apply f_equal; symmetry; apply record_of_keys, (fo_keys _ _ F)].
  unfold canonical_tx.
  rewrite !(int_field_again tx c) by (exact F || (simpl; tauto)).
  rewrite !(opt_int_field_again tx c) by (exact F || (simpl; tauto)).
  cbn [rbind].
  assert (Hh : hash_field c = py_get c "hash").
  { unfold hash_field. rewrite (fo_hash _ _ F).
    pose proof (hash_field_not_bytes tx) as N.
    destruct (hash_field tx); try reflexivity. now elim (N bs). }
  rewrite Hh. reflexivity.
Qed.

Lemma canonical_tx_idempotent_witness :
  canonical_tx (example_record (VInt 5) VNone)
  = Ok (example_record (VInt 5) VNone).
Proof.
  exact (canonical_tx_idempotent (example_raw (VInt 5) VNone)
           (example_record (VInt 5) VNone) eq_refl).
Defined.

(** X4. A provider that sends an integer field as a value [int] accepts
    and one that sends the number it stands for are canonicalised alike:
    replacing the number by such a value changes nothing in the outcome of
    canonical_tx. Such values are the decimal texts of up to 4300 digits,
    as [str] or as [bytes], among them the numeral of the number itself when
    [str] can write it. *)
Theorem canonical_tx_text_or_number (tx : dict) (k : string) :
  In k (required_int_fields ++ optional_int_fields) ->
  (forall v z,
      py_int v = Ok z ->
      canonical_tx (dict_set k v tx) = canonical_tx (dict_set k (VInt z) tx))
  /\ (forall lead sg d marks trail,
         blanks lead = true -> blanks trail = true -> d <> Decimal.Nil ->
         (Decimal.nb_digits d <= max_str_digits)%nat ->
         let text := decimal_text lead sg d marks trail in
         let number := VInt (signed sg (Z.of_uint d)) in
         canonical_tx (dict_set k (VStr text) tx)
         = canonical_tx (dict_set k number tx)
         /\ canonical_tx (dict_set k (VBytes (list_byte_of_string text)) tx)
            = canonical_tx (dict_set k number tx))
  /\ (forall z,
         (int_digits z <= max_str_digits)%nat ->
         canonical_tx (dict_set k (VStr (decimal z)) tx)
         = canonical_tx (dict_set k (VInt z) tx)
         /\ canonical_tx
              (dict_set k (VBytes (list_byte_of_string (decimal z))) tx)
            = canonical_tx (dict_set k (VInt z) tx)).
Proof.
  intros Hk.
  assert (G : forall v z, py_int v = Ok z ->
              canonical_tx (dict_set k v tx)
              = canonical_tx (dict_set k (VInt z) tx)).
  { intros v z Hv.
    assert (Hn : v <> VNone) by (intros ->; discriminate Hv).
    apply canonical_tx_from_fields.
    - unfold hash_field, py_get, get_default.
      rewrite !get_dict_set_other; [reflexivity| |];
        intros <-; cbv in Hk; intuition discriminate.
    - intros k' Hk'. unfold py_get, get_default.
      rewrite !get_dict_set_other; [reflexivity| |];
        intros ->; each_field Hk'; cbv in Hk; intuition discriminate.
    - intros k' Hk'. rewrite !int_field_spec.
      destruct (string_dec k' k) as [->|Hne].
      + rewrite !get_dict_set_same, Hv. reflexivity.
      + now rewrite !get_dict_set_other.
    - intros k' Hk'. rewrite !opt_int_field_spec.
      destruct (string_dec k' k) as [->|Hne].
      + rewrite !get_dict_set_same, Hv.
        destruct v; try reflexivity. now elim Hn.
      + now rewrite !get_dict_set_other. }
  splits.
  - exact G.
  - intros lead sg d marks trail Hl Ht Hd Hn text number.
    apply Nat.leb_le in Hn.
    destruct (py_int_decimal_text lead sg d marks trail Hl Ht Hd) as [Ps Pb].
    rewrite Hn in Ps, Pb. split; apply G; assumption.
  - intros z Hz. destruct (py_int_decimal z Hz) as (_ & Ps & Pb).
    split; apply G; assumption.
Qed.

Lemma canonical_tx_text_or_number_witness :
  canonical_tx (dict_set "value" (VStr "1000000000000000000")
                  (example_raw (VInt 5) VNone))
  = Ok (example_record (VInt 5) VNone).
Proof.
  refine (proj1 (proj2 (proj2 (canonical_tx_text_or_number
                                 (example_raw (VInt 5) VNone) "value"
                                 (or_intror (or_introl eq_refl))))
                   1000000000000000000%Z _)).
  apply Nat.leb_le. vm_compute. reflexivity.
Defined.

(** ** The form of a digest *)

Lemma iota_length rc st : List.length (Keccak.iota rc st) = List.length st.
Proof. now destruct st. Qed.

Lemma round_length st rc : List.length (Keccak.round st rc) = 25.
Proof.
  unfold Keccak.round, Keccak.chi.
  now rewrite iota_length, length_map.
Qed.

Lemma absorb_length fuel st msg :
  List.length st = 25 -> List.length (Keccak.absorb fuel st msg) = 25.
Proof.
  revert st msg. induction fuel as [|f IH]; intros st msg H.
  - now destruct msg.
  - destruct msg as [|m r]; [exact H|].
    cbn [Keccak.absorb]. apply IH.
    unfold Keccak.keccak_f, Keccak.round_constants.
    cbn [fold_left]. apply round_length.
Qed.

(** Keccak-256 gives thirty-two bytes. *)
Lemma keccak256_length data : List.length (Keccak.keccak256 data) = 32.
Proof.
  unfold Keccak.keccak256. rewrite length_map.
  set (st := Keccak.absorb _ _ _).
  assert (H : List.length st = 25) by (apply absorb_length; reflexivity).
  do 4 (destruct st as [|? st]; [discriminate H|]).
  reflexivity.
Qed.

Lemma hex_digit_is_hex n : is_hex_char (hex_digit n) = true.
Proof.
  unfold hex_digit.
  assert (H : forall k, is_hex_char
                (nth k (list_ascii_of_string "0123456789abcdef") "0"%char)
              = true).
  { intros k. do 17 (destruct k as [|k]; [reflexivity|]). now destruct k. }
  apply H.
Qed.

Lemma bytes_hex_chars bs :
  List.length (list_ascii_of_string (bytes_hex bs)) = 2 * List.length bs
  /\ forallb is_hex_char (list_ascii_of_string (bytes_hex bs)) = true.
Proof.
  induction bs as [|b r [IHl IHh]]; [split; reflexivity|].
  cbn [bytes_hex byte_hex String.append list_ascii_of_string
         List.length forallb].
  rewrite IHl, IHh, !hex_digit_is_hex. split; [lia|reflexivity].
Qed.

Lemma hex_digit_lower n : is_lower_hex (hex_digit n) = true.
Proof.
  unfold hex_digit.
  assert (H : forall k, is_lower_hex
                (nth k (list_ascii_of_string "0123456789abcdef") "0"%char)
              = true).
  { intros k. do 17 (destruct k as [|k]; [reflexivity|]). now destruct k. }
  apply H.
Qed.

Lemma bytes_hex_lower bs :
  forallb is_lower_hex (list_ascii_of_string (bytes_hex bs)) = true.
Proof.
  induction bs as [|b r IH]; [reflexivity|].
  cbn [bytes_hex byte_hex String.append list_ascii_of_string forallb].
  now rewrite IH, !hex_digit_lower.
Qed.

Lemma root_of_lowercase s : lowercase_hash (root_of s) = true.
Proof.
  unfold lowercase_hash, root_of.
  cbn [String.append list_ascii_of_string].
  destruct (bytes_hex_chars (Keccak.keccak256 (encode s))) as [Hl _].
  rewrite Hl, bytes_hex_lower, keccak256_length. reflexivity.
Qed.

Lemma root_of_well_formed s : well_formed_hash (root_of s) = true.
Proof.
  unfold well_formed_hash, root_of.
  cbn [String.append list_ascii_of_string].
  destruct (bytes_hex_chars (Keccak.keccak256 (encode s))) as [Hl Hh].
  rewrite Hl, Hh, keccak256_length. reflexivity.
Qed.

(** X5. Whatever can be serialised has a digest, and every digest is
    [0x] followed by sixty-four lowercase hexadecimal characters, sixty-six
    characters in all: a root reported by the program has the form of a
    transaction hash and passes the test main makes on its argument.
    keccak_json returns it and takes one digest. ([HexBytes.hex()] is the
    builtin [bytes.hex()], as from hexbytes 1.0 on.) *)
Theorem digest_has_hash_form (obj : pyval) (t : list event) :
  (forall r, digest obj = Ok r ->
             lowercase_hash r = true
             /\ well_formed_hash r = true /\ hash_gate r = true
             /\ py_len r = 66)
  /\ (serializable obj = true ->
      exists s,
        json_dumps obj = Ok s
        /\ digest obj = Ok (root_of s)
        /\ keccak_json obj t = (Ret (root_of s), t ++ [EvKeccak (encode s)]))
  /\ (forall txh, lowercase_hash txh = true -> well_formed_hash txh = true).
Proof.
  splits.
  - intros r H. unfold digest in H.
    destruct (json_dumps obj) as [s|e]; [|discriminate H].
    cbn in H. injection H as <-. fold (root_of s).
    pose proof (root_of_well_formed s) as W.
    pose proof (hash_gate_accepts _ W) as G.
    splits; try assumption; [apply root_of_lowercase|].
    unfold hash_gate in G. apply andb_true_iff in G as [_ G].
    now apply Nat.eqb_eq in G.
  - intros S. destruct (serializable_dumps obj S) as [s Es].
    exists s. splits; [exact Es|now apply digest_dumps|].
    now rewrite keccak_json_run, Es.
  - intros txh. unfold lowercase_hash, well_formed_hash.
    destruct (list_ascii_of_string txh) as [|c0 [|c1 r]];
      try discriminate;
      try (destruct c0 as [[] [] [] [] [] [] [] []]; discriminate).
    intros H.
    destruct (Ascii.eqb_spec c0 "0") as [->|N0];
      [|destruct c0 as [[] [] [] [] [] [] [] []]; try discriminate H;
        now elim N0].
    destruct (Ascii.eqb_spec c1 "x") as [->|N1];
      [|destruct c1 as [[] [] [] [] [] [] [] []]; try discriminate H;
        now elim N1].
    apply andb_true_iff in H as [Hl Hh]. rewrite Hl. cbn [andb].
    rewrite forallb_forall in *. intros c Hc. specialize (Hh c Hc).
    unfold is_lower_hex in Hh. unfold is_hex_char.
    apply orb_true_iff in Hh as [Hh|Hh]; rewrite Hh;
      [reflexivity|apply orb_true_r].
Qed.

Lemma digest_has_hash_form_witness :
  lowercase_hash
    "0x223ab73ce948b24e2c3f7b89956969a09eefdcef89d3e29dace1d3f2b9c502b6"
  = true
  /\ exists s,
      digest (VDict (example_record (VInt 5) VNone)) = Ok (root_of s).
Proof.
  destruct (digest_has_hash_form (VDict (example_record (VInt 5) VNone)) [])
    as (F & S & _).
  split.
  - apply (F "0x223ab73ce948b24e2c3f7b89956969a09eefdcef89d3e29dace1d3f2b9c502b6").
    vm_compute. reflexivity.
  - destruct (S eq_refl) as (s & _ & D & _). now exists s.
Defined.

(** ** The order of the fields *)

(** X6. The digest does not depend on the order in which the fields of a
    record are held: two records with the same entries in any order are
    serialised to the same text, have the same digest, and keccak_json
    behaves alike on them. *)
Theorem digest_ignores_field_order (a b : dict) :
  NoDup (keys a) ->
  Permutation a b ->
  json_dumps (VDict a) = json_dumps (VDict b)
  /\ digest (VDict a) = digest (VDict b)
  /\ (forall t, keccak_json (VDict a) t = keccak_json (VDict b) t).
Proof.
  intros Hnd Hp.
  assert (E : json_dumps (VDict a) = json_dumps (VDict b)).
  { rewrite !json_dumps_dict. do 2 f_equal.
    apply sort_on_perm_eq; [|now apply Permutation_map].
    rewrite map_map. exact Hnd. }
  splits.
  - exact E.
  - unfold digest. now rewrite E.
  - intros t. now rewrite !keccak_json_run, E.
Qed.

Lemma digest_ignores_field_order_witness :
  digest (VDict (List.rev (example_record (VInt 5) VNone)))
  = digest (VDict (example_record (VInt 5) VNone)).
Proof.
  symmetry.
  apply (digest_ignores_field_order (example_record (VInt 5) VNone)
           (List.rev (example_record (VInt 5) VNone))).
  - apply distinct_NoDup. reflexivity.
  - apply Permutation_rev.
Defined.

(** ** fetch_tx *)

Section FetchShape.
Variable str_of_exn : exn -> string.
Variable world : string -> provider.

(** X7. fetch_tx always returns, after exactly one call of
    get_transaction: it never raises and never ends the program. What it
    returns is fixed by the provider's answer: the canonical record of the
    transaction when canonical_tx accepts it, which has the eighteen fields
    and no [error] key; the error record with the text of the exception
    when canonical_tx raises or the provider does; and the error record
    "transaction not found" when the provider has none. So the record is
    free of an [error] key exactly when the provider returned a transaction
    that canonical_tx accepts. *)
Theorem fetch_tx_always_returns (w3 tx_hash : string) (t : list event) :
  exists rec,
    fetch_tx str_of_exn world w3 tx_hash t
    = (Ret rec, t ++ [EvGetTransaction w3 tx_hash])
    /\ (forall tx c,
           get_transaction (world w3) tx_hash = Ok (Some tx) ->
           canonical_tx tx = Ok c ->
           rec = c /\ has_key "error" c = false /\ keys c = canonical_fields)
    /\ (forall tx e,
           get_transaction (world w3) tx_hash = Ok (Some tx) ->
           canonical_tx tx = Err e ->
           rec = [ ("error", VStr (str_of_exn e)) ])
    /\ (get_transaction (world w3) tx_hash = Ok None ->
        rec = [ ("error", VStr "transaction not found") ])
    /\ (forall e,
           get_transaction (world w3) tx_hash = Err e ->
           rec = [ ("error", VStr (str_of_exn e)) ])
    /\ (has_key "error" rec = false <->
        exists tx,
          get_transaction (world w3) tx_hash = Ok (Some tx)
          /\ canonical_tx tx = Ok rec).
Proof.
  exists (fetched str_of_exn world w3 tx_hash).
  split; [apply fetch_tx_run|].
  unfold fetched.
  destruct (get_transaction (world w3) tx_hash) as [[tx|]|e] eqn:G.
  - destruct (canonical_tx tx) as [c|e] eqn:C.
    + pose proof (canonical_no_error tx c C) as E.
      pose proof (fo_keys tx c (canonical_tx_inv tx c C)) as K.
      splits.
      * intros tx' c' [= <-]. rewrite C. intros [= <-]. now splits.
      * intros tx' e' [= <-]. rewrite C. discriminate.
      * discriminate.
      * discriminate.
      * split; [intros _; now exists tx|intros _; exact E].
    + splits.
      * intros tx' c' [= <-]. rewrite C. discriminate.
      * intros tx' e' [= <-]. rewrite C. now intros [= <-].
      * discriminate.
      * discriminate.
      * split; [discriminate|].
        intros (tx' & [= <-] & C'). rewrite C in C'. discriminate C'.
  - splits; try discriminate; try reflexivity.
    split; [discriminate|]. intros (tx' & G' & _). discriminate G'.
  - splits; try discriminate.
    + now intros e' [= <-].
    + split; [discriminate|]. intros (tx' & G' & _). discriminate G'.
Qed.

End FetchShape.

Lemma fetch_tx_always_returns_witness :
  fetch_tx (fun _ => "") example_world "B" hash_as_text []
  = (Ret (example_record (VInt 5) VNone),
     [EvGetTransaction "B" hash_as_text])
  /\ fetch_tx (fun _ => "") example_world "A" hash_as_text []
     = (Ret [ ("error", VStr "transaction not found") ],
        [EvGetTransaction "A" hash_as_text]).
Proof.
  split.
  - destruct (fetch_tx_always_returns (fun _ => "") example_world
                "B" hash_as_text []) as (rec & R & H & _).
    destruct (H (example_raw (VInt 5) VNone) (example_record (VInt 5) VNone)
                eq_refl eq_refl) as (-> & _).
    exact R.
  - destruct (fetch_tx_always_returns (fun _ => "") example_world
                "A" hash_as_text []) as (rec & R & _ & _ & H & _).
    rewrite (H eq_refl) in R. exact R.
Defined.

(** ** Records with the same fields *)

Lemma py_get_In a k v : NoDup (keys a) -> In (k, v) a -> py_get a k = v.
Proof.
  intros Hnd HI. unfold py_get, get_default. now rewrite (In_get k a v Hnd HI).
Qed.

Lemma dict_eq_same_keys a b :
  NoDup (keys a) -> keys a = keys b ->
  dict_eq a b = true <->
  (forall k, In k (keys a) -> py_eq (py_get a k) (py_get b k) = true).
Proof.
  intros Hnd Hk. unfold dict_eq. rewrite py_eq_dict.
  assert (Hl : List.length a = List.length b).
  { unfold keys in Hk. apply (f_equal (@List.length string)) in Hk.
    now rewrite !length_map in Hk. }
  rewrite Hl, Nat.eqb_refl. cbn [andb]. rewrite forallb_forall. split.
  - intros H k HI. apply in_map_iff in HI as ([k' v] & <- & Hkv).
    specialize (H _ Hkv). unfold entry_eq in H. cbn in *.
    rewrite (py_get_In a k' v Hnd Hkv).
    unfold py_get, get_default. now destruct (get k' b).
  - intros H [k v] Hkv. unfold entry_eq. cbn.
    assert (HI : In k (keys a)).
    { change k with (fst (k, v)). now apply in_map. }
    specialize (H k HI). rewrite (py_get_In a k v Hnd Hkv) in H.
    assert (HIb : In k (keys b)) by now rewrite <- Hk.
    apply has_key_In in HIb. unfold has_key in HIb.
    unfold py_get, get_default in H.
    destruct (get k b); [exact H|discriminate HIb].
Qed.

Lemma filter_nil_iff {A : Type} (f : A -> bool) l :
  filter f l = [] <-> (forall x, In x l -> f x = false).
Proof.
  induction l as [|x r IH]; cbn; [tauto|].
  destruct (f x) eqn:E.
  - split; [discriminate|]. intros H. specialize (H x (or_introl eq_refl)).
    congruence.
  - rewrite IH. split.
    + intros H y [<-|Hy]; auto.
    + intros H y Hy. apply H. now right.
Qed.

Lemma field_diffs_nil a b :
  field_diffs a b = [] <->
  (forall k, In k (keys a) \/ In k (keys b) ->
             py_eq (py_get a k) (py_get b k) = true).
Proof.
  unfold field_diffs. split.
  - intros H k Hk. apply map_eq_nil in H.
    apply sorted_union_In in Hk.
    pose proof (proj1 (filter_nil_iff _ _) H k Hk) as E.
    now apply negb_false_iff in E.
  - intros H.
    assert (E : filter (fun k => negb (py_eq (py_get a k) (py_get b k)))
                  (sorted_union (keys a) (keys b)) = []).
    { apply filter_nil_iff. intros k Hk. apply negb_false_iff, H.
      now apply sorted_union_In. }
    now rewrite E.
Qed.

(** X8. For two records returned by canonical_tx the comparison and the
    field diff agree: the records are equal under [==] exactly when the
    diff is empty, so a [Mismatch] of two canonical records always names a
    field, one of the eighteen, and never more than eighteen. (For records
    with different key sets this fails: [{"x": None}] and [{}] are unequal
    with an empty diff.) *)
Theorem canonical_mismatch_names_a_field (ta tb a b : dict) :
  canonical_tx ta = Ok a ->
  canonical_tx tb = Ok b ->
  (dict_eq a b = true <-> field_diffs a b = [])
  /\ (dict_eq a b = false ->
      exists k va vb,
        In k canonical_fields
        /\ In (k, VDict [ ("a", va); ("b", vb) ]) (field_diffs a b))
  /\ incl (keys (field_diffs a b)) canonical_fields
  /\ List.length (field_diffs a b) <= 18
  /\ (dict_eq [ ("x", VNone) ] [] = false
      /\ field_diffs [ ("x", VNone) ] [] = []).
Proof.
  intros Ha Hb.
  pose proof (fo_keys _ _ (canonical_tx_inv ta a Ha)) as Ka.
  pose proof (fo_keys _ _ (canonical_tx_inv tb b Hb)) as Kb.
  assert (Hnd : NoDup (keys a)).
  { rewrite Ka. apply distinct_NoDup. reflexivity. }
  assert (Hk : keys a = keys b) by congruence.
  assert (Iff : dict_eq a b = true <-> field_diffs a b = []).
  { rewrite (dict_eq_same_keys a b Hnd Hk), field_diffs_nil.
    rewrite <- Hk. split; intros H k; [intros [HI|HI]|intros HI]; auto. }
  assert (Incl : incl (keys (field_diffs a b)) canonical_fields).
  { rewrite field_diffs_keys. intros k HI.
    apply filter_In in HI as [HI _]. apply sorted_union_In in HI.
    rewrite Ka, Kb in HI. tauto. }
  splits.
  - exact Iff.
  - intros E. destruct (field_diffs a b) as [|[k e] r] eqn:D.
    + rewrite (proj2 Iff eq_refl) in E. discriminate E.
    + assert (HI : In (k, e) (field_diffs a b)) by (rewrite D; now left).
      pose proof (proj1 (field_diffs_In a b k e) HI) as (Hin & _ & ->).
      exists k, (py_get a k), (py_get b k). split.
      * rewrite Ka, Kb in Hin. tauto.
      * now left.
  - exact Incl.
  - unfold field_diffs. rewrite length_map.
    etransitivity; [apply filter_length_le|].
    rewrite Ka, Kb. vm_compute. reflexivity.
  - reflexivity.
  - reflexivity.
Qed.

Lemma canonical_mismatch_names_a_field_witness :
  exists k va vb,
    In k canonical_fields
    /\ In (k, VDict [ ("a", va); ("b", vb) ])
         (field_diffs (example_record (VInt 5) VNone)
            (example_record (VInt 6) VNone)).
Proof.
  destruct (canonical_mismatch_names_a_field
              (example_raw (VInt 5) VNone) (example_raw (VInt 6) VNone)
              (example_record (VInt 5) VNone) (example_record (VInt 6) VNone)
              eq_refl eq_refl) as (_ & H & _).
  exact (H eq_refl).
Defined.

(** ** The two sides exchanged *)

Lemma well_formed_entry kvs k v :
  well_formed (VDict kvs) = true -> In (k, v) kvs -> well_formed v = true.
Proof.
  rewrite well_formed_dict. intros H HI.
  apply andb_true_iff in H as [_ H]. rewrite forallb_forall in H.
  exact (H _ HI).
Qed.

Lemma entries_eq_swap a b :
  NoDup (keys a) -> NoDup (keys b) ->
  List.length a = List.length b ->
  (forall k v v', In (k, v) a -> In (k, v') b -> py_eq v v' = py_eq v' v) ->
  forallb (entry_eq b) a = true -> forallb (entry_eq a) b = true.
Proof.
  intros Da Db Hl Hs H. rewrite forallb_forall in *.
  assert (Iab : incl (keys a) (keys b)).
  { intros k HI. apply in_map_iff in HI as ([k' v] & <- & Hkv).
    specialize (H _ Hkv). unfold entry_eq in H. cbn in *.
    destruct (get k' b) eqn:G; [|discriminate H].
    apply get_In in G. change k' with (fst (k', p)). now apply in_map. }
  assert (Iba : incl (keys b) (keys a)).
  { apply NoDup_length_incl; [exact Da| |exact Iab].
    unfold keys. rewrite !length_map. lia. }
  intros [k w] Hkw. unfold entry_eq. cbn.
  assert (HI : In k (keys a)).
  { apply Iba. change k with (fst (k, w)). now apply in_map. }
  apply has_key_In in HI. unfold has_key in HI.
  destruct (get k a) as [v|] eqn:G; [|discriminate HI].
  apply get_In in G. specialize (H _ G). unfold entry_eq in H. cbn in H.
  rewrite (In_get k b w Db Hkw) in H.
  now rewrite <- (Hs k v w G Hkw).
Qed.

(** [==] does not depend on the side a value is on. *)
Lemma py_eq_sym x :
  forall y, well_formed x = true -> well_formed y = true ->
            py_eq x y = py_eq y x.
Proof.
  induction x using pyval_ind; intros y Wx Wy; destruct y; try reflexivity.
  - cbn. now destruct b, b0.
  - cbn. apply Z.eqb_sym.
  - cbn. apply Z.eqb_sym.
  - cbn. apply Z.eqb_sym.
  - cbn. apply String.eqb_sym.
  - cbn. clear Wx Wy. revert bs0.
    induction bs as [|b r IH]; intros [|c q]; cbn; try reflexivity.
    rewrite IH. f_equal. destruct (Byte.eqb b c) eqn:E.
    + apply Byte.byte_dec_bl in E. subst c. symmetry.
      now apply Byte.byte_dec_lb.
    + destruct (Byte.eqb c b) eqn:E'; [|reflexivity].
      apply Byte.byte_dec_bl in E'. subst c.
      rewrite (@Byte.byte_dec_lb b b eq_refl) in E. discriminate E.
  - rewrite !py_eq_list. rewrite well_formed_list in Wx, Wy.
    rename xs0 into ys. revert ys Wy.
    induction H as [|x r Hx Hr IH]; intros [|y q] Wy; try reflexivity.
    cbn [forallb all2] in *.
    apply andb_true_iff in Wx as [Wx1 Wx2], Wy as [Wy1 Wy2].
    now rewrite (Hx y Wx1 Wy1), (IH Wx2 q Wy2).
  - rename kvs into a, kvs0 into b. rewrite !py_eq_dict.
    rewrite (Nat.eqb_sym (List.length b)).
    destruct (Nat.eqb_spec (List.length a) (List.length b)) as [Hl|];
      [|reflexivity].
    cbn [andb].
    pose proof Wx as Wa. pose proof Wy as Wb.
    rewrite well_formed_dict in Wx, Wy.
    apply andb_true_iff in Wx as [Da _], Wy as [Db _].
    apply distinct_NoDup in Da, Db.
    rewrite Forall_forall in H.
    assert (Hs : forall k v v', In (k, v) a -> In (k, v') b ->
                                py_eq v v' = py_eq v' v).
    { intros k v v' Hv Hv'. apply (H _ Hv); cbn.
      - exact (well_formed_entry a k v Wa Hv).
      - exact (well_formed_entry b k v' Wb Hv'). }
    destruct (forallb (entry_eq b) a) eqn:E1;
      destruct (forallb (entry_eq a) b) eqn:E2; try reflexivity.
    + rewrite (entries_eq_swap a b Da Db Hl Hs E1) in E2. discriminate E2.
    + assert (Hs' : forall k v' v, In (k, v') b -> In (k, v) a ->
                                   py_eq v' v = py_eq v v').
      { intros k v' v Hv' Hv. symmetry. now apply (Hs k). }
      rewrite (entries_eq_swap b a Db Da (eq_sym Hl) Hs' E2) in E1.
      discriminate E1.
Qed.

Lemma well_formed_py_get a k :
  well_formed (VDict a) = true -> well_formed (py_get a k) = true.
Proof.
  intros W. unfold py_get, get_default.
  destruct (get k a) as [v|] eqn:G; [|reflexivity].
  apply get_In in G. exact (well_formed_entry a k v W G).
Qed.

Lemma sorted_union_comm a b : sorted_union a b = sorted_union b a.
Proof.
  unfold sorted_union. apply sort_on_perm_eq.
  - rewrite map_id. apply NoDup_nodup.
  - apply NoDup_Permutation; try apply NoDup_nodup.
    intros k. rewrite !nodup_In, !in_app_iff. tauto.
Qed.

(** X9. The verdict does not depend on which provider is called A: for
    records whose dicts have distinct keys, [tx_a == tx_b] and
    [tx_b == tx_a] agree, the diff of (b, a) has the keys of the diff of
    (a, b) in the same order, and each entry has its two values
    exchanged. *)
Theorem comparison_is_symmetric (a b : dict) :
  well_formed (VDict a) = true ->
  well_formed (VDict b) = true ->
  dict_eq a b = dict_eq b a
  /\ keys (field_diffs b a) = keys (field_diffs a b)
  /\ (forall k va vb,
         In (k, VDict [ ("a", va); ("b", vb) ]) (field_diffs a b) <->
         In (k, VDict [ ("a", vb); ("b", va) ]) (field_diffs b a))
  /\ (forall t,
         has_key "error" a || has_key "error" b = true ->
         compare_txs b a t
         = (Ret (FetchFailure (py_get b "error") (py_get a "error")), t)).
Proof.
  intros Wa Wb.
  assert (S : forall k, py_eq (py_get b k) (py_get a k)
                        = py_eq (py_get a k) (py_get b k)).
  { intros k. apply py_eq_sym; now apply well_formed_py_get. }
  splits.
  - now apply py_eq_sym.
  - rewrite !field_diffs_keys, (sorted_union_comm (keys b) (keys a)).
    apply filter_ext. intros k. now rewrite S.
  - intros k va vb. rewrite !field_diffs_In, S. split.
    + intros (Hk & Hd & [= -> ->]). splits; [tauto|exact Hd|reflexivity].
    + intros (Hk & Hd & [= -> ->]). splits; [tauto|exact Hd|reflexivity].
  - intros t E. apply compare_txs_error. now rewrite orb_comm.
Qed.

Lemma comparison_is_symmetric_witness :
  dict_eq (example_record (VInt 6) VNone) (example_record (VInt 5) VNone)
  = false
  /\ In ("nonce", VDict [ ("a", VInt 6); ("b", VInt 5) ])
       (field_diffs (example_record (VInt 6) VNone)
          (example_record (VInt 5) VNone)).
Proof.
  destruct (comparison_is_symmetric
              (example_record (VInt 5) VNone) (example_record (VInt 6) VNone)
              eq_refl eq_refl) as (E & _ & D & _).
  split.
  - rewrite <- E. reflexivity.
  - refine (proj1 (D "nonce" (VInt 5) (VInt 6)) _).
    vm_compute. left. reflexivity.
Defined.

(** ** The outcomes of compare_txs *)



(** ** main, from the command line to the comparison *)

Section MainRuns.
Variable str_of_exn : exn -> string.
Variable world : string -> provider.
Variable environ : string -> option string.

Lemma main_reaches_compare argv chain :
  2 <= List.length argv ->
  hash_gate (nth 1 argv "") = true ->
  is_connected (world (source_a environ argv)) = true ->
  is_connected (world (source_b environ argv)) = true ->
  chain_id (world (source_a environ argv)) = Ok chain ->
  chain_id (world (source_b environ argv)) = Ok chain ->
  main str_of_exn world environ argv []
  = (r <-- compare_txs
             (fetched str_of_exn world (source_a environ argv) (nth 1 argv ""))
             (fetched str_of_exn world (source_b environ argv) (nth 1 argv "")) ;;
     report r)
      (preflight_events (source_a environ argv) (source_b environ argv)
         (nth 1 argv "") chain).
Proof.
  intros Hlen Hgate HcA HcB HiA HiB. unfold main.
  replace (List.length argv <? 2)%nat with false
    by (symmetry; apply Nat.ltb_ge; exact Hlen).
  cbv zeta. unfold hash_gate in Hgate. rewrite Hgate.
  change (if (2 <? List.length argv)%nat then nth 2 argv ""
          else DEFAULT_RPC_A environ)
    with (source_a environ argv).
  change (if (3 <? List.length argv)%nat then nth 3 argv ""
          else DEFAULT_RPC_B environ)
    with (source_b environ argv).
  set (A := source_a environ argv) in *.
  set (B := source_b environ argv) in *.
  set (txh := nth 1 argv "") in *.
  unfold preflight_events, warning_events, probe_events.
  unfold connect, when, print, lift.
  unfold bind, emit, ret, sys_exit, raise.
  cbn [negb].
  destruct (String.eqb A B);
    destruct (contains "your_api_key" A || contains "your_api_key" B);
    destruct (contains " " A); cbn [app];
    rewrite HcA; cbn [negb app];
    destruct (contains " " B); cbn [app];
    rewrite HcB; cbn [negb app];
    rewrite HiA, HiB; cbn [app]; rewrite Z.eqb_refl; cbn [negb app];
    rewrite fetch_tx_run; cbn [app]; rewrite fetch_tx_run; cbn [app];
    reflexivity.
Qed.

(** The first steps of main, shared by the runs below. *)
Ltac enter_main argv Hlen Hgate :=
  unfold main;
  replace (List.length argv <? 2)%nat with false
    by (symmetry; apply Nat.ltb_ge; exact Hlen);
  cbv zeta; unfold hash_gate in Hgate; rewrite Hgate;
  change (if (2 <? List.length argv)%nat then nth 2 argv ""
          else DEFAULT_RPC_A environ)
    with (source_a environ argv);
  change (if (3 <? List.length argv)%nat then nth 3 argv ""
          else DEFAULT_RPC_B environ)
    with (source_b environ argv);
  unfold warning_events, probe_events;
  unfold connect, when, print, lift;
  unfold bind, emit, ret, sys_exit, raise;
  cbn [negb].

Lemma main_usage argv :
  List.length argv < 2 ->
  main str_of_exn world environ argv []
  = (Exit 1, [ EvPrint MsgUsage; EvPrint MsgUsageSynopsis;
               EvPrint MsgExample; EvPrint MsgExampleLine ]).
Proof.
  intros H. unfold main. apply Nat.ltb_lt in H. rewrite H. reflexivity.
Qed.

Lemma main_first_unreachable argv :
  2 <= List.length argv ->
  hash_gate (nth 1 argv "") = true ->
  is_connected (world (source_a environ argv)) = false ->
  main str_of_exn world environ argv []
  = (Exit 1,
     warning_events (source_a environ argv) (source_b environ argv)
     ++ probe_events (source_a environ argv)
     ++ [EvPrint (MsgConnectFailed (source_a environ argv))]).
Proof.
  intros Hlen Hgate HcA. enter_main argv Hlen Hgate.
  set (A := source_a environ argv) in *.
  set (B := source_b environ argv) in *.
  destruct (String.eqb A B);
    destruct (contains "your_api_key" A || contains "your_api_key" B);
    destruct (contains " " A); cbn [app];
    rewrite HcA; reflexivity.
Qed.

Lemma main_second_unreachable argv :
  2 <= List.length argv ->
  hash_gate (nth 1 argv "") = true ->
  is_connected (world (source_a environ argv)) = true ->
  is_connected (world (source_b environ argv)) = false ->
  main str_of_exn world environ argv []
  = (Exit 1,
     warning_events (source_a environ argv) (source_b environ argv)
     ++ probe_events (source_a environ argv)
     ++ probe_events (source_b environ argv)
     ++ [EvPrint (MsgConnectFailed (source_b environ argv))]).
Proof.
  intros Hlen Hgate HcA HcB. enter_main argv Hlen Hgate.
  set (A := source_a environ argv) in *.
  set (B := source_b environ argv) in *.
  destruct (String.eqb A B);
    destruct (contains "your_api_key" A || contains "your_api_key" B);
    destruct (contains " " A); cbn [app];
    rewrite HcA; cbn [negb app];
    destruct (contains " " B); cbn [app];
    rewrite HcB; reflexivity.
Qed.

Lemma main_first_chain_raises argv e :
  2 <= List.length argv ->
  hash_gate (nth 1 argv "") = true ->
  is_connected (world (source_a environ argv)) = true ->
  is_connected (world (source_b environ argv)) = true ->
  chain_id (world (source_a environ argv)) = Err e ->
  main str_of_exn world environ argv []
  = (Raise e,
     warning_events (source_a environ argv) (source_b environ argv)
     ++ probe_events (source_a environ argv)
     ++ probe_events (source_b environ argv)
     ++ [EvChainId (source_a environ argv)]).
Proof.
  intros Hlen Hgate HcA HcB HiA. enter_main argv Hlen Hgate.
  set (A := source_a environ argv) in *.
  set (B := source_b environ argv) in *.
  destruct (String.eqb A B);
    destruct (contains "your_api_key" A || contains "your_api_key" B);
    destruct (contains " " A); cbn [app];
    rewrite HcA; cbn [negb app];
    destruct (contains " " B); cbn [app];
    rewrite HcB; cbn [negb app];
    rewrite HiA; reflexivity.
Qed.

Lemma main_second_chain_raises argv chainA e :
  2 <= List.length argv ->
  hash_gate (nth 1 argv "") = true ->
  is_connected (world (source_a environ argv)) = true ->
  is_connected (world (source_b environ argv)) = true ->
  chain_id (world (source_a environ argv)) = Ok chainA ->
  chain_id (world (source_b environ argv)) = Err e ->
  main str_of_exn world environ argv []
  = (Raise e,
     warning_events (source_a environ argv) (source_b environ argv)
     ++ probe_events (source_a environ argv)
     ++ probe_events (source_b environ argv)
     ++ [ EvChainId (source_a environ argv);
          EvChainId (source_b environ argv) ]).
Proof.
  intros Hlen Hgate HcA HcB HiA HiB. enter_main argv Hlen Hgate.
  set (A := source_a environ argv) in *.
  set (B := source_b environ argv) in *.
  destruct (String.eqb A B);
    destruct (contains "your_api_key" A || contains "your_api_key" B);
    destruct (contains " " A); cbn [app];
    rewrite HcA; cbn [negb app];
    destruct (contains " " B); cbn [app];
    rewrite HcB; cbn [negb app];
    rewrite HiA, HiB; reflexivity.
Qed.

Lemma main_chains_differ argv chainA chainB :
  2 <= List.length argv ->
  hash_gate (nth 1 argv "") = true ->
  is_connected (world (source_a environ argv)) = true ->
  is_connected (world (source_b environ argv)) = true ->
  chain_id (world (source_a environ argv)) = Ok chainA ->
  chain_id (world (source_b environ argv)) = Ok chainB ->
  chainA <> chainB ->
  main str_of_exn world environ argv []
  = (Exit 3,
     warning_events (source_a environ argv) (source_b environ argv)
     ++ probe_events (source_a environ argv)
     ++ probe_events (source_b environ argv)
     ++ [ EvChainId (source_a environ argv);
          EvChainId (source_b environ argv);
          EvPrint (MsgRpcA (source_a environ argv) chainA);
          EvPrint (MsgRpcB (source_b environ argv) chainB);
          EvPrint MsgChainMismatch ]).
Proof.
  intros Hlen Hgate HcA HcB HiA HiB Hne. enter_main argv Hlen Hgate.
  set (A := source_a environ argv) in *.
  set (B := source_b environ argv) in *.
  apply Z.eqb_neq in Hne.
  destruct (String.eqb A B);
    destruct (contains "your_api_key" A || contains "your_api_key" B);
    destruct (contains " " A); cbn [app];
    rewrite HcA; cbn [negb app];
    destruct (contains " " B); cbn [app];
    rewrite HcB; cbn [negb app];
    rewrite HiA, HiB; cbn [app]; rewrite Hne; reflexivity.
Qed.

End MainRuns.

(** ** The end of main *)

Lemma report_match info t :
  report (true, info) t =
  match get "root" info with
  | Some root =>
      (Ret tt, t ++ [ EvPrint MsgMatch; EvPrint (MsgRoot root);
                      EvPrint MsgElapsed ])
  | None => (Raise (KeyError "root"), t ++ [EvPrint MsgMatch])
  end.
Proof.
  unfold report, subscript, lift, print, bind, emit, ret, raise.
  destruct (get "root" info); [|reflexivity].
  now rewrite <- !app_assoc.
Qed.

Lemma report_differ info t :
  report (false, info) t =
  match unserializable (VDict info) with
  | Some u => (Raise (dumps_error u), t ++ [EvPrint MsgDiffer])
  | None =>
      (Ret tt, t ++ [ EvPrint MsgDiffer; EvPrint (MsgInfo info);
                      EvPrint MsgElapsed ])
  end.
Proof.
  unfold report, print, bind, emit, ret, raise.
  destruct (unserializable (VDict info)); [reflexivity|].
  now rewrite <- !app_assoc.
Qed.

Lemma serializable_None v : serializable v = true -> unserializable v = None.
Proof. unfold serializable. now destruct (unserializable v). Qed.

Lemma serializable_py_get a k :
  serializable (VDict a) = true -> serializable (py_get a k) = true.
Proof.
  rewrite serializable_dict, forallb_forall. intros H.
  unfold py_get, get_default. destruct (get k a) as [v|] eqn:G;
    [|reflexivity].
  apply get_In in G. exact (H _ G).
Qed.

Lemma serializable_field_diffs a b :
  serializable (VDict a) = true -> serializable (VDict b) = true ->
  serializable (VDict (field_diffs a b)) = true.
Proof.
  intros Sa Sb. rewrite serializable_dict. apply forallb_forall.
  intros [k e] HI. apply field_diffs_In in HI as (_ & _ & ->).
  cbn [snd]. rewrite serializable_dict. cbn [forallb snd].
  now rewrite (serializable_py_get a k Sa), (serializable_py_get b k Sb).
Qed.

Section MainOutcomes.
Variable str_of_exn : exn -> string.
Variable world : string -> provider.
Variable environ : string -> option string.

Lemma fetched_error w3 h :
  (exists msg, fetched str_of_exn world w3 h = [ ("error", VStr msg) ])
  \/ has_key "error" (fetched str_of_exn world w3 h) = false.
Proof.
  unfold fetched.
  destruct (get_transaction (world w3) h) as [[tx|]|e];
    try (left; now eexists).
  destruct (canonical_tx tx) as [c|e] eqn:C; [|left; now eexists].
  right. now apply (canonical_no_error tx).
Qed.

Lemma fetched_error_value w3 h :
  serializable (py_get (fetched str_of_exn world w3 h) "error") = true.
Proof.
  destruct (fetched_error w3 h) as [[msg ->]|H]; [reflexivity|].
  unfold has_key in H. unfold py_get, get_default.
  now destruct (get "error" (fetched str_of_exn world w3 h)).
Qed.

(** After the fetches main never ends the program, and it adds neither a
    fetch nor a probe to the trace. *)
Lemma after_fetch_run wA wB h t :
  exists o extra,
    after_fetch (fetched str_of_exn world wA h)
      (fetched str_of_exn world wB h) t = (o, t ++ extra)
    /\ (forall code, o <> Exit code)
    /\ existsb contacts_source extra = false.
Proof.
  set (a := fetched str_of_exn world wA h).
  set (b := fetched str_of_exn world wB h).
  unfold after_fetch, bind.
  destruct (has_key "error" a || has_key "error" b) eqn:E.
  - rewrite compare_txs_error by exact E.
    change (report (FetchFailure (py_get a "error") (py_get b "error")) t)
      with (report (false, [ ("errorA", py_get a "error");
                             ("errorB", py_get b "error") ]) t).
    rewrite report_differ.
    destruct (unserializable _); do 2 eexists; splits;
      try reflexivity; intros code Hc; discriminate Hc.
  - apply orb_false_iff in E as [Ha Hb].
    rewrite (compare_txs_run a b t Ha Hb).
    destruct (json_dumps (VDict a)) as [sa|ea].
    + destruct (dict_eq a b).
      * unfold Match. rewrite report_match.
        assert (G : get "root" [ ("root", VStr (root_of sa)) ]
                    = Some (VStr (root_of sa))) by reflexivity.
        rewrite G, <- app_assoc.
        do 2 eexists; splits; try reflexivity;
          intros code Hc; discriminate Hc.
      * destruct (json_dumps (VDict b)) as [sb|eb].
        -- unfold Mismatch. rewrite report_differ.
           destruct (unserializable _); rewrite <- app_assoc;
             do 2 eexists; splits; try reflexivity;
             intros code Hc; discriminate Hc.
        -- do 2 eexists; splits; try reflexivity;
             intros code Hc; discriminate Hc.
    + exists (Raise ea), []. rewrite app_nil_r.
      splits; try reflexivity; intros code Hc; discriminate Hc.
Qed.

Lemma quiet_parts rpcA rpcB :
  existsb is_get_transaction (warning_events rpcA rpcB) = false
  /\ existsb is_get_transaction (probe_events rpcA) = false
  /\ existsb is_keccak (warning_events rpcA rpcB) = false
  /\ existsb is_keccak (probe_events rpcA) = false.
Proof.
  unfold warning_events, probe_events.
  destruct (String.eqb rpcA rpcB);
    destruct (contains "your_api_key" rpcA || contains "your_api_key" rpcB);
    destruct (contains " " rpcA); splits; reflexivity.
Qed.

Lemma main_cases argv : main_case world environ argv.
Proof.
  destruct (le_lt_dec 2 (List.length argv)) as [Hlen|Hlen];
    [|now apply NoArgument].
  destruct (hash_gate (nth 1 argv "")) eqn:Hgate; [|now apply BadHash].
  destruct (is_connected (world (source_a environ argv))) eqn:HcA;
    [|now apply FirstUnreachable].
  destruct (is_connected (world (source_b environ argv))) eqn:HcB;
    [|now apply SecondUnreachable].
  destruct (chain_id (world (source_a environ argv))) as [ca|e] eqn:HiA;
    [|now apply (FirstChainRaises world environ argv e)].
  destruct (chain_id (world (source_b environ argv))) as [cb|e] eqn:HiB;
    [|now apply (SecondChainRaises world environ argv ca e)].
  destruct (Z.eq_dec ca cb) as [<-|Hne].
  - now apply (Compared world environ argv ca).
  - now apply (ChainsDiffer world environ argv ca cb).
Qed.

End MainOutcomes.

(** ** What a run of main does *)

Lemma existsb_none_filter {A : Type} (f : A -> bool) l :
  existsb f l = false -> filter f l = [].
Proof.
  induction l as [|x r IH]; cbn; [reflexivity|].
  destruct (f x); [discriminate|exact IH].
Qed.

Lemma no_contact_no_fetch l :
  existsb contacts_source l = false -> existsb is_get_transaction l = false.
Proof.
  induction l as [|e r IH]; cbn; [reflexivity|].
  destruct e; cbn; try exact IH; discriminate.
Qed.

Section MainTheorems.
Variable str_of_exn : exn -> string.
Variable world : string -> provider.
Variable environ : string -> option string.

Local Notation "'run' argv" := (main str_of_exn world environ argv [])
  (at level 10, argv at level 9, only parsing).
Local Notation "'rpc_a' argv" := (source_a environ argv)
  (at level 10, argv at level 9, only parsing).
Local Notation "'rpc_b' argv" := (source_b environ argv)
  (at level 10, argv at level 9, only parsing).
Local Notation "'record_a' argv" :=
  (fetched str_of_exn world (source_a environ argv) (nth 1 argv ""))
  (at level 10, argv at level 9, only parsing).
Local Notation "'record_b' argv" :=
  (fetched str_of_exn world (source_b environ argv) (nth 1 argv ""))
  (at level 10, argv at level 9, only parsing).

Lemma main_compared argv chain :
  2 <= List.length argv ->
  hash_gate (nth 1 argv "") = true ->
  is_connected (world (rpc_a argv)) = true ->
  is_connected (world (rpc_b argv)) = true ->
  chain_id (world (rpc_a argv)) = Ok chain ->
  chain_id (world (rpc_b argv)) = Ok chain ->
  run argv
  = after_fetch (record_a argv) (record_b argv)
      (preflight_events (rpc_a argv) (rpc_b argv) (nth 1 argv "") chain).
Proof. apply main_reaches_compare. Qed.

(** X11. A provider that cannot be reached ends main with code 1, the
    first one before the second is even probed; a provider whose chain id
    query raises makes main end with that exception, uncaught. In all four
    cases the trace is the warnings, the probes and the failing step. *)
Theorem main_stops_when_a_provider_fails (argv : list string) :
  2 <= List.length argv ->
  hash_gate (nth 1 argv "") = true ->
  (is_connected (world (rpc_a argv)) = false ->
   run argv
   = (Exit 1,
      warning_events (rpc_a argv) (rpc_b argv) ++ probe_events (rpc_a argv)
      ++ [EvPrint (MsgConnectFailed (rpc_a argv))]))
  /\ (is_connected (world (rpc_a argv)) = true ->
      is_connected (world (rpc_b argv)) = false ->
      run argv
      = (Exit 1,
         warning_events (rpc_a argv) (rpc_b argv) ++ probe_events (rpc_a argv)
         ++ probe_events (rpc_b argv)
         ++ [EvPrint (MsgConnectFailed (rpc_b argv))]))
  /\ (is_connected (world (rpc_a argv)) = true ->
      is_connected (world (rpc_b argv)) = true ->
      forall e,
        chain_id (world (rpc_a argv)) = Err e ->
        run argv
        = (Raise e,
           warning_events (rpc_a argv) (rpc_b argv)
           ++ probe_events (rpc_a argv) ++ probe_events (rpc_b argv)
           ++ [EvChainId (rpc_a argv)]))
  /\ (is_connected (world (rpc_a argv)) = true ->
      is_connected (world (rpc_b argv)) = true ->
      forall chainA e,
        chain_id (world (rpc_a argv)) = Ok chainA ->
        chain_id (world (rpc_b argv)) = Err e ->
        run argv
        = (Raise e,
           warning_events (rpc_a argv) (rpc_b argv)
           ++ probe_events (rpc_a argv) ++ probe_events (rpc_b argv)
           ++ [EvChainId (rpc_a argv); EvChainId (rpc_b argv)])).
Proof.
  intros Hlen Hgate. splits.
  - now apply main_first_unreachable.
  - now apply main_second_unreachable.
  - intros HcA HcB e. now apply main_first_chain_raises.
  - intros HcA HcB chainA e. now apply main_second_chain_raises.
Qed.

(** X12. main ends the program with code 1, 2 or 3 and no other: 1 for
    a missing argument or an unreachable provider, 2 for a hash that fails
    the test, 3 for two providers on different chains. Once the comparison
    is reached there is no exit code any more: a match, a mismatch and a
    failed fetch all end the run in the ordinary way. *)
Theorem main_exit_codes (argv : list string) (code : Z)
    (trace : list event) :
  run argv = (Exit code, trace) ->
  (code = 1%Z
   /\ (List.length argv < 2
       \/ (hash_gate (nth 1 argv "") = true
           /\ (is_connected (world (rpc_a argv)) = false
               \/ is_connected (world (rpc_b argv)) = false))))
  \/ (code = 2%Z
      /\ 2 <= List.length argv /\ hash_gate (nth 1 argv "") = false)
  \/ (code = 3%Z
      /\ hash_gate (nth 1 argv "") = true
      /\ exists chainA chainB,
          chain_id (world (rpc_a argv)) = Ok chainA
          /\ chain_id (world (rpc_b argv)) = Ok chainB
          /\ chainA <> chainB).
Proof.
  destruct (main_cases world environ argv).
  - rewrite main_usage by assumption. intros [= <- _]. left. auto.
  - rewrite main_rejects_hash by assumption. intros [= <- _]. right. left.
    auto.
  - rewrite main_first_unreachable by assumption. intros [= <- _].
    left. auto.
  - rewrite main_second_unreachable by assumption. intros [= <- _].
    left. auto.
  - rewrite (main_first_chain_raises _ _ _ argv e) by assumption.
    discriminate.
  - rewrite (main_second_chain_raises _ _ _ argv chainA e) by assumption.
    discriminate.
  - rewrite (main_chains_differ _ _ _ argv chainA chainB) by assumption.
    intros [= <- _]. right. right. split; [reflexivity|].
    split; [assumption|]. now exists chainA, chainB.
  - rewrite (main_compared argv chain) by assumption.
    destruct (after_fetch_run str_of_exn world (rpc_a argv) (rpc_b argv)
                (nth 1 argv "")
                (preflight_events (rpc_a argv) (rpc_b argv)
                   (nth 1 argv "") chain)) as (o & extra & E & Hne & _).
    rewrite E. intros [= -> _]. now elim (Hne code).
Qed.

(** X13. main asks a provider for the transaction, and takes a digest,
    only after every test has passed: an argument is there, the hash passes
    the test, both providers answer and both report the same chain id. And
    when they all pass, each provider is asked exactly once, A before B. *)
Theorem main_fetches_only_after_the_gates (argv : list string) :
  (existsb is_get_transaction (snd (run argv)) = true
   \/ existsb is_keccak (snd (run argv)) = true ->
   2 <= List.length argv
   /\ hash_gate (nth 1 argv "") = true
   /\ is_connected (world (rpc_a argv)) = true
   /\ is_connected (world (rpc_b argv)) = true
   /\ exists chain,
       chain_id (world (rpc_a argv)) = Ok chain
       /\ chain_id (world (rpc_b argv)) = Ok chain)
  /\ (2 <= List.length argv ->
      hash_gate (nth 1 argv "") = true ->
      is_connected (world (rpc_a argv)) = true ->
      is_connected (world (rpc_b argv)) = true ->
      (exists chain,
          chain_id (world (rpc_a argv)) = Ok chain
          /\ chain_id (world (rpc_b argv)) = Ok chain) ->
      filter is_get_transaction (snd (run argv))
      = [ EvGetTransaction (rpc_a argv) (nth 1 argv "");
          EvGetTransaction (rpc_b argv) (nth 1 argv "") ]).
Proof.
  destruct (quiet_parts (rpc_a argv) (rpc_b argv)) as (Q1 & Q2 & Q3 & Q4).
  destruct (quiet_parts (rpc_b argv) (rpc_a argv)) as (_ & Q5 & _ & Q6).
  split.
  - destruct (main_cases world environ argv).
    + rewrite main_usage by assumption. cbn. intros [F|F]; discriminate F.
    + rewrite main_rejects_hash by assumption. cbn.
      intros [F|F]; discriminate F.
    + rewrite main_first_unreachable by assumption. cbn [snd].
      rewrite !existsb_app, Q1, Q2, Q3, Q4. cbn.
      intros [F|F]; discriminate F.
    + rewrite main_second_unreachable by assumption. cbn [snd].
      rewrite !existsb_app, Q1, Q2, Q3, Q4, Q5, Q6. cbn.
      intros [F|F]; discriminate F.
    + rewrite (main_first_chain_raises _ _ _ argv e) by assumption.
      cbn [snd]. rewrite !existsb_app, Q1, Q2, Q3, Q4, Q5, Q6. cbn.
      intros [F|F]; discriminate F.
    + rewrite (main_second_chain_raises _ _ _ argv chainA e) by assumption.
      cbn [snd]. rewrite !existsb_app, Q1, Q2, Q3, Q4, Q5, Q6. cbn.
      intros [F|F]; discriminate F.
    + rewrite (main_chains_differ _ _ _ argv chainA chainB) by assumption.
      cbn [snd]. rewrite !existsb_app, Q1, Q2, Q3, Q4, Q5, Q6. cbn.
      intros [F|F]; discriminate F.
    + intros _. splits; try assumption. now exists chain.
  - intros Hlen Hgate HcA HcB (chain & HiA & HiB).
    rewrite (main_compared argv chain) by assumption.
    destruct (after_fetch_run str_of_exn world (rpc_a argv) (rpc_b argv)
                (nth 1 argv "")
                (preflight_events (rpc_a argv) (rpc_b argv)
                   (nth 1 argv "") chain)) as (o & extra & E & _ & Hq).
    rewrite E. cbn [snd]. unfold preflight_events.
    rewrite !filter_app.
    rewrite (existsb_none_filter _ _ Q1), (existsb_none_filter _ _ Q2),
      (existsb_none_filter _ _ Q5),
      (existsb_none_filter _ _ (no_contact_no_fetch _ Hq)).
    reflexivity.
Qed.

(** X14. When both providers return records that are equal, main takes
    one digest, prints the match and the root, which is the digest of the
    record of provider A, and returns. *)
Theorem main_reports_match (argv : list string) (chain : Z) (s : string) :
  2 <= List.length argv ->
  hash_gate (nth 1 argv "") = true ->
  is_connected (world (rpc_a argv)) = true ->
  is_connected (world (rpc_b argv)) = true ->
  chain_id (world (rpc_a argv)) = Ok chain ->
  chain_id (world (rpc_b argv)) = Ok chain ->
  has_key "error" (record_a argv) = false ->
  has_key "error" (record_b argv) = false ->
  dict_eq (record_a argv) (record_b argv) = true ->
  json_dumps (VDict (record_a argv)) = Ok s ->
  run argv
  = (Ret tt,
     preflight_events (rpc_a argv) (rpc_b argv) (nth 1 argv "") chain
     ++ [ EvKeccak (encode s);
          EvPrint MsgMatch;
          EvPrint (MsgRoot (VStr (root_of s)));
          EvPrint MsgElapsed ])
  /\ digest (VDict (record_a argv)) = Ok (root_of s).
Proof.
  intros Hlen Hgate HcA HcB HiA HiB Ha Hb Heq Hs.
  split; [|now apply digest_dumps].
  rewrite (main_compared argv chain) by assumption.
  unfold after_fetch, bind.
  rewrite (compare_txs_run _ _ _ Ha Hb), Hs, Heq.
  unfold Match. rewrite report_match.
  assert (G : get "root" [ ("root", VStr (root_of s)) ]
              = Some (VStr (root_of s))) by reflexivity.
  now rewrite G, <- app_assoc.
Qed.

(** X15. A failed fetch and a mismatch are reported and main returns in
    the ordinary way, without an exit code of its own: after a failed fetch
    it prints the two error texts and takes no digest; after a mismatch of
    two records that can be serialised it takes the two digests and prints
    the roots and the field diff. *)
Theorem main_reports_difference (argv : list string) (chain : Z) :
  2 <= List.length argv ->
  hash_gate (nth 1 argv "") = true ->
  is_connected (world (rpc_a argv)) = true ->
  is_connected (world (rpc_b argv)) = true ->
  chain_id (world (rpc_a argv)) = Ok chain ->
  chain_id (world (rpc_b argv)) = Ok chain ->
  (has_key "error" (record_a argv) || has_key "error" (record_b argv) = true ->
   run argv
   = (Ret tt,
      preflight_events (rpc_a argv) (rpc_b argv) (nth 1 argv "") chain
      ++ [ EvPrint MsgDiffer;
           EvPrint (MsgInfo [ ("errorA", py_get (record_a argv) "error");
                              ("errorB", py_get (record_b argv) "error") ]);
           EvPrint MsgElapsed ]))
  /\ (has_key "error" (record_a argv) = false ->
      has_key "error" (record_b argv) = false ->
      dict_eq (record_a argv) (record_b argv) = false ->
      forall sa sb,
        json_dumps (VDict (record_a argv)) = Ok sa ->
        json_dumps (VDict (record_b argv)) = Ok sb ->
        run argv
        = (Ret tt,
           preflight_events (rpc_a argv) (rpc_b argv) (nth 1 argv "") chain
           ++ [ EvKeccak (encode sa);
                EvKeccak (encode sb);
                EvPrint MsgDiffer;
                EvPrint (MsgInfo
                  [ ("rootA", VStr (root_of sa));
                    ("rootB", VStr (root_of sb));
                    ("fieldDiffs",
                     VDict (field_diffs (record_a argv) (record_b argv))) ]);
                EvPrint MsgElapsed ])).
Proof.
  intros Hlen Hgate HcA HcB HiA HiB. split.
  - intros E. rewrite (main_compared argv chain) by assumption.
    unfold after_fetch, bind. rewrite compare_txs_error by exact E.
    unfold FetchFailure. rewrite report_differ.
    rewrite serializable_None; [reflexivity|].
    rewrite serializable_dict. cbn [forallb snd].
    now rewrite !fetched_error_value.
  - intros Ha Hb Hne sa sb Hsa Hsb.
    rewrite (main_compared argv chain) by assumption.
    unfold after_fetch, bind.
    rewrite (compare_txs_run _ _ _ Ha Hb), Hsa, Hne, Hsb.
    unfold Mismatch. rewrite report_differ.
    rewrite serializable_None; [now rewrite <- app_assoc|].
    rewrite serializable_dict. cbn [forallb snd].
    rewrite serializable_field_diffs; [reflexivity| |].
    + now apply (dumps_serializable _ sa).
    + now apply (dumps_serializable _ sb).
Qed.

(** X16. A transaction that provider A returns with [bytes] in a field
    canonical_tx copies ([from], [to], [input] or [accessList]), while
    provider B returns a transaction too, ends main with the uncaught
    exception [json.dumps] raises on A's record, before any digest and
    before any verdict is printed: the TypeError for a [bytes] value, unless
    the record also holds an [int] of more than 4300 digits, which can give
    the ValueError first. *)
Theorem main_raises_on_bytes (argv : list string) (chain : Z)
    (tx c : dict) (k : string) (bs : list byte) :
  2 <= List.length argv ->
  hash_gate (nth 1 argv "") = true ->
  is_connected (world (rpc_a argv)) = true ->
  is_connected (world (rpc_b argv)) = true ->
  chain_id (world (rpc_a argv)) = Ok chain ->
  chain_id (world (rpc_b argv)) = Ok chain ->
  get_transaction (world (rpc_a argv)) (nth 1 argv "") = Ok (Some tx) ->
  canonical_tx tx = Ok c ->
  In k [ "from"; "to"; "input"; "accessList" ] ->
  py_get tx k = VBytes bs ->
  has_key "error" (record_b argv) = false ->
  exists e,
    run argv
    = (Raise e,
       preflight_events (rpc_a argv) (rpc_b argv) (nth 1 argv "") chain)
    /\ json_dumps (VDict c) = Err e
    /\ json_exception e
    /\ (ints_fit (VDict c) = true ->
        exists bs', e = TypeError_json (VBytes bs')).
Proof.
  intros Hlen Hgate HcA HcB HiA HiB Hg Hc Hk Hv Hb.
  pose proof (canonical_tx_inv tx c Hc) as F.
  assert (Ea : record_a argv = c).
  { unfold fetched. now rewrite Hg, Hc. }
  assert (Ha : has_key "error" (record_a argv) = false).
  { rewrite Ea. now apply (canonical_no_error tx). }
  assert (HI : In (k, VBytes bs) c).
  { apply get_In.
    assert (Hin : In k canonical_fields) by (each_field Hk; simpl; tauto).
    rewrite (fields_get tx c k F Hin). f_equal. rewrite <- Hv.
    destruct F. each_field Hk; assumption. }
  destruct (unserializable_dumps _ (bytes_entry_unserializable c k bs HI))
    as (e & He & Hj).
  exists e. splits; [|exact He|exact Hj|].
  - rewrite (main_compared argv chain) by assumption.
    unfold after_fetch, bind.
    rewrite (compare_txs_run _ _ _ Ha Hb), Ea, He. reflexivity.
  - intros Fc. exact (json_dumps_type_error _ Fc _ He).
Qed.

End MainTheorems.

(** ** Runs on the example providers *)

Lemma example_argv_length : 2 <= List.length example_argv.
Proof. exact (le_S _ _ (le_S _ _ (le_n 2))). Defined.

Lemma main_stops_when_a_provider_fails_witness :
  main (fun _ => "") unreachable_world no_environ example_argv []
  = (Exit 1, [ EvIsConnected "A"; EvPrint (MsgConnectFailed "A") ])
  /\ main (fun _ => "") failing_chain_world no_environ example_argv []
     = (Raise (SourceError "timeout"),
        [ EvIsConnected "A"; EvIsConnected "B"; EvChainId "A" ]).
Proof.
  split.
  - exact (proj1 (main_stops_when_a_provider_fails (fun _ => "")
                    unreachable_world no_environ example_argv
                    example_argv_length eq_refl) eq_refl).
  - destruct (main_stops_when_a_provider_fails (fun _ => "")
                failing_chain_world no_environ example_argv
                example_argv_length eq_refl) as (_ & _ & H & _).
    exact (H eq_refl eq_refl (SourceError "timeout") eq_refl).
Defined.

Lemma main_exit_codes_witness :
  exists chainA chainB,
    chain_id (split_world "A") = Ok chainA
    /\ chain_id (split_world "B") = Ok chainB
    /\ chainA <> chainB.
Proof.
  destruct (main_exit_codes (fun _ => "") split_world no_environ
              example_argv 3
              [ EvIsConnected "A"; EvIsConnected "B";
                EvChainId "A"; EvChainId "B";
                EvPrint (MsgRpcA "A" 1); EvPrint (MsgRpcB "B" 10);
                EvPrint MsgChainMismatch ] eq_refl)
    as [[E _]|[[E _]|(_ & _ & H)]].
  - discriminate E.
  - discriminate E.
  - exact H.
Defined.

Lemma main_fetches_only_after_the_gates_witness :
  filter is_get_transaction
    (snd (main (fun _ => "") agreeing_world no_environ example_argv []))
  = [ EvGetTransaction "A" hash_as_text; EvGetTransaction "B" hash_as_text ].
Proof.
  refine (proj2 (main_fetches_only_after_the_gates (fun _ => "")
                   agreeing_world no_environ example_argv)
            example_argv_length eq_refl eq_refl eq_refl _).
  exists 1%Z. split; reflexivity.
Defined.

Lemma main_reports_match_witness :
  exists s trace,
    main (fun _ => "") agreeing_world no_environ example_argv []
    = (Ret tt, trace)
    /\ last trace EvClock = EvPrint MsgElapsed
    /\ digest (VDict (example_record (VInt 5) VNone)) = Ok (root_of s).
Proof.
  destruct (json_dumps (VDict (example_record (VInt 5) VNone)))
    as [s|e] eqn:E; [|vm_compute in E; discriminate E].
  destruct (main_reports_match (fun _ => "") agreeing_world no_environ
              example_argv 1 s example_argv_length
              eq_refl eq_refl eq_refl eq_refl eq_refl eq_refl eq_refl
              eq_refl E) as [R D].
  exists s. eexists. split; [exact R|]. split; [reflexivity|exact D].
Defined.

Lemma main_reports_difference_witness :
  main (fun _ => "") example_world no_environ example_argv []
  = (Ret tt,
     [ EvIsConnected "A"; EvIsConnected "B";
       EvChainId "A"; EvChainId "B";
       EvPrint (MsgRpcA "A" 1); EvPrint (MsgRpcB "B" 1);
       EvPrint (MsgFetching hash_as_text);
       EvClock;
       EvGetTransaction "A" hash_as_text;
       EvGetTransaction "B" hash_as_text;
       EvClock;
       EvPrint MsgDiffer;
       EvPrint (MsgInfo [ ("errorA", VStr "transaction not found");
                          ("errorB", VNone) ]);
       EvPrint MsgElapsed ]).
Proof.
  exact (proj1 (main_reports_difference (fun _ => "") example_world
                  no_environ example_argv 1 example_argv_length
                  eq_refl eq_refl eq_refl eq_refl eq_refl) eq_refl).
Defined.

Lemma main_raises_on_bytes_witness :
  exists bs trace,
    main (fun _ => "") bytes_world no_environ example_argv []
    = (Raise (TypeError_json (VBytes bs)), trace)
    /\ existsb is_keccak trace = false.
Proof.
  destruct (main_raises_on_bytes (fun _ => "") bytes_world no_environ
              example_argv 1
              (dict_set "input" (VBytes [xa9; x05; x9c; xbb])
                 (example_raw (VInt 5) VNone))
              (dict_set "input" (VBytes [xa9; x05; x9c; xbb])
                 (example_record (VInt 5) VNone))
              "input" [xa9; x05; x9c; xbb] example_argv_length
              eq_refl eq_refl eq_refl eq_refl eq_refl eq_refl eq_refl
              (or_intror (or_intror (or_introl eq_refl))) eq_refl eq_refl)
    as (e & R & _ & _ & T).
  destruct (T eq_refl) as [bs' ->].
  exists bs'. eexists. split; [exact R|reflexivity].
Defined.

(** ** The text that is hashed *)

Lemma chars_app a b :
  list_ascii_of_string (a ++ b)
  = list_ascii_of_string a ++ list_ascii_of_string b.
Proof.
  induction a as [|c r IH]; [reflexivity|]. cbn. now rewrite IH.
Qed.

Lemma ascii_text_app a b :
  ascii_text (a ++ b) = ascii_text a && ascii_text b.
Proof. unfold ascii_text. now rewrite chars_app, forallb_app. Qed.

Lemma ascii_text_String c s :
  ascii_text (String c s) = printable c && ascii_text s.
Proof. reflexivity. Qed.

Lemma ascii_text_concat sep l :
  ascii_text sep = true -> forallb ascii_text l = true ->
  ascii_text (String.concat sep l) = true.
Proof.
  intros Hs. induction l as [|x r IH]; [reflexivity|].
  cbn [forallb]. intros H. apply andb_true_iff in H as [Hx Hr].
  destruct r as [|y q]; [exact Hx|].
  change (String.concat sep (x :: y :: q))
    with (x ++ sep ++ String.concat sep (y :: q))%string.
  now rewrite !ascii_text_app, Hx, Hs, (IH Hr).
Qed.

Lemma hex_digit_printable n : printable (hex_digit n) = true.
Proof.
  unfold hex_digit.
  assert (H : forall k, printable
                (nth k (list_ascii_of_string "0123456789abcdef") "0"%char)
              = true).
  { intros k. do 17 (destruct k as [|k]; [reflexivity|]). now destruct k. }
  apply H.
Qed.

Lemma escape_u_printable n : ascii_text (escape_u n) = true.
Proof.
  unfold ascii_text, escape_u, hex4. cbn [list_ascii_of_string forallb].
  now rewrite !hex_digit_printable.
Qed.

Lemma json_escape_printable c : ascii_text (json_escape c) = true.
Proof.
  unfold json_escape.
  repeat match goal with
    | |- context [if ?b then _ else _] =>
        let E := fresh "E" in destruct b eqn:E; [try reflexivity|]
    end.
  - apply andb_true_iff in E6 as [Lo Hi].
    apply N.leb_le in Lo, Hi.
    unfold ascii_text, str1, printable. cbn [list_ascii_of_string forallb].
    rewrite N_ascii_embedding by lia.
    apply N.leb_le in Lo, Hi. now rewrite Lo, Hi.
  - apply escape_u_printable.
  - now rewrite ascii_text_app, !escape_u_printable.
Qed.

Lemma json_str_printable s : ascii_text (json_str s) = true.
Proof.
  unfold json_str, str1.
  change (String dquote (String.concat "" (map json_escape (code_points s))))
    with (String dquote "" ++ String.concat "" (map json_escape (code_points s)))%string.
  rewrite !ascii_text_app, andb_true_r. cbn [andb].
  replace (ascii_text (String dquote "")) with true by reflexivity.
  cbn [andb]. apply ascii_text_concat; [reflexivity|].
  apply forallb_forall. intros x Hx.
  apply in_map_iff in Hx as (c & <- & _). apply json_escape_printable.
Qed.

Lemma uint_text_printable d :
  ascii_text (DecimalString.NilEmpty.string_of_uint d) = true.
Proof.
  unfold ascii_text. induction d; cbn; try assumption; reflexivity.
Qed.

Lemma decimal_printable z : ascii_text (decimal z) = true.
Proof.
  unfold decimal, DecimalString.NilZero.string_of_int.
  assert (U : forall d,
             ascii_text (DecimalString.NilZero.string_of_uint d) = true).
  { intros d. unfold DecimalString.NilZero.string_of_uint.
    destruct d; try apply uint_text_printable. reflexivity. }
  destruct (Z.to_int z) as [d|d]; [apply U|].
  pose proof (U d) as H. unfold ascii_text in *. cbn. exact H.
Qed.

Lemma sequence_items {K A : Type} (l : list (K * result A)) items :
  sequence l = Ok items ->
  forall k a, In (k, a) items -> In (k, Ok a) l.
Proof.
  revert items. induction l as [|[k0 r] l IH]; intros items H k a HI.
  - cbn in H. injection H as <-. contradiction.
  - cbn in H. destruct r as [a0|]; [|discriminate H]. cbn in H.
    destruct (sequence l) as [more|] eqn:E; [|discriminate H].
    cbn in H. injection H as <-. destruct HI as [[= <- <-]|HI].
    + now left.
    + right. now apply (IH more).
Qed.

Lemma json_dumps_printable v :
  forall out, json_dumps v = Ok out -> ascii_text out = true.
Proof.
  induction v using pyval_ind; intros out Ho.
  - injection Ho as <-. reflexivity.
  - destruct b; injection Ho as <-; reflexivity.
  - cbn [json_dumps] in Ho. unfold int_str in Ho.
    destruct (int_digits z <=? max_str_digits)%nat; [|discriminate Ho].
    injection Ho as <-. apply decimal_printable.
  - injection Ho as <-. apply json_str_printable.
  - discriminate Ho.
  - rewrite json_dumps_list in Ho.
    destruct (mapM json_dumps xs) as [items|] eqn:E; [|discriminate Ho].
    cbn [rbind] in Ho. injection Ho as <-.
    assert (F : forallb ascii_text items = true).
    { clear -H E. revert items E.
      induction H as [|x r Hx Hr IH]; intros items E.
      - injection E as <-. reflexivity.
      - cbn [mapM] in E. destruct (json_dumps x) as [sx|] eqn:Ex;
          [|discriminate E].
        cbn in E. destruct (mapM json_dumps r) as [ss|] eqn:Er;
          [|discriminate E].
        cbn in E. injection E as <-. cbn [forallb].
        now rewrite (Hx sx eq_refl), (IH ss eq_refl). }
    rewrite ascii_text_String, ascii_text_app,
      (ascii_text_concat "," items eq_refl F).
    reflexivity.
  - rewrite json_dumps_dict in Ho.
    destruct (sequence (sort_on fst (map render kvs))) as [items|] eqn:E;
      [|discriminate Ho].
    cbn [rbind] in Ho. injection Ho as <-.
    assert (F : forallb ascii_text (map json_item items) = true).
    { apply forallb_forall. intros x Hx.
      apply in_map_iff in Hx as ([k sx] & <- & HI).
      apply (sequence_items _ _ E) in HI.
      eapply Permutation_in in HI; [|apply sort_on_perm].
      apply in_map_iff in HI as ([k' x] & [= <- Hx] & Hkv).
      rewrite Forall_forall in H.
      unfold json_item. cbn [fst snd].
      rewrite !ascii_text_app, json_str_printable, (H _ Hkv sx Hx).
      reflexivity. }
    rewrite ascii_text_String, ascii_text_app,
      (ascii_text_concat "," (map json_item items) eq_refl F).
    reflexivity.
Qed.

Lemma encode_bytes s :
  map Byte.to_N (encode s) = map N_of_ascii (list_ascii_of_string s).
Proof.
  unfold encode, list_byte_of_string. rewrite map_map.
  apply map_ext. intros c. apply Byte.to_of_N. symmetry.
  apply byte_of_ascii_via_N.
Qed.

(** X17. The text keccak_json hashes is printable ASCII, whatever
    characters the record holds: every character of the serialisation lies
    between the space and the tilde, and the bytes handed to Keccak are
    these characters one for one. *)
Theorem hashed_text_is_ascii (obj : pyval) (s : string) :
  json_dumps obj = Ok s ->
  ascii_text s = true
  /\ map Byte.to_N (encode s) = map N_of_ascii (list_ascii_of_string s)
  /\ List.length (encode s) = String.length s
  /\ forall t,
      keccak_json obj t = (Ret (root_of s), t ++ [EvKeccak (encode s)]).
Proof.
  intros H. splits.
  - now apply (json_dumps_printable obj).
  - apply encode_bytes.
  - unfold encode, list_byte_of_string. rewrite length_map.
    clear H. induction s as [|c r IH]; [reflexivity|]. cbn. now rewrite IH.
  - intros t. now rewrite keccak_json_run, H.
Qed.

Lemma hashed_text_is_ascii_witness :
  exists s,
    json_dumps (VDict [ ("memo", VStr (String "c" (String "195" (String "169" "")))) ]) = Ok s
    /\ ascii_text s = true.
Proof.
  destruct (json_dumps (VDict [ ("memo", VStr (String "c" (String "195" (String "169" "")))) ]))
    as [s|e] eqn:E; [|vm_compute in E; discriminate E].
  exists s. split; [reflexivity|].
  exact (proj1 (hashed_text_is_ascii _ s E)).
Defined.

(** ** A hash given as bytes *)

Lemma byte_unhex_hex b :
  byte_unhex (hex_digit (Byte.to_N b / 16)) (hex_digit (Byte.to_N b mod 16))
  = Some b.
Proof. destruct b; reflexivity. Qed.

Lemma bytes_hex_injective a b : bytes_hex a = bytes_hex b -> a = b.
Proof.
  revert b. induction a as [|x r IH]; intros [|y q] H;
    try reflexivity; try discriminate H.
  cbn [bytes_hex byte_hex String.append] in H.
  injection H as H1 H2 H3.
  pose proof (byte_unhex_hex x) as Ex. pose proof (byte_unhex_hex y) as Ey.
  rewrite H1, H2, Ey in Ex. injection Ex as ->.
  f_equal. now apply IH.
Qed.

(** X18. A hash that arrives as bytes becomes text of two lowercase
    hexadecimal digits per byte, and different byte strings never become
    the same text: two providers' byte hashes canonicalise to the same
    [hash] exactly when the bytes are the same. *)
Theorem canonical_hash_of_bytes (tx tx' c c' : dict) (bs bs' : list byte) :
  canonical_tx tx = Ok c ->
  canonical_tx tx' = Ok c' ->
  py_get tx "hash" = VBytes bs ->
  py_get tx' "hash" = VBytes bs' ->
  get "hash" c = Some (VStr (bytes_hex bs))
  /\ List.length (list_ascii_of_string (bytes_hex bs)) = 2 * List.length bs
  /\ forallb is_lower_hex (list_ascii_of_string (bytes_hex bs)) = true
  /\ (get "hash" c = get "hash" c' <-> bs = bs').
Proof.
  intros Hc Hc' Hb Hb'.
  pose proof (canonical_tx_inv tx c Hc) as F.
  pose proof (canonical_tx_inv tx' c' Hc') as F'.
  assert (G : get "hash" c = Some (VStr (bytes_hex bs))).
  { rewrite (fields_get tx c "hash" F) by (simpl; tauto).
    now rewrite (fo_hash _ _ F), (hash_field_bytes tx bs Hb). }
  assert (G' : get "hash" c' = Some (VStr (bytes_hex bs'))).
  { rewrite (fields_get tx' c' "hash" F') by (simpl; tauto).
    now rewrite (fo_hash _ _ F'), (hash_field_bytes tx' bs' Hb'). }
  splits.
  - exact G.
  - apply bytes_hex_chars.
  - apply bytes_hex_lower.
  - rewrite G, G'. split.
    + intros [= E]. now apply bytes_hex_injective.
    + now intros ->.
Qed.

Lemma canonical_hash_of_bytes_witness :
  exists c,
    canonical_tx [ ("hash", VBytes hash_as_bytes) ] = Ok c
    /\ List.length (list_ascii_of_string (bytes_hex hash_as_bytes)) = 64.
Proof.
  eexists. split; [reflexivity|].
  exact (proj1 (proj2 (canonical_hash_of_bytes
                         [ ("hash", VBytes hash_as_bytes) ]
                         [ ("hash", VBytes hash_as_bytes) ]
                         _ _ hash_as_bytes hash_as_bytes
                         eq_refl eq_refl eq_refl eq_refl))).
Defined.

(** ** The URLs main uses *)

Section Sources.
Variable str_of_exn : exn -> string.
Variable world : string -> provider.
Variable environ : string -> option string.

Lemma main_starts_with_warnings argv :
  2 <= List.length argv ->
  hash_gate (nth 1 argv "") = true ->
  exists rest,
    snd (main str_of_exn world environ argv [])
    = warning_events (source_a environ argv) (source_b environ argv) ++ rest.
Proof.
  intros Hlen Hgate.
  destruct (main_cases world environ argv).
  - lia.
  - congruence.
  - rewrite main_first_unreachable by assumption. now eexists.
  - rewrite main_second_unreachable by assumption. now eexists.
  - rewrite (main_first_chain_raises _ _ _ argv e) by assumption.
    now eexists.
  - rewrite (main_second_chain_raises _ _ _ argv chainA e) by assumption.
    now eexists.
  - rewrite (main_chains_differ _ _ _ argv chainA chainB) by assumption.
    now eexists.
  - rewrite (main_reaches_compare _ _ _ argv chain) by assumption.
    destruct (after_fetch_run str_of_exn world (source_a environ argv)
                (source_b environ argv) (nth 1 argv "")
                (preflight_events (source_a environ argv)
                   (source_b environ argv) (nth 1 argv "") chain))
      as (o & extra & E & _).
    unfold after_fetch in E. rewrite E. cbn [snd].
    unfold preflight_events. rewrite <- !app_assoc. now eexists.
Qed.

(** X19. The URL of each provider is the command-line argument when
    there is one, else the environment variable [RPC_A] (resp. [RPC_B]) when
    it is set, else the built-in default. The built-in default of provider A
    carries the placeholder key, so a run that gets past the hash test with
    neither an argument nor [RPC_A] prints the placeholder warning. *)
Theorem source_precedence (argv : list string) :
  (2 < List.length argv -> source_a environ argv = nth 2 argv "")
  /\ (3 < List.length argv -> source_b environ argv = nth 3 argv "")
  /\ (List.length argv <= 2 ->
      forall url, environ "RPC_A" = Some url -> source_a environ argv = url)
  /\ (List.length argv <= 3 ->
      forall url, environ "RPC_B" = Some url -> source_b environ argv = url)
  /\ (List.length argv <= 2 -> environ "RPC_A" = None ->
      source_a environ argv = "https://mainnet.infura.io/v3/your_api_key"
      /\ (2 <= List.length argv -> hash_gate (nth 1 argv "") = true ->
          In (EvPrint MsgPlaceholder)
            (snd (main str_of_exn world environ argv []))))
  /\ (List.length argv <= 3 -> environ "RPC_B" = None ->
      source_b environ argv = "https://eth.llamarpc.com").
Proof.
  unfold source_a, source_b, DEFAULT_RPC_A, DEFAULT_RPC_B, getenv.
  splits.
  - intros H. apply Nat.ltb_lt in H. now rewrite H.
  - intros H. apply Nat.ltb_lt in H. now rewrite H.
  - intros H url E. apply Nat.ltb_ge in H. now rewrite H, E.
  - intros H url E. apply Nat.ltb_ge in H. now rewrite H, E.
  - intros H E. apply Nat.ltb_ge in H.
    assert (A : source_a environ argv
                = "https://mainnet.infura.io/v3/your_api_key").
    { unfold source_a, DEFAULT_RPC_A, getenv. now rewrite H, E. }
    split; [now rewrite H, E|].
    intros Hlen Hgate.
    destruct (main_starts_with_warnings argv Hlen Hgate) as [rest ->].
    rewrite A. unfold warning_events.
    replace (contains "your_api_key"
               "https://mainnet.infura.io/v3/your_api_key")
      with true by reflexivity.
    cbn [orb]. apply in_or_app. left. apply in_or_app. right. now left.
  - intros H E. apply Nat.ltb_ge in H. now rewrite H, E.
Qed.

End Sources.

Lemma source_precedence_witness :
  In (EvPrint MsgPlaceholder)
    (snd (main (fun _ => "") agreeing_world no_environ
            [ "tx_attest.py"; hash_as_text ] [])).
Proof.
  destruct (source_precedence (fun _ => "") agreeing_world no_environ
              [ "tx_attest.py"; hash_as_text ])
    as (_ & _ & _ & _ & H & _).
  exact (proj2 (H (le_n 2) eq_refl) (le_n 2) eq_refl).
Defined.
